(** * ScholarAI Graph-RAG backend: retrieval, assembly and streaming

    A shallow embedding of the query-serving code of the backend
    ([main.py], [retriever.py], [graph_pipe.py]) together with the
    properties of it that the specification states.

    Python values that come out of the store or out of [json.loads] are
    modelled by the type [json]; exceptions by the error monad [result];
    a Python [dict] by an association list that keeps insertion order;
    a generator by the list of values it yields. *)

From Stdlib Require Import List String Ascii ZArith NArith Lia Bool Arith.
Import ListNotations.

Open Scope string_scope.
Open Scope list_scope.

Set Implicit Arguments.
Set Warnings "-register-all".

(* ================================================================== *)
(** * Python values, exceptions and dicts *)
(* ================================================================== *)

Module Py.

(** The exception classes the modelled code can raise. *)
Inductive exn : Type :=
| KeyError
| TypeError
| AttributeError
| ValidationError      (* pydantic *)
| ServiceUnavailable   (* neo4j *)
| ProviderError        (* requests / openai / embedding backend *)
| IndexError
| ValueError
| RecursionError.

Inductive result (A : Type) : Type :=
| OK (a : A)
| Raise (e : exn).
Arguments OK {A} a.
Arguments Raise {A} e.

Definition bind {A B : Type} (m : result A) (k : A -> result B) : result B :=
  match m with
  | OK a => k a
  | Raise e => Raise e
  end.

(** JSON-like values: what [json.loads] returns and what the driver
    returns for a property. *)
Inductive json : Type :=
| JNull
| JBool (b : bool)
| JNum (z : Z)
| JStr (s : string)
| JList (l : list json)
| JObj (kvs : list (string * json)).

(** What [json.loads] does with a text: it returns a value, raises
    [JSONDecodeError] on a text that is not JSON, or raises something
    else ([RecursionError] on a text nested too deep, [ValueError] on
    an integer with too many digits). *)
Inductive loaded : Type :=
| Parsed (v : json)
| JSONDecodeError
| OtherException (e : exn).

(** Truthiness of a value, as used by [x or default]. *)
Definition truthy (v : json) : bool :=
  match v with
  | JNull => false
  | JBool b => b
  | JNum z => negb (Z.eqb z 0)
  | JStr s => negb (String.eqb s EmptyString)
  | JList l => match l with [] => false | _ => true end
  | JObj kvs => match kvs with [] => false | _ => true end
  end.

(** [d.get(k)]: the first binding of [k]. *)
Fixpoint assoc {V : Type} (k : string) (d : list (string * V)) : option V :=
  match d with
  | [] => None
  | (k', v) :: d' => if String.eqb k k' then Some v else assoc k d'
  end.

(** [v[k]] for a value [v]: a dict gives the binding or [KeyError];
    anything else cannot be indexed by a string. *)
Definition getitem (v : json) (k : string) : result json :=
  match v with
  | JObj kvs => match assoc k kvs with
                | Some x => OK x
                | None => Raise KeyError
                end
  | _ => Raise TypeError
  end.

(** [v.get(k, dflt)]: only a dict has the method. *)
Definition get_default (v : json) (k : string) (dflt : json) : result json :=
  match v with
  | JObj kvs => match assoc k kvs with
                | Some x => OK x
                | None => OK dflt
                end
  | _ => Raise AttributeError
  end.

(** The characters of a string, each as a one-character string. *)
Fixpoint chars (s : string) : list string :=
  match s with
  | EmptyString => []
  | String c s' => String c EmptyString :: chars s'
  end.

(** [for x in v]: a list yields its items, a dict its keys, a string
    its characters; other values are not iterable. *)
Definition iter (v : json) : result (list json) :=
  match v with
  | JList l => OK l
  | JObj kvs => OK (map (fun kv => JStr (fst kv)) kvs)
  | JStr s => OK (map JStr (chars s))
  | _ => Raise TypeError
  end.

(** Validation of a pydantic [str] field. *)
Definition as_str (v : json) : result string :=
  match v with
  | JStr s => OK s
  | _ => Raise ValidationError
  end.

(** ** A dict with insertion order

    [d[k] = v] replaces the value of an existing key in place and
    appends a new key at the end. *)
Section Dict.
Variable K V : Type.
Variable eqb : K -> K -> bool.

Fixpoint dict_set (k : K) (v : V) (d : list (K * V)) : list (K * V) :=
  match d with
  | [] => [(k, v)]
  | (k', v') :: d' =>
      if eqb k k' then (k', v) :: d' else (k', v') :: dict_set k v d'
  end.

Fixpoint dict_get (k : K) (d : list (K * V)) : option V :=
  match d with
  | [] => None
  | (k', v') :: d' => if eqb k k' then Some v' else dict_get k d'
  end.

Definition dict_keys (d : list (K * V)) : list K := map fst d.
Definition dict_values (d : list (K * V)) : list V := map snd d.
End Dict.

End Py.

Notation "x <- m ;; k" := (Py.bind m (fun x => k))
  (at level 61, m at next level, right associativity).

(* ================================================================== *)
(** * graph_pipe.py: relationship-type sanitisation *)
(* ================================================================== *)

Module Sanitize.

(** A Python [str] is a sequence of Unicode code points; [str.upper]
    is defined on code points, so this module spells strings out that
    way. *)
Definition pystr : Type := list N.

Definition py (s : string) : pystr :=
  map N_of_ascii (list_ascii_of_string s).

Definition is_lower (c : N) : bool := (97 <=? c)%N && (c <=? 122)%N.
Definition is_upper (c : N) : bool := (65 <=? c)%N && (c <=? 90)%N.
Definition is_digit (c : N) : bool := (48 <=? c)%N && (c <=? 57)%N.
Definition is_underscore (c : N) : bool := (c =? 95)%N.

(** The class [A-Za-z0-9_] of the pattern. *)
Definition word_char (c : N) : bool :=
  is_upper c || is_lower c || is_digit c || is_underscore c.

(** What an upper-case token is made of. *)
Definition token_char (c : N) : bool :=
  is_upper c || is_digit c || is_underscore c.

Section Upper.
(** The upper-case mapping of the code points above ASCII is the
    Unicode table's; it can give several code points. *)
Variable unicode_upper : N -> list N.

Definition upper_char (c : N) : list N :=
  if (c <? 128)%N
  then (if is_lower c then [(c - 32)%N] else [c])
  else unicode_upper c.

Definition upper (s : pystr) : pystr := flat_map upper_char s.

(** [re.sub(r"[^A-Za-z0-9_]+", "_", s)]: every maximal run of
    characters outside the class becomes one underscore. [in_run]
    says that the previous character was already replaced. *)
Fixpoint re_sub (in_run : bool) (s : pystr) : pystr :=
  match s with
  | [] => []
  | c :: s' =>
      if word_char c then c :: re_sub false s'
      else if in_run then re_sub true s'
           else 95%N :: re_sub true s'
  end.

Definition RELATED_TO : pystr := py "RELATED_TO".

(** [t or "RELATED_TO"] *)
Definition or_default (t : option pystr) : pystr :=
  match t with
  | None => RELATED_TO
  | Some [] => RELATED_TO
  | Some s => s
  end.

Definition _sanitize_rel_type (t : option pystr) : pystr :=
  re_sub false (upper (or_default t)).

End Upper.

End Sanitize.

(* ================================================================== *)
(** * retriever.py: the store and graph expansion *)
(* ================================================================== *)

Module Store.
Import Py.

Inductive label : Type := Paper | Chunk | Entity.

(** [HAS_CHUNK] and [MENTIONS] are the two kinds the expansion hops
    over; [REL name] is a relationship of any other type, [name]
    being neither of the two. Entity-to-entity relationships carry a
    sanitised type, which can be any token, [MENTIONS] included. *)
Inductive rel_type : Type :=
| HAS_CHUNK
| MENTIONS
| REL (name : string).

(** The type of the relationship that a statement creates with this
    type name. *)
Definition rel_type_of (name : string) : rel_type :=
  if String.eqb name "HAS_CHUNK" then HAS_CHUNK
  else if String.eqb name "MENTIONS" then MENTIONS
  else REL name.

Record node : Type := mkNode {
  nid : nat;
  nlabel : label;
  nprops : list (string * json)
}.

Record rel : Type := mkRel {
  rid : nat;
  rtype : rel_type;
  rsrc : nat;
  rdst : nat
}.

Record graphdb : Type := mkDb {
  nodes : list node;
  rels : list rel
}.

Definition label_eqb (a b : label) : bool :=
  match a, b with
  | Paper, Paper | Chunk, Chunk | Entity, Entity => true
  | _, _ => false
  end.

(** [n.key]: a missing property is null. *)
Definition prop (n : node) (key : string) : json :=
  match assoc key (nprops n) with
  | Some v => v
  | None => JNull
  end.

(** [coalesce(v, "")] *)
Definition coalesce_empty (v : json) : json :=
  match v with
  | JNull => JStr EmptyString
  | _ => v
  end.

Definition find_node (g : graphdb) (i : nat) : option node :=
  find (fun n => Nat.eqb (nid n) i) (nodes g).

(** [(c:Chunk {id: cid})] *)
Definition is_chunk_with_id (cid : string) (n : node) : bool :=
  label_eqb (nlabel n) Chunk &&
  match prop n "id" with
  | JStr s => String.eqb s cid
  | _ => false
  end.

Definition hop_type (t : rel_type) : bool :=
  match t with
  | HAS_CHUNK | MENTIONS => true
  | REL _ => false
  end.

(** One undirected hop over [r] out of node [cur]. *)
Definition step (r : rel) (cur : nat) : option nat :=
  if Nat.eqb (rsrc r) cur then Some (rdst r)
  else if Nat.eqb (rdst r) cur then Some (rsrc r)
  else None.

(** End nodes of the paths [-[:MENTIONS|HAS_CHUNK*1..k]-] that start
    at [cur]; a path never uses a relationship twice ([used]). *)
Fixpoint trails (g : graphdb) (k : nat) (used : list nat) (cur : nat)
  : list nat :=
  match k with
  | O => []
  | S k' =>
      flat_map
        (fun r =>
           if hop_type (rtype r) && negb (existsb (Nat.eqb (rid r)) used)
           then match step r cur with
                | Some nxt => nxt :: trails g k' (rid r :: used) nxt
                | None => []
                end
           else [])
        (rels g)
  end.

(** The [(c2:Chunk)] at the ends of those paths. *)
Definition reached_chunks (g : graphdb) (depth : nat) (c : node) : list node :=
  flat_map
    (fun i => match find_node g i with
              | Some n => if label_eqb (nlabel n) Chunk then [n] else []
              | None => []
              end)
    (trails g depth [] (nid c)).

(** Distinct nodes, first occurrence kept. *)
Fixpoint distinct_nodes (seen : list nat) (l : list node) : list node :=
  match l with
  | [] => []
  | n :: l' =>
      if existsb (Nat.eqb (nid n)) seen then distinct_nodes seen l'
      else n :: distinct_nodes (nid n :: seen) l'
  end.

(** [OPTIONAL MATCH ... WITH c, collect(DISTINCT coalesce(c2, c)) AS allc]:
    when no path matches, the optional match leaves [c2] null and the
    coalesce gives [c] itself. *)
Definition allc (g : graphdb) (depth : nat) (c : node) : list node :=
  match reached_chunks g depth c with
  | [] => [c]
  | cs => distinct_nodes [] cs
  end.

(** [MATCH (chunk)<-[:HAS_CHUNK]-(p:Paper)] *)
Definition owners (g : graphdb) (chunk : node) : list node :=
  flat_map
    (fun r =>
       match rtype r with
       | HAS_CHUNK =>
           if Nat.eqb (rdst r) (nid chunk)
           then match find_node g (rsrc r) with
                | Some p => if label_eqb (nlabel p) Paper then [p] else []
                | None => []
                end
           else []
       | _ => []
       end)
    (rels g).

(** One returned record, as the dict [r.data()] gives. *)
Definition row : Type := list (string * json).

Definition mk_row (p chunk : node) : row :=
  [ ("paper_id", prop p "id");
    ("paper_title", prop p "title");
    ("pdf_url", coalesce_empty (prop p "pdf_url"));
    ("chunk_text", prop chunk "text");
    ("graph_data", coalesce_empty (prop chunk "graph_data")) ].

Fixpoint json_eq_dec (a b : json) {struct a} : {a = b} + {a <> b}.
Proof.
  decide equality.
  - apply Bool.bool_dec.
  - apply Z.eq_dec.
  - apply string_dec.
  - apply (list_eq_dec json_eq_dec).
  - apply list_eq_dec. decide equality. apply string_dec.
Defined.

Definition row_eq_dec (a b : row) : {a = b} + {a <> b}.
Proof.
  apply list_eq_dec. decide equality.
  - apply json_eq_dec.
  - apply string_dec.
Defined.

(** [UNWIND $ids AS cid  MATCH (c:Chunk {id: cid})]; the later [WITH c, ...]
    groups by [c], so a chunk matched twice counts once. *)
Definition seeds (g : graphdb) (chunk_ids : list string) : list node :=
  distinct_nodes []
    (flat_map (fun cid => filter (is_chunk_with_id cid) (nodes g)) chunk_ids).

(** [GraphRetriever.graph_expansion] on a reachable store. *)
Definition graph_expansion (g : graphdb) (chunk_ids : list string) (depth : nat)
  : list row :=
  nodup row_eq_dec
    (flat_map
       (fun c =>
          flat_map
            (fun chunk => map (fun p => mk_row p chunk) (owners g chunk))
            (allc g depth c))
       (seeds g chunk_ids)).

End Store.

(* ================================================================== *)
(** * retriever.py: the generation client *)
(* ================================================================== *)

Module Llm.
Import Py.

(** What [query_llm] hands back: a plain [str], or a generator, given
    by the fragments it yields and the exception that ends it, if one
    does. *)
Inductive completion : Type :=
| Text (s : string)
| Fragments (yielded : list string) (failure : option exn).

(** The prompt template, read from a file at import time and applied
    with [str.format]: literal text and replacement fields. *)
Inductive piece : Type :=
| Lit (s : string)
| Field (name : string).

Definition template : Type := list piece.

Definition is_digit (c : ascii) : bool :=
  (48 <=? nat_of_ascii c)%nat && (nat_of_ascii c <=? 57)%nat.

Definition digit_val (c : ascii) : Z := (Z.of_nat (nat_of_ascii c) - 48)%Z.

(** The largest index, on a 64-bit build. *)
Definition PY_SSIZE_T_MAX : Z := 9223372036854775807%Z.

(** The formatter's reading of an argument name as a decimal number:
    [None] when a character is not a digit, [ValueError] when the
    digits are too many. *)
Fixpoint digits_value (acc : Z) (s : string) : result (option Z) :=
  match s with
  | EmptyString => OK (Some acc)
  | String c r =>
      if is_digit c then
        if ((PY_SSIZE_T_MAX - digit_val c) / 10 <? acc)%Z then Raise ValueError
        else digits_value (acc * 10 + digit_val c)%Z r
      else OK None
  end.

Definition get_integer (s : string) : result (option Z) :=
  match s with
  | EmptyString => OK None
  | _ => digits_value 0%Z s
  end.

(** [t.format(k1=v1, ...)], called with keyword arguments only. A
    template is taken as the formatter splits it, into literal text
    and replacement fields, and a field is given by the name of its
    argument alone (no attribute, index, conversion or format
    specification); the values are strings and are inserted as they
    are. A field with an empty name or a number as its name ([{}],
    [{0}]) asks for a positional argument and raises [IndexError],
    there being none; a named field that is not among the keyword
    arguments raises [KeyError]. *)
Fixpoint format (t : template) (kwargs : list (string * string)) : result string :=
  match t with
  | [] => OK EmptyString
  | Lit s :: t' =>
      rest <- format t' kwargs ;; OK (s ++ rest)%string
  | Field n :: t' =>
      match n with
      | EmptyString => Raise IndexError
      | _ =>
          idx <- get_integer n ;;
          match idx with
          | Some _ => Raise IndexError
          | None =>
              match assoc n kwargs with
              | Some v => rest <- format t' kwargs ;; OK (v ++ rest)%string
              | None => Raise KeyError
              end
          end
      end
  end.

(** Module-level configuration of [retriever.py]. *)
Record config : Type := mkConfig {
  LLM_PROVIDER : string;          (* already lower-cased *)
  OPENROUTER_API_KEY : string;
  RAG_PROMPT : template;
  CURRENT_DATE_TIME : string
}.

(** The two remote services. A plain request answers with a string
    or fails; a streaming request gives the fragments and the failure
    that interrupts them, if any. The hosted API opens the stream when
    it is called, so the call itself can fail. *)
Record backends : Type := mkBackends {
  ollama_post : string -> result string;
  ollama_lines : string -> list string * option exn;
  openrouter_create : string -> result string;
  openrouter_create_stream : string -> result (list string * option exn)
}.

Definition _ollama_complete (b : backends) (prompt : string) (stream : bool)
  : result completion :=
  if negb stream then
    r <- ollama_post b prompt ;; OK (Text r)
  else
    let (fs, e) := ollama_lines b prompt in OK (Fragments fs e).

Definition _openrouter_complete (c : config) (b : backends)
           (prompt : string) (stream : bool) : result completion :=
  if String.eqb (OPENROUTER_API_KEY c) EmptyString then
    OK (Text "Error: OPENROUTER_API_KEY not set.")
  else if negb stream then
    r <- openrouter_create b prompt ;; OK (Text r)
  else
    g <- openrouter_create_stream b prompt ;;
    OK (Fragments (fst g) (snd g)).

Definition query_llm (c : config) (b : backends)
           (context query : string) (stream : bool) : result completion :=
  prompt <- format (RAG_PROMPT c)
              [ ("context", context); ("query", query);
                ("CURRENT_DATE_TIME", CURRENT_DATE_TIME c) ] ;;
  if String.eqb (LLM_PROVIDER c) "ollama" then
    _ollama_complete b prompt stream
  else if String.eqb (LLM_PROVIDER c) "openrouter" then
    _openrouter_complete c b prompt stream
  else
    OK (Text "Error: invalid LLM_PROVIDER.").

(** [for token in completion]: a string is iterated character by
    character, a generator yields its fragments. *)
Definition tokens (c : completion) : list string * option exn :=
  match c with
  | Text s => (chars s, None)
  | Fragments fs e => (fs, e)
  end.

End Llm.

(* ================================================================== *)
(** * main.py: the context assembler *)
(* ================================================================== *)

Module Assembler.
Import Py.

Record Source : Type := mkSource {
  paper_id : string;
  paper_title : string;
  pdf_url : string;
  chunk_text : string
}.

Record GraphNode : Type := mkGraphNode {
  node_id : string;
  node_type : string
}.

Record GraphEdge : Type := mkGraphEdge {
  edge_source : string;
  edge_target : string;
  edge_type : string
}.

Record Graph : Type := mkGraph {
  nodes : list GraphNode;
  edges : list GraphEdge
}.

Record StructuredResponse : Type := mkStructuredResponse {
  sources : list Source;
  graph : Graph
}.

Definition edge_key : Type := (string * string * string)%type.

Definition edge_key_eqb (a b : edge_key) : bool :=
  let '(s1, t1, y1) := a in
  let '(s2, t2, y2) := b in
  String.eqb s1 s2 && String.eqb t1 t2 && String.eqb y1 y2.

(** The local variables of [_prepare_structured_data]. *)
Record locals : Type := mkLocals {
  l_sources : list Source;
  graph_nodes : list (string * GraphNode);
  graph_edges : list (edge_key * GraphEdge);
  context_for_llm : string;
  seen_chunks : list string
}.

Definition init : locals := mkLocals [] [] [] EmptyString [].

Definition nl : string := String (ascii_of_nat 10) EmptyString.

(** [f"Paper: {title}\nChunk: {text}\n\n"] *)
Definition block (title text : string) : string :=
  ("Paper: " ++ title ++ nl ++ "Chunk: " ++ text ++ nl ++ nl)%string.

(** [x not in seen_chunks]: the set holds strings only; a list or a
    dict cannot be hashed. *)
Definition not_in_seen (x : json) (seen : list string) : result bool :=
  match x with
  | JStr s => OK (negb (existsb (String.eqb s) seen))
  | JList _ | JObj _ => Raise TypeError
  | _ => OK true
  end.

(** [r[k]] on a record dict. *)
Definition row_get (r : Store.row) (k : string) : result json :=
  getitem (JObj r) k.

Section Loads.
(** [json.loads] *)
Variable json_loads : string -> loaded.

(** Lines 109-114: a string is parsed; [JSONDecodeError] is caught and
    gives [{}], any other exception of the parser leaves the function.
    The result is what [r.get("graph_data")] returns afterwards. *)
Definition parsed_graph_data (r : Store.row) : result (option json) :=
  match assoc "graph_data" r with
  | Some (JStr s) =>
      match json_loads s with
      | Parsed v => OK (Some v)
      | JSONDecodeError => OK (Some (JObj []))
      | OtherException e => Raise e
      end
  | other => OK other
  end.

(** Lines 116-125. *)
Definition add_source (st : locals) (r : Store.row) : result locals :=
  ct <- row_get r "chunk_text" ;;
  fresh <- not_in_seen ct (seen_chunks st) ;;
  if fresh then
    a <- row_get r "paper_id" ;;
    b <- row_get r "paper_title" ;;
    c <- row_get r "pdf_url" ;;
    d <- row_get r "chunk_text" ;;
    pid <- as_str a ;;
    title <- as_str b ;;
    url <- as_str c ;;
    text <- as_str d ;;
    OK (mkLocals (l_sources st ++ [mkSource pid title url text])
                 (graph_nodes st) (graph_edges st)
                 (context_for_llm st ++ block title text)%string
                 (text :: seen_chunks st))
  else OK st.

(** Line 129, for one entity. *)
Definition add_entity (gn : list (string * GraphNode)) (e : json)
  : result (list (string * GraphNode)) :=
  a <- getitem e "name" ;;
  b <- getitem e "type" ;;
  name <- as_str a ;;
  ty <- as_str b ;;
  OK (dict_set String.eqb name (mkGraphNode name ty) gn).

(** Lines 131-134, for one relationship. *)
Definition add_relationship (ge : list (edge_key * GraphEdge)) (rel : json)
  : result (list (edge_key * GraphEdge)) :=
  a <- getitem rel "source" ;;
  b <- getitem rel "target" ;;
  c <- getitem rel "type" ;;
  s <- as_str a ;;
  t <- as_str b ;;
  y <- as_str c ;;
  OK (dict_set edge_key_eqb (s, t, y) (mkGraphEdge s t y) ge).

(** A [for] loop whose body can raise. *)
Fixpoint for_each {A S : Type} (body : S -> A -> result S) (st : S) (l : list A)
  : result S :=
  match l with
  | [] => OK st
  | x :: l' => st' <- body st x ;; for_each body st' l'
  end.

(** Lines 127-134; [graph_data] is what [r.get("graph_data")] returns. *)
Definition add_graph (st : locals) (graph_data : option json) : result locals :=
  let gd := match graph_data with
            | Some v => if truthy v then v else JObj []
            | None => JObj []
            end in
  ents <- get_default gd "entities" (JList []) ;;
  es <- iter ents ;;
  gn <- for_each add_entity (graph_nodes st) es ;;
  rels <- get_default gd "relationships" (JList []) ;;
  rs <- iter rels ;;
  ge <- for_each add_relationship (graph_edges st) rs ;;
  OK (mkLocals (l_sources st) gn ge (context_for_llm st) (seen_chunks st)).

(** Lines 109-134: one turn of the loop. *)
Definition loop_body (st : locals) (r : Store.row) : result locals :=
  graph_data <- parsed_graph_data r ;;
  st1 <- add_source st r ;;
  add_graph st1 graph_data.

Definition _prepare_structured_data (context_data : list Store.row)
  : result (StructuredResponse * string) :=
  st <- for_each loop_body init context_data ;;
  OK (mkStructuredResponse
        (l_sources st)
        (mkGraph (dict_values (graph_nodes st)) (dict_values (graph_edges st))),
      context_for_llm st).

End Loads.

End Assembler.

(* ================================================================== *)
(** * retriever.py: context assembly of the command-line tool *)
(* ================================================================== *)

Module Cli.
Import Py.

Definition budget : Z := 8000.

(** [len(s)] *)
Definition len (s : string) : Z := Z.of_nat (String.length s).

Record locals : Type := mkLocals {
  seen : list json;
  context_parts : list string;
  total_len : Z
}.

Definition init : locals := mkLocals [] [] 0%Z.

(** How one turn of the loop ends. *)
Inductive flow : Type :=
| Next (st : locals)
| Stop (st : locals).

(** Equality of two hashable values as a [set] sees it: [True] and
    [1] are the same element. *)
Definition py_eqb (a b : json) : bool :=
  match a, b with
  | JStr s, JStr t => String.eqb s t
  | JNum x, JNum y => Z.eqb x y
  | JBool x, JBool y => Bool.eqb x y
  | JBool x, JNum y => Z.eqb (if x then 1 else 0) y
  | JNum x, JBool y => Z.eqb x (if y then 1 else 0)
  | JNull, JNull => true
  | _, _ => false
  end.

(** [ch in seen] *)
Definition is_in (ch : json) (s : list json) : result bool :=
  match ch with
  | JList _ | JObj _ => Raise TypeError
  | _ => OK (existsb (py_eqb ch) s)
  end.

(** ["\n".join(parts)] *)
Fixpoint join (sep : string) (parts : list string) : string :=
  match parts with
  | [] => EmptyString
  | [p] => p
  | p :: rest => (p ++ sep ++ join sep rest)%string
  end.

Section Main.
(** [str(v)] for a value that is not a string, as an f-string
    renders it. *)
Variable str_of : json -> string.

Definition fmt (v : json) : string :=
  match v with
  | JStr s => s
  | _ => str_of v
  end.

(** [f"Paper: {title}\nChunk: {ch}\n"] *)
Definition part (title ch : json) : string :=
  ("Paper: " ++ fmt title ++ Assembler.nl ++ "Chunk: " ++ fmt ch ++ Assembler.nl)%string.

(** [r.get("chunk_text") or ""] *)
Definition chunk_of (r : Store.row) : json :=
  match assoc "chunk_text" r with
  | Some v => if truthy v then v else JStr EmptyString
  | None => JStr EmptyString
  end.

(** [r.get('paper_title','N/A')] *)
Definition title_of (r : Store.row) : json :=
  match assoc "paper_title" r with
  | Some v => v
  | None => JStr "N/A"
  end.

(** Lines 182-190: one turn of the loop. [continue] goes on with the
    state unchanged, [break] leaves the loop. *)
Definition body (st : locals) (r : Store.row) : result flow :=
  let ch := chunk_of r in
  if negb (truthy ch) then OK (Next st)
  else
    dup <- is_in ch (seen st) ;;
    if dup then OK (Next st)
    else
      let p := part (title_of r) ch in
      if (budget <? total_len st + len p)%Z then OK (Stop st)
      else OK (Next (mkLocals (ch :: seen st)
                              (context_parts st ++ [p])
                              (total_len st + len p)%Z)).

(** Lines 181-190: the loop. *)
Fixpoint assemble (st : locals) (ctx_rows : list Store.row) : result locals :=
  match ctx_rows with
  | [] => OK st
  | r :: rest =>
      f <- body st r ;;
      match f with
      | Next st' => assemble st' rest
      | Stop st' => OK st'
      end
  end.

(** Line 191. *)
Definition context (ctx_rows : list Store.row) : result string :=
  st <- assemble init ctx_rows ;;
  OK (join Assembler.nl (context_parts st)).

End Main.

End Cli.

(* ================================================================== *)
(** * main.py: the streaming endpoint *)
(* ================================================================== *)

Module Stream.
Import Py.

(** The retriever object and what it reaches: the embedding service,
    the vector index, the graph session (a store, or
    [ServiceUnavailable]), the JSON parser, and the generation
    client's configuration and services. *)
Record retriever (E : Type) : Type := mkRetriever {
  get_query_embedding : string -> result E;
  vector_search : E -> result (list string);
  session : result Store.graphdb;
  json_loads : string -> loaded;
  cfg : Llm.config;
  services : Llm.backends
}.

(** One element of the response body. *)
Inductive frame : Type :=
| Data (payload : json)     (* "data: <json>" *)
| End_.                     (* "event: end", "data: [DONE]" *)

Definition graph_expansion {E} (R : retriever E) (chunk_ids : list string) (depth : nat)
  : result (list Store.row) :=
  g <- session R ;; OK (Store.graph_expansion g chunk_ids depth).

(** [model_dump()] of the three pydantic models. *)
Definition dump_node (n : Assembler.GraphNode) : json :=
  JObj [ ("id", JStr (Assembler.node_id n)); ("type", JStr (Assembler.node_type n)) ].

Definition dump_edge (e : Assembler.GraphEdge) : json :=
  JObj [ ("source", JStr (Assembler.edge_source e));
         ("target", JStr (Assembler.edge_target e));
         ("type", JStr (Assembler.edge_type e)) ].

Definition dump_source (s : Assembler.Source) : json :=
  JObj [ ("paper_id", JStr (Assembler.paper_id s));
         ("paper_title", JStr (Assembler.paper_title s));
         ("pdf_url", JStr (Assembler.pdf_url s));
         ("chunk_text", JStr (Assembler.chunk_text s)) ].

Definition graph_payload (sd : Assembler.StructuredResponse) : json :=
  JObj [ ("type", JStr "graph");
         ("nodes", JList (map dump_node (Assembler.nodes (Assembler.graph sd))));
         ("edges", JList (map dump_edge (Assembler.edges (Assembler.graph sd)))) ].

Definition sources_payload (sd : Assembler.StructuredResponse) : json :=
  JObj [ ("type", JStr "metadata");
         ("sources", JList (map dump_source (Assembler.sources sd))) ].

Definition text_payload (token : string) : json :=
  JObj [ ("type", JStr "text"); ("chunk", JStr token) ].

Definition error_payload : json :=
  JObj [ ("error", JStr "Something went wrong") ].

(** Lines 150-153: the stages before anything is sent. *)
Definition stages {E} (R : retriever E) (query : string)
  : result (Assembler.StructuredResponse * string) :=
  query_embedding <- get_query_embedding R query ;;
  top_chunks <- vector_search R query_embedding ;;
  context_data <- graph_expansion R top_chunks 2 ;;
  Assembler._prepare_structured_data (json_loads R) context_data.

(** The [try] block: the frames it yields, and the exception that
    leaves it, if one does. *)
Definition try_block {E} (R : retriever E) (query : string)
  : list frame * option exn :=
  match stages R query with
  | Raise e => ([], Some e)
  | OK (structured_data, context_for_llm) =>
      let sent := [ Data (graph_payload structured_data);
                    Data (sources_payload structured_data) ] in
      match Llm.query_llm (cfg R) (services R) context_for_llm query true with
      | Raise e => (sent, Some e)
      | OK c =>
          let (toks, e) := Llm.tokens c in
          (sent ++ map (fun token => Data (text_payload token)) toks, e)
      end
  end.

(** [response_generator]: the [try] block, the [except] clause and
    the [finally] clause. *)
Definition response_generator {E} (R : retriever E) (query : string) : list frame :=
  let (yielded, raised) := try_block R query in
  yielded
    ++ match raised with
       | Some _ => [ Data error_payload ]
       | None => []
       end
    ++ [ End_ ].

(** The kind of a frame, read off its ["type"] member. *)
Inductive kind : Type := KGraph | KMetadata | KText | KError | KEnd | KOther.

Definition kind_of (f : frame) : kind :=
  match f with
  | End_ => KEnd
  | Data (JObj kvs) =>
      match assoc "type" kvs with
      | Some (JStr t) =>
          if String.eqb t "graph" then KGraph
          else if String.eqb t "metadata" then KMetadata
          else if String.eqb t "text" then KText
          else if String.eqb t "error" then KError
          else KOther
      | _ => KOther
      end
  | Data _ => KOther
  end.

(** The error frame as the interface describes it:
    [{type: "error", message: string}]. *)
Definition described_error_frame (f : frame) : bool :=
  match f with
  | Data (JObj kvs) =>
      match assoc "type" kvs, assoc "message" kvs with
      | Some (JStr t), Some (JStr _) => String.eqb t "error"
      | _, _ => false
      end
  | _ => false
  end.

(** The error frame as the [except] clause writes it. *)
Definition is_error_frame (f : frame) : bool :=
  match f with
  | Data (JObj [ (k, JStr _) ]) => String.eqb k "error"
  | _ => false
  end.

End Stream.

(* ================================================================== *)
(** * graph_pipe.py: the uploader *)
(* ================================================================== *)

Module Uploader.
Import Py.

(** [range(0, n, step)] for a positive [step]. *)
Definition range_step (n step : nat) : list nat :=
  map (fun k => k * step) (seq 0 ((n + step - 1) / step)).

(** [l[i:j]] for [0 <= i <= j]. *)
Definition slice {A : Type} (l : list A) (i j : nat) : list A :=
  firstn (j - i) (skipn i l).

(** Lines 35-36: the batches [upload_data] cuts the records into. A
    step of zero makes [range] raise [ValueError] ([None]); a negative
    step gives an empty range. *)
Definition batches {A : Type} (records : list A) (batch_size : Z)
  : option (list (list A)) :=
  if (batch_size =? 0)%Z then None
  else if (batch_size <? 0)%Z then Some []
  else
    let bs := Z.to_nat batch_size in
    Some (map (fun i => slice records i (i + bs))
              (range_step (List.length records) bs)).

(** Lines 35-41: every batch is written inside its own [try]; the
    result lists what each write did. *)
Definition upload_data {A : Type} (execute_write : list A -> result unit)
           (records : list A) (batch_size : Z) : option (list (result unit)) :=
  option_map (map execute_write) (batches records batch_size).

Definition obind {A B : Type} (m : option A) (k : A -> option B) : option B :=
  match m with
  | Some a => k a
  | None => None
  end.

Local Notation "x <-? m ;; k" := (obind m (fun x => k))
  (at level 61, m at next level, right associativity).

(** A loop whose body can raise, collecting what each turn produces. *)
Fixpoint map_opt {A B : Type} (f : A -> option B) (l : list A) : option (list B) :=
  match l with
  | [] => Some []
  | x :: l' =>
      y <-? f x ;;
      ys <-? map_opt f l' ;;
      Some (y :: ys)
  end.

(** A sanitised type is ASCII; this reads it back as a string. *)
Definition unpy (s : Sanitize.pystr) : string :=
  string_of_list_ascii (map ascii_of_N s).

(** One relationship statement handed to [tx.run] (lines 115-120): the
    value spliced into the relationship type and the two parameters. *)
Record merge : Type := mkMerge {
  m_type : json;
  sname : json;
  tname : json
}.

Definition empty_fragment : json :=
  JObj [ ("entities", JList []); ("relationships", JList []) ].

Section Batch.
Variable unicode_upper : N -> list N.
Variable json_loads : string -> option json.
Variable json_dumps : json -> string.

(** [_sanitize_rel_type(t)] on an arbitrary value: a falsy value gives
    the default, a non-empty string is sanitised, anything else has no
    [upper] method. *)
Definition sanitize_value (t : json) : option string :=
  if truthy t then
    match t with
    | JStr s =>
        Some (unpy (Sanitize._sanitize_rel_type unicode_upper (Some (Sanitize.py s))))
    | _ => None
    end
  else Some (unpy (Sanitize._sanitize_rel_type unicode_upper None)).

(** Lines 70 and 71: [json.loads(v) if isinstance(v, str) else (v or {})];
    a text that does not parse raises. *)
Definition load_or_empty (v : json) : option json :=
  match v with
  | JStr s => json_loads s
  | _ => Some (if truthy v then v else JObj [])
  end.

(** Line 75 for one relationship: [rel["type"] = sanitize(rel.get("type", "RELATED_TO"))]. *)
Definition sanitize_rel (rel : json) : option json :=
  match rel with
  | JObj kvs =>
      let t := match assoc "type" kvs with
               | Some v => v
               | None => JStr "RELATED_TO"
               end in
      ty <-? sanitize_value t ;;
      Some (JObj (dict_set String.eqb "type" (JStr ty) kvs))
  | _ => None
  end.

(** Lines 72-75: a fragment that is not a dict is replaced; the
    relationships of a dict are sanitised in place. Iterating a
    non-empty dict or string gives strings, which have no [get]. *)
Definition sanitize_fragment (gd0 : json) : option json :=
  match gd0 with
  | JObj kvs =>
      match assoc "relationships" kvs with
      | None => Some gd0
      | Some (JList rels) =>
          rels' <-? map_opt sanitize_rel rels ;;
          Some (JObj (dict_set String.eqb "relationships" (JList rels') kvs))
      | Some (JObj []) => Some gd0
      | Some (JStr s) => if String.eqb s EmptyString then Some gd0 else None
      | Some _ => None
      end
  | _ => Some empty_fragment
  end.

(** Lines 69-77 for one record. *)
Definition preprocess (r : Store.row) : option Store.row :=
  md0 <-? assoc "metadata" r ;;
  md <-? load_or_empty md0 ;;
  g0 <-? assoc "graph_data" r ;;
  g1 <-? load_or_empty g0 ;;
  gd <-? sanitize_fragment g1 ;;
  Some (dict_set String.eqb "graph_data" gd
          (dict_set String.eqb "graph_data_raw" (JStr (json_dumps gd))
             (dict_set String.eqb "metadata" md r))).

(** Lines 112-120 for one relationship: it is skipped unless source,
    target and type are all truthy. *)
Definition rel_statement (rel : json) : option (list merge) :=
  match rel with
  | JObj kvs =>
      let get k := match assoc k kvs with Some v => v | None => JNull end in
      if truthy (get "source") && truthy (get "target") && truthy (get "type")
      then Some [ mkMerge (get "type") (get "source") (get "target") ]
      else Some []
  | _ => None
  end.

(** Lines 110-120 for one record. *)
Definition rel_statements (r : Store.row) : option (list merge) :=
  gd <-? assoc "graph_data" r ;;
  match gd with
  | JObj kvs =>
      let rels := match assoc "relationships" kvs with
                  | Some v => v
                  | None => JList []
                  end in
      match iter rels with
      | OK l => ss <-? map_opt rel_statement l ;; Some (List.concat ss)
      | Raise _ => None
      end
  | _ => None
  end.

(** [_upload_batch]: the relationship statements it hands to [tx.run],
    in order, when nothing raises. *)
Definition _upload_batch (records : list Store.row) : option (list merge) :=
  recs <-? map_opt preprocess records ;;
  ss <-? map_opt rel_statements recs ;;
  Some (List.concat ss).

End Batch.

End Uploader.

(* ================================================================== *)
(** * spark_processor.py: graph extraction and embedding *)
(* ================================================================== *)

Module Spark.
Import Py.

Definition open_brace : ascii := "{"%char.
Definition close_brace : ascii := "}"%char.

(** The suffix that starts at the first opening brace. *)
Fixpoint from_first_open (s : string) : option string :=
  match s with
  | EmptyString => None
  | String c r =>
      if Ascii.eqb c open_brace then Some s else from_first_open r
  end.

(** The longest prefix that ends with a closing brace. *)
Fixpoint upto_last_close (s : string) : option string :=
  match s with
  | EmptyString => None
  | String c r =>
      match upto_last_close r with
      | Some p => Some (String c p)
      | None => if Ascii.eqb c close_brace then Some (String c EmptyString) else None
      end
  end.

(** [re.search(r"\{.*\}", s, re.S)]: the leftmost match starts at the
    first opening brace and, the star being greedy and the dot matching
    newlines, runs to the last closing brace after it. *)
Definition _extract_json_block (s : string) : option string :=
  match from_first_open s with
  | Some (String c r) =>
      match upto_last_close r with
      | Some p => Some (String c p)
      | None => None
      end
  | _ => None
  end.




Definition empty_graph : json :=
  JObj [ ("entities", JList []); ("relationships", JList []) ].

Section Extract.
Variable json_loads : string -> loaded.
(** [GRAPH_PROMPT.format(text=snippet)]: the template is a literal
    whose only field is [text], so the call returns. *)
Variable graph_prompt : string -> string.
(** The two model calls with the default retries, as functions of the
    prompt. What they return need not be a string: [_call_ollama]
    returns the member [response] of the reply as it is. *)
Variable call_ollama : string -> json.
Variable call_openrouter : string -> json.

(** Lines 139-144. *)
Definition model_output (provider prompt : string) : json :=
  if String.eqb provider "ollama" then call_ollama prompt
  else if String.eqb provider "openrouter" then call_openrouter prompt
  else JStr EmptyString.

(** Line 146: [_extract_json_block(raw) if raw else None]; the search
    is outside the [try] and raises [TypeError] on a value that is not
    a string. *)
Definition block_of (raw : json) : result (option string) :=
  if truthy raw then
    match raw with
    | JStr s => OK (_extract_json_block s)
    | _ => Raise TypeError
    end
  else OK None.

(** [extract_graph_data]; line 151 catches every exception of
    [json.loads]. *)
Definition extract_graph_data (provider : string) (text : string) : result json :=
  let snippet := substring 0 3000 text in
  let prompt := graph_prompt snippet in
  let raw := model_output provider prompt in
  block <- block_of raw ;;
  match block with
  | None => OK empty_graph
  | Some b =>
      if String.eqb b EmptyString then OK empty_graph
      else match json_loads b with
           | Parsed v => OK v
           | JSONDecodeError => OK empty_graph
           | OtherException _ => OK empty_graph
           end
  end.

End Extract.

(** [results[idx] = x] for an index in range. *)
Fixpoint set_nth {A : Type} (idx : nat) (x : A) (l : list A) : list A :=
  match l, idx with
  | [], _ => []
  | _ :: l', O => x :: l'
  | y :: l', S i => y :: set_nth i x l'
  end.

Section Embed.
Variable E : Type.
(** [embedder.embed_query] *)
Variable embed_query : string -> result (list E).

(** Lines 165-169: the slot of a finished future. *)
Definition slot_value (chunk : string) : list E :=
  match embed_query chunk with
  | OK v => v
  | Raise _ => []
  end.


End Embed.

End Spark.

(* ================================================================== *)
(** * arxiv_retriever.py: the name of a downloaded file *)
(* ================================================================== *)

Module Arxiv.

(** [arxiv_id.replace('/', '_')] *)
Fixpoint safe_arxiv_id (arxiv_id : string) : string :=
  match arxiv_id with
  | EmptyString => EmptyString
  | String c r =>
      String (if Ascii.eqb c "/"%char then "_"%char else c) (safe_arxiv_id r)
  end.

End Arxiv.

(* ================================================================== *)
(** * Properties: relationship-type sanitisation *)
(* ================================================================== *)

Module SanitizeFacts.
Import Sanitize.

Definition no_lower (s : pystr) : Prop := Forall (fun c => is_lower c = false) s.
Definition token (s : pystr) : Prop := Forall (fun c => token_char c = true) s.

(** The one fact about the Unicode table that is used: upper-casing a
    code point above ASCII never produces an ASCII lower-case letter. *)
Definition upper_table_ok (unicode_upper : N -> list N) : Prop :=
  forall c, (128 <= c)%N -> no_lower (unicode_upper c).

Example sanitize_uses_method :
  _sanitize_rel_type (fun c => [c]) (Some (py "uses method (v2)!"))
  = py "USES_METHOD_V2_".
Proof. reflexivity. Qed.

Example sanitize_keeps_clean_token :
  _sanitize_rel_type (fun c => [c]) (Some (py "EVALUATED_ON"))
  = py "EVALUATED_ON".
Proof. reflexivity. Qed.

(** Sharp s (223) becomes "SS". *)
Example sanitize_sharp_s :
  _sanitize_rel_type (fun c => if (c =? 223)%N then [83; 83]%N else [c])
                     (Some [103; 114; 111; 223; 101]%N)
  = py "GROSSE".
Proof. reflexivity. Qed.

Lemma upper_char_no_lower U c :
  upper_table_ok U -> no_lower (upper_char U c).
Proof.
  intros HU. unfold upper_char.
  destruct (N.ltb_spec c 128) as [Hlt | Hge].
  - destruct (is_lower c) eqn:Hl.
    + constructor; [| constructor].
      unfold is_lower in *. apply andb_true_iff in Hl as [H1 H2].
      apply N.leb_le in H1. apply N.leb_le in H2.
      apply andb_false_iff. left. apply N.leb_gt. lia.
    + constructor; [assumption | constructor].
  - apply HU. assumption.
Qed.

Lemma upper_no_lower U s :
  upper_table_ok U -> no_lower (upper U s).
Proof.
  intros HU. unfold upper, no_lower.
  induction s as [| c s IH]; simpl.
  - constructor.
  - apply Forall_app. split; [apply upper_char_no_lower; assumption | exact IH].
Qed.

Lemma word_not_lower_is_token c :
  word_char c = true -> is_lower c = false -> token_char c = true.
Proof.
  unfold word_char, token_char. intros Hw Hl. rewrite Hl in Hw.
  destruct (is_upper c), (is_digit c), (is_underscore c); simpl in *; congruence.
Qed.

Lemma re_sub_token s :
  no_lower s -> forall in_run, token (re_sub in_run s).
Proof.
  induction 1 as [| c s Hc Hs IH]; intros in_run; simpl.
  - constructor.
  - destruct (word_char c) eqn:Hw.
    + constructor; [apply word_not_lower_is_token; assumption | apply IH].
    + destruct in_run.
      * apply IH.
      * constructor; [reflexivity | apply IH].
Qed.

(** C7. For every input string, and for a missing one,
    [_sanitize_rel_type] returns a token made only of upper-case
    letters, digits and underscores; an empty or missing input gives
    the fixed token RELATED_TO. *)
Theorem sanitize_rel_type_token (U : N -> list N) (HU : upper_table_ok U) :
  (forall t : option pystr, token (_sanitize_rel_type U t))
  /\ _sanitize_rel_type U None = py "RELATED_TO"
  /\ _sanitize_rel_type U (Some []) = py "RELATED_TO".
Proof.
  split; [| split; reflexivity].
  intros t. unfold _sanitize_rel_type.
  apply re_sub_token. apply upper_no_lower. exact HU.
Qed.

Lemma identity_table_ok : upper_table_ok (fun c => [c]).
Proof.
  intros c Hc. constructor; [| constructor].
  unfold is_lower. apply andb_false_iff. right. apply N.leb_gt. lia.
Qed.

Lemma sanitize_rel_type_token_witness :
  upper_table_ok (fun c => [c])
  /\ token (_sanitize_rel_type (fun c => [c]) (Some (py "uses method (v2)!")))
  /\ _sanitize_rel_type (fun c => [c]) None = py "RELATED_TO".
Proof.
  split; [exact identity_table_ok |].
  destruct (sanitize_rel_type_token identity_table_ok) as [Htok [Hnone _]].
  split; [apply Htok | exact Hnone].
Defined.

End SanitizeFacts.

(* ================================================================== *)
(** * Properties: graph expansion *)
(* ================================================================== *)

Module StoreFacts.
Import Py Store.

(** A small store: two papers with one chunk each, and one entity
    that both chunks mention. *)
Definition paper1 : node :=
  mkNode 1 Paper [("id", JStr "p1"); ("title", JStr "Attention")].
Definition paper2 : node :=
  mkNode 2 Paper [("id", JStr "p2"); ("title", JStr "Transformers");
                  ("pdf_url", JStr "http://x/p2.pdf")].
Definition chunk1 : node :=
  mkNode 3 Chunk [("id", JStr "p1_chunk_0"); ("text", JStr "first")].
Definition chunk2 : node :=
  mkNode 4 Chunk [("id", JStr "p2_chunk_0"); ("text", JStr "second");
                  ("graph_data", JStr "{}")].
Definition entity1 : node := mkNode 5 Entity [("name", JStr "Attention")].

Definition fixture : graphdb :=
  mkDb [paper1; paper2; chunk1; chunk2; entity1]
       [ mkRel 10 HAS_CHUNK 1 3; mkRel 11 HAS_CHUNK 2 4;
         mkRel 12 MENTIONS 3 5; mkRel 13 MENTIONS 4 5 ].

Example expansion_depth0_fixture :
  graph_expansion fixture ["p1_chunk_0"; "missing"; "p1_chunk_0"] 0
  = [ mk_row paper1 chunk1 ].
Proof. reflexivity. Qed.

(** With two hops the chunk of the other paper is reached through the
    shared entity. *)
Example expansion_depth2_fixture :
  graph_expansion fixture ["p1_chunk_0"] 2 = [ mk_row paper2 chunk2 ].
Proof. reflexivity. Qed.

(** Node identities are unique in a store. *)
Definition unique_ids (g : graphdb) : Prop := NoDup (map nid (nodes g)).

Lemma unique_ids_inj g a b :
  unique_ids g -> In a (nodes g) -> In b (nodes g) -> nid a = nid b -> a = b.
Proof.
  unfold unique_ids. induction (nodes g) as [| n l IH]; simpl; intros Hnd Ha Hb Heq.
  - contradiction.
  - inversion Hnd as [| ? ? Hnotin Hnd']; subst.
    destruct Ha as [Ha | Ha], Hb as [Hb | Hb]; subst.
    + reflexivity.
    + exfalso. apply Hnotin. rewrite Heq. apply in_map. assumption.
    + exfalso. apply Hnotin. rewrite <- Heq. apply in_map. assumption.
    + apply IH; assumption.
Qed.

Lemma trails_depth0 g used cur : trails g 0 used cur = [].
Proof. reflexivity. Qed.

Lemma allc_depth0 g c : allc g 0 c = [c].
Proof. reflexivity. Qed.

Lemma distinct_nodes_sound l : forall seen_ids c,
  In c (distinct_nodes seen_ids l) -> In c l.
Proof.
  induction l as [| n l IH]; simpl; intros seen_ids c H.
  - contradiction.
  - destruct (existsb (Nat.eqb (nid n)) seen_ids).
    + right. eapply IH. eassumption.
    + destruct H as [H | H]; [left; assumption | right; eapply IH; eassumption].
Qed.

Lemma distinct_nodes_complete l :
  (forall a b, In a l -> In b l -> nid a = nid b -> a = b) ->
  forall seen_ids c,
    In c l -> ~ In (nid c) seen_ids -> In c (distinct_nodes seen_ids l).
Proof.
  induction l as [| n l IH]; simpl; intros Hinj seen_ids c Hc Hfresh.
  - contradiction.
  - assert (Hinj' : forall a b, In a l -> In b l -> nid a = nid b -> a = b)
      by (intros a b Ha Hb; apply Hinj; right; assumption).
    destruct (existsb (Nat.eqb (nid n)) seen_ids) eqn:Hex.
    + destruct Hc as [Hc | Hc].
      * subst. exfalso. apply Hfresh.
        apply existsb_exists in Hex as [x [Hx Hxe]].
        apply Nat.eqb_eq in Hxe. rewrite Hxe. assumption.
      * apply IH; assumption.
    + destruct Hc as [Hc | Hc]; [left; assumption |].
      destruct (Nat.eq_dec (nid n) (nid c)) as [Heq | Hne].
      * left. apply Hinj; [left; reflexivity | right; assumption | assumption].
      * right. apply IH; try assumption.
        simpl. intros [H | H]; [apply Hne; assumption | apply Hfresh; assumption].
Qed.

Lemma seeds_spec g ids c :
  unique_ids g ->
  (In c (seeds g ids) <->
   exists cid, In cid ids /\ In c (nodes g) /\ is_chunk_with_id cid c = true).
Proof.
  intros Hu. unfold seeds. split.
  - intros H. apply distinct_nodes_sound in H.
    apply in_flat_map in H as [cid [Hcid Hc]].
    apply filter_In in Hc as [Hin Hm]. exists cid. auto.
  - intros [cid [Hcid [Hin Hm]]].
    apply distinct_nodes_complete.
    + intros a b Ha Hb. apply in_flat_map in Ha as [x [_ Ha]].
      apply in_flat_map in Hb as [y [_ Hb]].
      apply filter_In in Ha as [Ha _]. apply filter_In in Hb as [Hb _].
      apply unique_ids_inj with (g := g); assumption.
    + apply in_flat_map. exists cid. split; [assumption |].
      apply filter_In. auto.
    + simpl. tauto.
Qed.

Lemma graph_expansion_depth0_eq g ids :
  graph_expansion g ids 0
  = nodup row_eq_dec
      (flat_map (fun c => map (fun p => mk_row p c) (owners g c)) (seeds g ids)).
Proof.
  unfold graph_expansion. f_equal.
  apply flat_map_ext. intros c. rewrite allc_depth0. simpl. apply app_nil_r.
Qed.

(** C3. With depth 0 the expansion returns exactly the seed chunks,
    each paired with every paper that owns it: a row is returned if
    and only if it is the row of a chunk whose id is among the seed
    ids and of a paper that has that chunk; and no row is returned
    twice. *)
Theorem graph_expansion_depth0 (g : graphdb) (ids : list string) (Hu : unique_ids g) :
  (forall r : row,
      In r (graph_expansion g ids 0) <->
      exists cid c p,
        In cid ids /\ In c (nodes g) /\ is_chunk_with_id cid c = true
        /\ In p (owners g c) /\ r = mk_row p c)
  /\ NoDup (graph_expansion g ids 0).
Proof.
  split.
  - intros r. rewrite graph_expansion_depth0_eq, nodup_In, in_flat_map. split.
    + intros [c [Hc Hr]]. apply in_map_iff in Hr as [p [Hr Hp]].
      apply (seeds_spec ids c Hu) in Hc as [cid [Hcid [Hin Hm]]].
      exists cid, c, p. auto.
    + intros [cid [c [p [Hcid [Hin [Hm [Hp Hr]]]]]]].
      exists c. split.
      * apply (seeds_spec ids c Hu). exists cid. auto.
      * apply in_map_iff. exists p. auto.
  - apply NoDup_nodup.
Qed.

Lemma graph_expansion_depth0_witness :
  unique_ids fixture
  /\ In (mk_row paper1 chunk1) (graph_expansion fixture ["p1_chunk_0"] 0)
  /\ NoDup (graph_expansion fixture ["p1_chunk_0"] 0).
Proof.
  assert (Hu : unique_ids fixture).
  { unfold unique_ids. simpl.
    repeat (constructor; [simpl; intuition discriminate |]). constructor. }
  split; [exact Hu |].
  destruct (@graph_expansion_depth0 fixture ["p1_chunk_0"] Hu) as [Hiff Hnd].
  split; [| exact Hnd].
  apply Hiff. exists "p1_chunk_0", chunk1, paper1.
  simpl. repeat split; auto.
Defined.

End StoreFacts.

(* ================================================================== *)
(** * Properties: the generation client *)
(* ================================================================== *)

Module LlmFacts.
Import Py Llm.

(** The template uses only the three fields [query_llm] passes. *)
Definition known_field (n : string) : bool :=
  String.eqb n "context" || String.eqb n "query" || String.eqb n "CURRENT_DATE_TIME".

Definition template_ok (t : template) : Prop :=
  forall n, In (Field n) t -> known_field n = true.

Definition kwargs (c : config) (context query : string) : list (string * string) :=
  [ ("context", context); ("query", query);
    ("CURRENT_DATE_TIME", CURRENT_DATE_TIME c) ].

Lemma known_field_bound c context query n :
  known_field n = true -> exists v, assoc n (kwargs c context query) = Some v.
Proof.
  unfold known_field, kwargs. simpl. intros H.
  destruct (String.eqb n "context"); [eauto |].
  destruct (String.eqb n "query"); [eauto |].
  destruct (String.eqb n "CURRENT_DATE_TIME"); [eauto | discriminate].
Qed.

Lemma format_known_field n t kw :
  known_field n = true ->
  format (Field n :: t) kw
  = match assoc n kw with
    | Some v => rest <- format t kw ;; OK (v ++ rest)%string
    | None => Raise KeyError
    end.
Proof.
  unfold known_field. intros H.
  apply orb_true_iff in H as [H | H]; [apply orb_true_iff in H as [H | H] |];
    apply String.eqb_eq in H; rewrite H; reflexivity.
Qed.

Lemma format_total c context query t :
  template_ok t -> exists prompt, format t (kwargs c context query) = OK prompt.
Proof.
  induction t as [| p t IH]; intros Hok.
  - exists EmptyString. reflexivity.
  - assert (Hok' : template_ok t) by (intros n Hn; apply Hok; right; assumption).
    destruct (IH Hok') as [rest Hrest].
    destruct p as [s | n].
    + cbn [format]. rewrite Hrest. simpl. eauto.
    + assert (Hk : known_field n = true) by (apply Hok; left; reflexivity).
      destruct (@known_field_bound c context query n Hk) as [v Hv].
      rewrite (@format_known_field n t _ Hk), Hv, Hrest. simpl. eauto.
Qed.

Definition unknown_provider (c : config) : Prop :=
  String.eqb (LLM_PROVIDER c) "ollama" = false
  /\ String.eqb (LLM_PROVIDER c) "openrouter" = false.

Definition hosted_without_key (c : config) : Prop :=
  LLM_PROVIDER c = "openrouter" /\ OPENROUTER_API_KEY c = EmptyString.

Lemma query_llm_unknown c b context query stream :
  template_ok (RAG_PROMPT c) -> unknown_provider c ->
  query_llm c b context query stream = OK (Text "Error: invalid LLM_PROVIDER.").
Proof.
  intros Hok [H1 H2]. unfold query_llm.
  destruct (@format_total c context query _ Hok) as [prompt Hp].
  unfold kwargs in Hp. rewrite Hp. simpl. rewrite H1, H2. reflexivity.
Qed.

Lemma query_llm_no_key c b context query stream :
  template_ok (RAG_PROMPT c) -> hosted_without_key c ->
  query_llm c b context query stream = OK (Text "Error: OPENROUTER_API_KEY not set.").
Proof.
  intros Hok [H1 H2]. unfold query_llm.
  destruct (@format_total c context query _ Hok) as [prompt Hp].
  unfold kwargs in Hp. rewrite Hp. simpl.
  unfold _openrouter_complete. rewrite H1, H2. reflexivity.
Qed.

(** A template with a field of its own makes the call raise before
    the provider is looked at. *)
Example format_unknown_field_raises b :
  query_llm (mkConfig "nope" EmptyString [Lit "Q: "; Field "question"] "now")
            b "ctx" "q" true
  = Raise KeyError.
Proof. reflexivity. Qed.

(** A configuration for the examples: a well-formed template, a
    provider that does not exist. *)
Definition sample_template : template :=
  [ Lit "Date: "; Field "CURRENT_DATE_TIME"; Lit " Context: "; Field "context";
    Lit " Question: "; Field "query" ].

Lemma sample_template_ok : template_ok sample_template.
Proof.
  intros n Hn. unfold sample_template in Hn. simpl in Hn.
  repeat (destruct Hn as [Hn | Hn]; [inversion Hn; subst; reflexivity || discriminate |]).
  contradiction.
Qed.

Definition no_services : backends :=
  mkBackends (fun _ => Raise ProviderError) (fun _ => ([], Some ProviderError))
             (fun _ => Raise ProviderError) (fun _ => Raise ProviderError).

Definition cfg_unknown : config := mkConfig "gpt" EmptyString sample_template "2024-01-01".
Definition cfg_no_key : config := mkConfig "openrouter" EmptyString sample_template "2024-01-01".

(** C8. With a prompt template that formats, [query_llm] returns the
    string "Error: invalid LLM_PROVIDER." when the provider is
    neither "ollama" nor "openrouter", and the string
    "Error: OPENROUTER_API_KEY not set." when the provider is
    "openrouter" and the key is empty; in both cases it returns and
    does not raise, streaming or not. *)
Theorem query_llm_error_strings (c : config) (b : backends)
        (context query : string) (stream : bool)
        (Hok : template_ok (RAG_PROMPT c)) :
  (unknown_provider c ->
   query_llm c b context query stream = OK (Text "Error: invalid LLM_PROVIDER."))
  /\ (hosted_without_key c ->
      query_llm c b context query stream = OK (Text "Error: OPENROUTER_API_KEY not set.")).
Proof.
  split; intros H.
  - apply query_llm_unknown; assumption.
  - apply query_llm_no_key; assumption.
Qed.

Lemma query_llm_error_strings_witness :
  template_ok (RAG_PROMPT cfg_unknown)
  /\ unknown_provider cfg_unknown
  /\ hosted_without_key cfg_no_key
  /\ query_llm cfg_unknown no_services "ctx" "q" true
     = OK (Text "Error: invalid LLM_PROVIDER.")
  /\ query_llm cfg_no_key no_services "ctx" "q" false
     = OK (Text "Error: OPENROUTER_API_KEY not set.").
Proof.
  split; [exact sample_template_ok |].
  split; [split; reflexivity |].
  split; [split; reflexivity |].
  split.
  - apply (@query_llm_error_strings cfg_unknown no_services "ctx" "q" true sample_template_ok).
    split; reflexivity.
  - apply (@query_llm_error_strings cfg_no_key no_services "ctx" "q" false sample_template_ok).
    split; reflexivity.
Defined.

End LlmFacts.

(* ================================================================== *)
(** * Properties: dicts *)
(* ================================================================== *)

Module DictFacts.
Import Py.

Section WithKey.
Variables K V : Type.
Variable eqb : K -> K -> bool.
Hypothesis eqb_spec : forall a b, eqb a b = true <-> a = b.

Lemma eqb_refl k : eqb k k = true.
Proof. apply eqb_spec. reflexivity. Qed.

Lemma dict_set_keys_in k (v : V) d x :
  In x (dict_keys (dict_set eqb k v d)) -> x = k \/ In x (dict_keys d).
Proof.
  unfold dict_keys. induction d as [| [k' v'] d IH]; simpl.
  - intros [H | []]. left. symmetry. assumption.
  - destruct (eqb k k'); simpl.
    + intros H. right. assumption.
    + intros [H | H]; [right; left; assumption |].
      destruct (IH H) as [H' | H']; [left | right; right]; assumption.
Qed.

Lemma dict_set_keys_nodup k (v : V) d :
  NoDup (dict_keys d) -> NoDup (dict_keys (dict_set eqb k v d)).
Proof.
  unfold dict_keys. induction d as [| [k' v'] d IH]; simpl; intros Hnd.
  - constructor; [intros [] | constructor].
  - inversion Hnd as [| ? ? Hnotin Hnd']; subst.
    destruct (eqb k k') eqn:Hk; simpl.
    + constructor; assumption.
    + constructor; [| apply IH; assumption].
      intros Hin. apply dict_set_keys_in in Hin as [Hin | Hin].
      * subst. rewrite eqb_refl in Hk. discriminate.
      * apply Hnotin. assumption.
Qed.

Lemma dict_set_idempotent k (v : V) d :
  dict_set eqb k v (dict_set eqb k v d) = dict_set eqb k v d.
Proof.
  induction d as [| [k' v'] d IH]; simpl.
  - rewrite eqb_refl. reflexivity.
  - destruct (eqb k k') eqn:Hk; simpl; rewrite Hk.
    + reflexivity.
    + rewrite IH. reflexivity.
Qed.

Lemma dict_set_last_wins k (v1 v2 : V) d :
  dict_set eqb k v2 (dict_set eqb k v1 d) = dict_set eqb k v2 d.
Proof.
  induction d as [| [k' v'] d IH]; simpl.
  - rewrite eqb_refl. reflexivity.
  - destruct (eqb k k') eqn:Hk; simpl; rewrite Hk.
    + reflexivity.
    + rewrite IH. reflexivity.
Qed.

Lemma dict_get_set k (v : V) d :
  dict_get eqb k (dict_set eqb k v d) = Some v.
Proof.
  induction d as [| [k' v'] d IH]; simpl.
  - rewrite eqb_refl. reflexivity.
  - destruct (eqb k k') eqn:Hk; simpl; rewrite Hk; [reflexivity | exact IH].
Qed.

Lemma dict_get_set_ne k k' (v : V) d :
  eqb k' k = false ->
  dict_get eqb k' (dict_set eqb k v d) = dict_get eqb k' d.
Proof.
  intros Hne. induction d as [| [k0 v0] d IH]; simpl.
  - rewrite Hne. reflexivity.
  - destruct (eqb k k0) eqn:Hk; simpl.
    + apply eqb_spec in Hk. subst k0. rewrite Hne. reflexivity.
    + rewrite IH. reflexivity.
Qed.

(** The entries of a dict under one key. *)
Definition entries_under (k : K) (d : list (K * V)) : list (K * V) :=
  filter (fun kv => eqb k (fst kv)) d.

Lemma entries_under_absent k d :
  ~ In k (dict_keys d) -> entries_under k d = [].
Proof.
  unfold dict_keys, entries_under. induction d as [| [k0 v0] d IH]; simpl; intros Hn.
  - reflexivity.
  - destruct (eqb k k0) eqn:Hk.
    + apply eqb_spec in Hk. exfalso. apply Hn. left. symmetry. exact Hk.
    + apply IH. intros Hin. apply Hn. right. exact Hin.
Qed.

(** After [d[k] = v] on a dict without a repeated key, the dict has
    exactly one entry under [k], and it holds [v]. *)
Lemma dict_set_single k (v : V) d :
  NoDup (dict_keys d) -> entries_under k (dict_set eqb k v d) = [(k, v)].
Proof.
  unfold entries_under.
  induction d as [| [k0 v0] d IH]; simpl; intros Hnd.
  - rewrite eqb_refl. reflexivity.
  - inversion Hnd as [| ? ? Hnotin Hnd']; subst.
    destruct (eqb k k0) eqn:Hk; simpl; rewrite Hk.
    + apply eqb_spec in Hk. subst k0. f_equal.
      apply entries_under_absent. exact Hnotin.
    + apply IH. exact Hnd'.
Qed.

(** The values of a dict whose every value records its key. *)
Lemma dict_set_keyed (key_of : V -> K) k v d :
  key_of v = k ->
  Forall (fun kv => key_of (snd kv) = fst kv) d ->
  Forall (fun kv => key_of (snd kv) = fst kv) (dict_set eqb k v d).
Proof.
  intros Hv. induction 1 as [| [k' v'] d Hh Ht IH]; simpl.
  - constructor; [exact Hv | constructor].
  - destruct (eqb k k') eqn:Hk.
    + constructor; [| assumption]. simpl. apply eqb_spec in Hk. congruence.
    + constructor; assumption.
Qed.

Lemma keyed_values (key_of : V -> K) d :
  Forall (fun kv => key_of (snd kv) = fst kv) d ->
  map key_of (dict_values d) = dict_keys d.
Proof.
  unfold dict_values, dict_keys. induction 1 as [| [k v] d Hh Ht IH]; simpl.
  - reflexivity.
  - simpl in Hh. rewrite Hh, IH. reflexivity.
Qed.
End WithKey.

End DictFacts.

(* ================================================================== *)
(** * Properties: the context assembler *)
(* ================================================================== *)

Module AssemblerFacts.
Import Py Assembler.

Lemma bind_ok {A B : Type} (m : result A) (k : A -> result B) (b : B) :
  bind m k = OK b -> exists a, m = OK a /\ k a = OK b.
Proof. destruct m as [a | e]; simpl; intros H; [eauto | discriminate]. Qed.

Ltac inv_bind H :=
  let a := fresh "x" in
  let E := fresh "E" in
  apply bind_ok in H as [a [E H]].

(** Distinct elements of a list of texts, first occurrence kept,
    given the texts already seen. *)
Fixpoint firsts (seen : list string) (l : list string) : list string :=
  match l with
  | [] => []
  | t :: l' =>
      if existsb (String.eqb t) seen then firsts seen l'
      else t :: firsts (t :: seen) l'
  end.

Lemma existsb_eqb_In t l : existsb (String.eqb t) l = true <-> In t l.
Proof.
  rewrite existsb_exists. split.
  - intros [x [Hx He]]. apply String.eqb_eq in He. subst. assumption.
  - intros H. exists t. split; [assumption | apply String.eqb_refl].
Qed.

Lemma firsts_fresh l : forall seen t, In t (firsts seen l) -> ~ In t seen.
Proof.
  induction l as [| x l IH]; simpl; intros seen t H.
  - contradiction.
  - destruct (existsb (String.eqb x) seen) eqn:Hx.
    + apply IH. assumption.
    + destruct H as [H | H].
      * subst. intros Hin. apply existsb_eqb_In in Hin. congruence.
      * intros Hin. apply (IH _ _ H). right. assumption.
Qed.

Lemma firsts_NoDup l : forall seen, NoDup (firsts seen l).
Proof.
  induction l as [| x l IH]; simpl; intros seen.
  - constructor.
  - destruct (existsb (String.eqb x) seen).
    + apply IH.
    + constructor; [| apply IH].
      intros Hin. apply firsts_fresh in Hin. apply Hin. left. reflexivity.
Qed.

Lemma firsts_In l : forall seen t,
  In t (firsts seen l) <-> In t l /\ ~ In t seen.
Proof.
  induction l as [| x l IH]; simpl; intros seen t.
  - tauto.
  - destruct (existsb (String.eqb x) seen) eqn:Hx.
    + rewrite IH. apply existsb_eqb_In in Hx. split.
      * tauto.
      * intros [[H | H] Hn]; [subst; contradiction | tauto].
    + assert (Hnx : ~ In x seen)
        by (intros Hin; apply existsb_eqb_In in Hin; congruence).
      simpl. rewrite IH. simpl. split.
      * intros [H | [H1 H2]]; [subst; tauto | tauto].
      * intros [[H | H] Hn]; [left; assumption |].
        destruct (string_dec x t); [left; assumption | right; tauto].
Qed.

Definition text_of (s : Source) : string := chunk_text s.
Definition block_of (s : Source) : string := block (paper_title s) (chunk_text s).
Arguments block_of : simpl never.
Arguments block : simpl never.

Definition concat_blocks (l : list Source) : string :=
  fold_right (fun s acc => (block_of s ++ acc)%string) EmptyString l.

Lemma append_assoc (a b c : string) : ((a ++ b) ++ c = a ++ (b ++ c))%string.
Proof. induction a as [| x a IH]; simpl; [reflexivity | rewrite IH; reflexivity]. Qed.

Lemma append_empty_r (a : string) : (a ++ EmptyString)%string = a.
Proof. induction a as [| x a IH]; simpl; [reflexivity | rewrite IH; reflexivity]. Qed.

(** A string field of a row. *)
Definition str_field (r : Store.row) (k : string) : option string :=
  match assoc k r with
  | Some (JStr s) => Some s
  | _ => None
  end.

(** The source record of a row whose four fields are strings. *)
Definition source_of_row (r : Store.row) : option Source :=
  match str_field r "paper_id", str_field r "paper_title",
        str_field r "pdf_url", str_field r "chunk_text" with
  | Some a, Some b, Some c, Some d => Some (mkSource a b c d)
  | _, _, _, _ => None
  end.

(** The rows that bring a text for the first time. *)
Fixpoint first_rows (seen : list string) (rows : list Store.row) : list Store.row :=
  match rows with
  | [] => []
  | r :: rest =>
      match str_field r "chunk_text" with
      | Some t =>
          if existsb (String.eqb t) seen then first_rows seen rest
          else r :: first_rows (t :: seen) rest
      | None => first_rows seen rest
      end
  end.

Lemma concat_blocks_app l1 l2 :
  concat_blocks (l1 ++ l2) = (concat_blocks l1 ++ concat_blocks l2)%string.
Proof.
  induction l1 as [| s l1 IH]; [reflexivity |].
  change (concat_blocks ((s :: l1) ++ l2))
    with (block_of s ++ concat_blocks (l1 ++ l2))%string.
  change (concat_blocks (s :: l1)) with (block_of s ++ concat_blocks l1)%string.
  rewrite IH, append_assoc. reflexivity.
Qed.

Section Loads.
Variable json_loads : string -> loaded.

(** What one turn of the loop does to the sources. *)
Lemma add_source_ok st r st1 :
  add_source st r = OK st1 ->
  exists text,
    assoc "chunk_text" r = Some (JStr text)
    /\ ((existsb (String.eqb text) (seen_chunks st) = true /\ st1 = st)
        \/ (existsb (String.eqb text) (seen_chunks st) = false
            /\ exists pid title url,
              st1 = mkLocals (l_sources st ++ [mkSource pid title url text])
                             (graph_nodes st) (graph_edges st)
                             (context_for_llm st ++ block title text)%string
                             (text :: seen_chunks st))).
Proof.
  unfold add_source. intros H.
  inv_bind H. inv_bind H.
  unfold row_get, getitem in E.
  destruct (assoc "chunk_text" r) as [ct |] eqn:Hct; [| discriminate].
  injection E as <-.
  destruct x0.
  - (* fresh *)
    inv_bind H. inv_bind H. inv_bind H. inv_bind H.
    inv_bind H. inv_bind H. inv_bind H. inv_bind H.
    injection H as <-.
    unfold row_get, getitem in E3. rewrite Hct in E3. injection E3 as <-.
    destruct ct; try discriminate. simpl in E7. injection E7 as <-.
    simpl in E0. injection E0 as E0.
    exists s. split; [reflexivity |]. right. split.
    + destruct (existsb (String.eqb s) (seen_chunks st)); [discriminate | reflexivity].
    + eauto.
  - injection H as <-.
    destruct ct; try discriminate.
    simpl in E0. injection E0 as E0.
    exists s. split; [reflexivity |]. left. split; [| reflexivity].
    destruct (existsb (String.eqb s) (seen_chunks st)); [reflexivity | discriminate].
Qed.

Lemma add_graph_ok st gd st1 :
  add_graph st gd = OK st1 ->
  l_sources st1 = l_sources st
  /\ context_for_llm st1 = context_for_llm st
  /\ seen_chunks st1 = seen_chunks st.
Proof.
  unfold add_graph. intros H.
  repeat inv_bind H. injection H as <-. simpl. auto.
Qed.

(** The sources and the context after the loop, from any state in
    which the seen texts are those of the sources so far. *)
Lemma loop_sources rows : forall st st',
  for_each (loop_body json_loads) st rows = OK st' ->
  exists texts,
    map (assoc "chunk_text") rows = map (fun t => Some (JStr t)) texts
    /\ exists added,
        l_sources st' = l_sources st ++ added
        /\ map text_of added = firsts (seen_chunks st) texts
        /\ context_for_llm st' = (context_for_llm st ++ concat_blocks added)%string.
Proof.
  induction rows as [| r rows IH]; simpl; intros st st' H.
  - injection H as <-. exists []. split; [reflexivity |].
    exists []. rewrite app_nil_r. simpl. rewrite append_empty_r. auto.
  - inv_bind H. unfold loop_body in E. inv_bind E. clear E0. inv_bind E.
    apply add_source_ok in E0 as [text [Hct Hcase]].
    apply add_graph_ok in E as [Hs [Hc Hseen]].
    apply IH in H as [texts [Htexts [added [Hadd [Hfirsts Hctx]]]]].
    exists (text :: texts). split; [simpl; rewrite Hct, Htexts; reflexivity |].
    rewrite Hs in Hadd. rewrite Hc in Hctx. rewrite Hseen in Hfirsts.
    simpl. destruct Hcase as [[Hseen0 ->] | [Hseen0 [pid [title [url ->]]]]];
      rewrite Hseen0.
    + exists added. auto.
    + simpl in *. exists (mkSource pid title url text :: added).
      rewrite Hadd, <- app_assoc. simpl. split; [reflexivity |].
      split; [rewrite Hfirsts; reflexivity |].
      rewrite Hctx, append_assoc. reflexivity.
Qed.

Lemma add_source_fresh st r st1 text :
  add_source st r = OK st1 ->
  assoc "chunk_text" r = Some (JStr text) ->
  existsb (String.eqb text) (seen_chunks st) = false ->
  exists src, source_of_row r = Some src /\ l_sources st1 = l_sources st ++ [src].
Proof.
  unfold add_source, source_of_row, str_field, row_get, getitem.
  intros H Hct Hfresh. rewrite Hct in *. simpl in H. rewrite Hfresh in H. simpl in H.
  destruct (assoc "paper_id" r) as [a |]; simpl in H; [| discriminate].
  destruct (assoc "paper_title" r) as [b |]; simpl in H; [| discriminate].
  destruct (assoc "pdf_url" r) as [c |]; simpl in H; [| discriminate].
  destruct a; simpl in H; try discriminate.
  destruct b; simpl in H; try discriminate.
  destruct c; simpl in H; try discriminate.
  injection H as <-. simpl. eauto.
Qed.

(** The sources after the loop are those of the rows that bring a new
    text, in order. *)
Lemma loop_first_rows rows : forall st st',
  for_each (loop_body json_loads) st rows = OK st' ->
  exists added,
    l_sources st' = l_sources st ++ added
    /\ map source_of_row (first_rows (seen_chunks st) rows) = map Some added.
Proof.
  induction rows as [| r rows IH]; simpl; intros st st' H.
  - injection H as <-. exists []. rewrite app_nil_r. auto.
  - inv_bind H. unfold loop_body in E. inv_bind E. clear E0. inv_bind E.
    pose proof E0 as Hsrc.
    apply add_source_ok in E0 as [text [Hct Hcase]].
    apply add_graph_ok in E as [Hs [_ Hseen]].
    apply IH in H as [added [Hadd Hrows]].
    unfold str_field at 1. rewrite Hct.
    rewrite Hs in Hadd. rewrite Hseen in Hrows.
    destruct Hcase as [[Hseen0 ->] | [Hseen0 Hst]]; rewrite Hseen0.
    + exists added. auto.
    + destruct (add_source_fresh _ _ Hsrc Hct Hseen0) as [src [Hsrc1 Hsrc2]].
      destruct Hst as [pid [title [url ->]]]. simpl in *.
      exists (src :: added). rewrite Hadd, Hsrc2, <- app_assoc.
      split; [reflexivity |]. rewrite Hsrc1, Hrows. reflexivity.
Qed.

End Loads.

Lemma for_each_inv {A S : Type} (body : S -> A -> result S) (P : S -> Prop) :
  (forall st x st', P st -> body st x = OK st' -> P st') ->
  forall l st st', P st -> for_each body st l = OK st' -> P st'.
Proof.
  intros Hstep. induction l as [| x l IH]; simpl; intros st st' HP H.
  - injection H as <-. assumption.
  - inv_bind H. eapply IH; [| eassumption]. eapply Hstep; eassumption.
Qed.

Lemma edge_key_eqb_spec a b : edge_key_eqb a b = true <-> a = b.
Proof.
  destruct a as [[s1 t1] y1], b as [[s2 t2] y2]. simpl.
  rewrite !andb_true_iff, !String.eqb_eq. split.
  - intros [[-> ->] ->]. reflexivity.
  - intros H. injection H as -> -> ->. auto.
Qed.

Definition edge_triple (e : GraphEdge) : edge_key :=
  (edge_source e, edge_target e, edge_type e).

(** The dict of nodes: no key twice, every node stored under its id. *)
Definition nodes_ok (gn : list (string * GraphNode)) : Prop :=
  NoDup (dict_keys gn) /\ Forall (fun kv => node_id (snd kv) = fst kv) gn.

Definition edges_ok (ge : list (edge_key * GraphEdge)) : Prop :=
  NoDup (dict_keys ge) /\ Forall (fun kv => edge_triple (snd kv) = fst kv) ge.

Lemma add_entity_ok gn e gn' :
  nodes_ok gn -> add_entity gn e = OK gn' -> nodes_ok gn'.
Proof.
  intros [Hnd Hk] H. unfold add_entity in H. repeat inv_bind H.
  injection H as <-. split.
  - apply DictFacts.dict_set_keys_nodup; [apply String.eqb_eq | assumption].
  - apply DictFacts.dict_set_keyed; [apply String.eqb_eq | reflexivity | assumption].
Qed.

Lemma add_relationship_ok ge rel ge' :
  edges_ok ge -> add_relationship ge rel = OK ge' -> edges_ok ge'.
Proof.
  intros [Hnd Hk] H. unfold add_relationship in H. repeat inv_bind H.
  injection H as <-. split.
  - apply DictFacts.dict_set_keys_nodup; [apply edge_key_eqb_spec | assumption].
  - apply DictFacts.dict_set_keyed; [apply edge_key_eqb_spec | reflexivity | assumption].
Qed.

Definition graph_ok (st : locals) : Prop :=
  nodes_ok (graph_nodes st) /\ edges_ok (graph_edges st).

Lemma loop_body_graph_ok loads st r st' :
  graph_ok st -> loop_body loads st r = OK st' -> graph_ok st'.
Proof.
  intros [Hn He] H. unfold loop_body in H. inv_bind H. clear E.
  rename x into gd. inv_bind H.
  apply add_source_ok in E as [text [_ Hcase]].
  assert (Hx : graph_nodes x = graph_nodes st /\ graph_edges x = graph_edges st).
  { destruct Hcase as [[_ ->] | [_ [pid [title [url ->]]]]]; simpl; auto. }
  destruct Hx as [Hxn Hxe].
  unfold add_graph in H. repeat inv_bind H. injection H as <-.
  split; simpl.
  - eapply (for_each_inv add_entity nodes_ok); [| | eassumption].
    + intros; eapply add_entity_ok; eassumption.
    + rewrite Hxn. assumption.
  - eapply (for_each_inv add_relationship edges_ok); [| | eassumption].
    + intros; eapply add_relationship_ok; eassumption.
    + rewrite Hxe. assumption.
Qed.

Lemma prepare_graph_ok loads rows resp ctx :
  _prepare_structured_data loads rows = OK (resp, ctx) ->
  NoDup (map node_id (nodes (graph resp)))
  /\ NoDup (map edge_triple (edges (graph resp))).
Proof.
  unfold _prepare_structured_data. intros H. inv_bind H.
  injection H as <- <-. simpl.
  assert (Hok : graph_ok x).
  { eapply (for_each_inv (loop_body loads) graph_ok); [| | eassumption].
    - intros; eapply loop_body_graph_ok; eassumption.
    - repeat split; constructor. }
  destruct Hok as [[Hn Hnk] [He Hek]].
  rewrite (DictFacts.keyed_values node_id Hnk).
  rewrite (DictFacts.keyed_values edge_triple Hek). auto.
Qed.

(** An entity and a relationship as the stored fragment has them. *)
Definition entity (name ty : string) : json :=
  JObj [ ("name", JStr name); ("type", JStr ty) ].

Definition relationship (s t y : string) : json :=
  JObj [ ("source", JStr s); ("target", JStr t); ("type", JStr y) ].

Lemma add_entity_twice gn e gn1 :
  add_entity gn e = OK gn1 -> add_entity gn1 e = OK gn1.
Proof.
  intros H. unfold add_entity in *. repeat inv_bind H. injection H as <-.
  rewrite E, E0. simpl. rewrite E1, E2. simpl.
  rewrite DictFacts.dict_set_idempotent; [reflexivity | apply String.eqb_eq].
Qed.

Lemma add_relationship_twice ge rel ge1 :
  add_relationship ge rel = OK ge1 -> add_relationship ge1 rel = OK ge1.
Proof.
  intros H. unfold add_relationship in *. repeat inv_bind H. injection H as <-.
  rewrite E, E0, E1. simpl. rewrite E2, E3, E4. simpl.
  rewrite DictFacts.dict_set_idempotent; [reflexivity | apply edge_key_eqb_spec].
Qed.

(** What one insertion leaves in the dict of edges: the relationship
    has three strings as its source, target and type, the dict maps
    their triple to the edge made of them, every other key keeps what
    it had, and a dict without a repeated key has exactly one entry
    under the triple. *)
Lemma add_relationship_stores ge rel ge1 :
  add_relationship ge rel = OK ge1 ->
  exists s t y,
    getitem rel "source" = OK (JStr s)
    /\ getitem rel "target" = OK (JStr t)
    /\ getitem rel "type" = OK (JStr y)
    /\ dict_get edge_key_eqb (s, t, y) ge1 = Some (mkGraphEdge s t y)
    /\ (forall k, edge_key_eqb k (s, t, y) = false ->
                  dict_get edge_key_eqb k ge1 = dict_get edge_key_eqb k ge)
    /\ (NoDup (dict_keys ge) ->
        NoDup (dict_keys ge1)
        /\ DictFacts.entries_under edge_key_eqb (s, t, y) ge1
           = [((s, t, y), mkGraphEdge s t y)]).
Proof.
  intros H. unfold add_relationship in H. repeat inv_bind H. injection H as <-.
  destruct x as [| | | s | |]; try discriminate. injection E2 as <-.
  destruct x0 as [| | | t | |]; try discriminate. injection E3 as <-.
  destruct x1 as [| | | y | |]; try discriminate. injection E4 as <-.
  exists s, t, y. repeat split; try assumption.
  - apply DictFacts.dict_get_set. apply edge_key_eqb_spec.
  - intros k Hk. apply DictFacts.dict_get_set_ne; [apply edge_key_eqb_spec | exact Hk].
  - apply DictFacts.dict_set_keys_nodup; [apply edge_key_eqb_spec | assumption].
  - apply DictFacts.dict_set_single; [apply edge_key_eqb_spec | assumption].
Qed.

Lemma add_entity_stores gn e gn1 :
  add_entity gn e = OK gn1 ->
  exists name ty,
    getitem e "name" = OK (JStr name)
    /\ getitem e "type" = OK (JStr ty)
    /\ dict_get String.eqb name gn1 = Some (mkGraphNode name ty)
    /\ (forall k, String.eqb k name = false ->
                  dict_get String.eqb k gn1 = dict_get String.eqb k gn)
    /\ (NoDup (dict_keys gn) ->
        NoDup (dict_keys gn1)
        /\ DictFacts.entries_under String.eqb name gn1
           = [(name, mkGraphNode name ty)]).
Proof.
  intros H. unfold add_entity in H. repeat inv_bind H. injection H as <-.
  destruct x as [| | | name | |]; try discriminate. injection E1 as <-.
  destruct x0 as [| | | ty | |]; try discriminate. injection E2 as <-.
  exists name, ty. repeat split; try assumption.
  - apply DictFacts.dict_get_set. apply String.eqb_eq.
  - intros k Hk. apply DictFacts.dict_get_set_ne; [apply String.eqb_eq | exact Hk].
  - apply DictFacts.dict_set_keys_nodup; [apply String.eqb_eq | assumption].
  - apply DictFacts.dict_set_single; [apply String.eqb_eq | assumption].
Qed.

(** Inserting a relationship of three strings succeeds, and a second
    insertion of it leaves the dict as the first one made it. *)
Lemma add_relationship_twice_single ge s t y :
  NoDup (dict_keys ge) ->
  exists ge1,
    add_relationship ge (relationship s t y) = OK ge1
    /\ add_relationship ge1 (relationship s t y) = OK ge1
    /\ DictFacts.entries_under edge_key_eqb (s, t, y) ge1
       = [((s, t, y), mkGraphEdge s t y)].
Proof.
  intros Hnd.
  exists (dict_set edge_key_eqb (s, t, y) (mkGraphEdge s t y) ge).
  assert (H1 : add_relationship ge (relationship s t y)
               = OK (dict_set edge_key_eqb (s, t, y) (mkGraphEdge s t y) ge))
    by reflexivity.
  split; [exact H1 |].
  split; [eapply add_relationship_twice; exact H1 |].
  apply DictFacts.dict_set_single; [apply edge_key_eqb_spec | assumption].
Qed.

Lemma add_entity_twice_single gn name ty :
  NoDup (dict_keys gn) ->
  exists gn1,
    add_entity gn (entity name ty) = OK gn1
    /\ add_entity gn1 (entity name ty) = OK gn1
    /\ DictFacts.entries_under String.eqb name gn1
       = [(name, mkGraphNode name ty)].
Proof.
  intros Hnd.
  exists (dict_set String.eqb name (mkGraphNode name ty) gn).
  assert (H1 : add_entity gn (entity name ty)
               = OK (dict_set String.eqb name (mkGraphNode name ty) gn))
    by reflexivity.
  split; [exact H1 |].
  split; [eapply add_entity_twice; exact H1 |].
  apply DictFacts.dict_set_single; [apply String.eqb_eq | assumption].
Qed.

Lemma add_entity_last_wins gn name t1 t2 :
  (g <- add_entity gn (entity name t1) ;; add_entity g (entity name t2))
  = add_entity gn (entity name t2)
  /\ exists g, add_entity gn (entity name t2) = OK g
               /\ dict_get String.eqb name g = Some (mkGraphNode name t2).
Proof.
  unfold add_entity, entity. simpl. split.
  - rewrite DictFacts.dict_set_last_wins; [reflexivity | apply String.eqb_eq].
  - eexists. split; [reflexivity |].
    apply DictFacts.dict_get_set. apply String.eqb_eq.
Qed.

(** ** Sample data *)

Definition dq : string := String (ascii_of_nat 34) EmptyString.

(** The text of a fragment that parses but whose entity has no type:
    an object with the member entities, a list of one object with the
    single member name. *)
Definition fragment_without_type : string :=
  ("{" ++ dq ++ "entities" ++ dq ++ ": [{" ++ dq ++ "name" ++ dq ++ ": "
       ++ dq ++ "BERT" ++ dq ++ "}]}")%string.

Definition fragment_bert : string :=
  ("{" ++ dq ++ "entities" ++ dq ++ ": [{" ++ dq ++ "name" ++ dq ++ ": "
       ++ dq ++ "BERT" ++ dq ++ ", " ++ dq ++ "type" ++ dq ++ ": "
       ++ dq ++ "Tool" ++ dq ++ "}]}")%string.

(** [json.loads] on the handful of texts the examples use. *)
Definition sample_loads (s : string) : loaded :=
  if String.eqb s "{}" then Parsed (JObj [])
  else if String.eqb s "[1]" then Parsed (JList [JNum 1])
  else if String.eqb s fragment_without_type
       then Parsed (JObj [ ("entities", JList [ JObj [ ("name", JStr "BERT") ] ]) ])
  else if String.eqb s fragment_bert
       then Parsed (JObj [ ("entities", JList [ entity "BERT" "Tool" ]) ])
  else JSONDecodeError.

Definition a_row (pid title url text graph_data : string) : Store.row :=
  [ ("paper_id", JStr pid); ("paper_title", JStr title); ("pdf_url", JStr url);
    ("chunk_text", JStr text); ("graph_data", JStr graph_data) ].

Definition sample_rows : list Store.row :=
  [ a_row "p1" "Attention" "http://x/1" "alpha" fragment_bert;
    a_row "p2" "Transformers" EmptyString "beta" "not json";
    a_row "p3" "Survey" EmptyString "alpha" fragment_bert ].

Example prepare_sample :
  _prepare_structured_data sample_loads sample_rows
  = OK (mkStructuredResponse
          [ mkSource "p1" "Attention" "http://x/1" "alpha";
            mkSource "p2" "Transformers" EmptyString "beta" ]
          (mkGraph [ mkGraphNode "BERT" "Tool" ] []),
        (block "Attention" "alpha" ++ block "Transformers" "beta")%string).
Proof. vm_compute. reflexivity. Qed.

(** ** A fragment that does not parse is replaced by the empty dict *)

Lemma unparseable_fragment_recovered loads st r s :
  assoc "graph_data" r = Some (JStr s) -> loads s = JSONDecodeError ->
  parsed_graph_data loads r = OK (Some (JObj []))
  /\ add_graph st (Some (JObj [])) = OK st.
Proof.
  intros Hr Hs. split.
  - unfold parsed_graph_data. rewrite Hr, Hs. reflexivity.
  - unfold add_graph. simpl. destruct st; reflexivity.
Qed.

Lemma plain_row_step loads st pid title url text gd :
  loads gd = JSONDecodeError ->
  loop_body loads st (a_row pid title url text gd)
  = OK (if existsb (String.eqb text) (seen_chunks st) then st
        else mkLocals (l_sources st ++ [mkSource pid title url text])
                      (graph_nodes st) (graph_edges st)
                      (context_for_llm st ++ block title text)%string
                      (text :: seen_chunks st)).
Proof.
  intros Hgd. unfold loop_body.
  assert (Hsrc : add_source st (a_row pid title url text gd)
                 = OK (if existsb (String.eqb text) (seen_chunks st) then st
                       else mkLocals (l_sources st ++ [mkSource pid title url text])
                              (graph_nodes st) (graph_edges st)
                              (context_for_llm st ++ block title text)%string
                              (text :: seen_chunks st))).
  { unfold add_source. simpl.
    destruct (existsb (String.eqb text) (seen_chunks st)); reflexivity. }
  destruct (@unparseable_fragment_recovered loads
              (if existsb (String.eqb text) (seen_chunks st) then st
               else mkLocals (l_sources st ++ [mkSource pid title url text])
                      (graph_nodes st) (graph_edges st)
                      (context_for_llm st ++ block title text)%string
                      (text :: seen_chunks st))
              (a_row pid title url text gd) gd eq_refl Hgd) as [Hp Hg].
  rewrite Hp. cbn [bind]. rewrite Hsrc. cbn [bind]. exact Hg.
Qed.

(** The call returns on every sequence of rows with string fields
    and fragments that do not parse. *)
Lemma prepare_returns_on_plain_rows loads (l : list (string * string * string * string * string)) :
  (forall pid title url text gd, In (pid, title, url, text, gd) l ->
     loads gd = JSONDecodeError) ->
  exists resp ctx,
    _prepare_structured_data loads
      (map (fun '(pid, title, url, text, gd) => a_row pid title url text gd) l)
    = OK (resp, ctx).
Proof.
  intros Hl. unfold _prepare_structured_data.
  assert (H : forall st, exists st',
             for_each (loop_body loads) st
               (map (fun '(pid, title, url, text, gd) => a_row pid title url text gd) l)
             = OK st').
  { induction l as [| [[[[pid title] url] text] gd] l IH]; intros st.
    - exists st. reflexivity.
    - cbn [map for_each]. rewrite plain_row_step.
      + cbn [bind]. apply IH. intros. eapply Hl. right. eassumption.
      + eapply Hl. left. reflexivity. }
  destruct (H init) as [st' Hst']. rewrite Hst'. simpl. eauto.
Qed.

(** C4. When [_prepare_structured_data] returns, every row had a
    string as its chunk text, the texts of the sources are the
    distinct texts of the rows in the order of their first
    occurrence, no two sources have the same text, every text of the
    input occurs exactly once among the sources, and the sources are
    the records of the rows that bring a text for the first time. *)
Theorem sources_distinct_first_occurrence
        (loads : string -> loaded) (rows : list Store.row)
        (resp : StructuredResponse) (ctx : string)
        (Hret : _prepare_structured_data loads rows = OK (resp, ctx)) :
  exists texts,
    map (assoc "chunk_text") rows = map (fun t => Some (JStr t)) texts
    /\ map chunk_text (sources resp) = firsts [] texts
    /\ NoDup (map chunk_text (sources resp))
    /\ (forall t, In t texts ->
                  count_occ string_dec (map chunk_text (sources resp)) t = 1)
    /\ map Some (sources resp) = map source_of_row (first_rows [] rows).
Proof.
  unfold _prepare_structured_data in Hret. inv_bind Hret.
  injection Hret as <- <-. simpl.
  pose proof (loop_first_rows _ _ _ E) as [added' [Hadd' Hrows]].
  apply loop_sources in E as [texts [Htexts [added [Hadd [Hfirsts _]]]]].
  simpl in Hadd, Hfirsts, Hadd', Hrows. rewrite Hadd.
  exists texts. split; [assumption |].
  assert (Hn : NoDup (map chunk_text added))
    by (change (map chunk_text added) with (map text_of added);
        rewrite Hfirsts; apply firsts_NoDup).
  split; [exact Hfirsts | split; [exact Hn |]].
  split.
  - intros t Ht. apply NoDup_count_occ'; [exact Hn |].
    change (map chunk_text added) with (map text_of added).
    rewrite Hfirsts. apply firsts_In. split; [assumption | intros []].
  - rewrite Hadd in Hadd'. subst added'. symmetry. exact Hrows.
Qed.

Definition sample_response : StructuredResponse :=
  mkStructuredResponse
    [ mkSource "p1" "Attention" "http://x/1" "alpha";
      mkSource "p2" "Transformers" EmptyString "beta" ]
    (mkGraph [ mkGraphNode "BERT" "Tool" ] []).

Definition sample_context : string :=
  (block "Attention" "alpha" ++ block "Transformers" "beta")%string.

Lemma prepare_sample_rows :
  _prepare_structured_data sample_loads sample_rows
  = OK (sample_response, sample_context).
Proof. vm_compute. reflexivity. Qed.

Lemma sources_distinct_first_occurrence_witness :
  _prepare_structured_data sample_loads sample_rows
  = OK (sample_response, sample_context)
  /\ map chunk_text (sources sample_response) = ["alpha"; "beta"]
  /\ NoDup (map chunk_text (sources sample_response)).
Proof.
  split; [exact prepare_sample_rows |].
  destruct (@sources_distinct_first_occurrence _ _ _ _ prepare_sample_rows)
    as [texts [Ht [Hf [Hn [_ _]]]]].
  split; [reflexivity | exact Hn].
Defined.

Definition two_types_rows : list Store.row :=
  [ a_row "p1" "Attention" EmptyString "alpha" fragment_bert;
    [ ("paper_id", JStr "p2"); ("paper_title", JStr "Survey");
      ("pdf_url", JStr EmptyString); ("chunk_text", JStr "beta");
      ("graph_data",
       JObj [ ("entities", JList [ entity "BERT" "Method"; entity "SQuAD" "Dataset" ]);
              ("relationships",
               JList [ relationship "BERT" "SQuAD" "EVALUATED_ON";
                       relationship "BERT" "SQuAD" "EVALUATED_ON" ]) ]) ] ].

Example prepare_two_types :
  option_map (fun p => graph (fst p))
    (match _prepare_structured_data sample_loads two_types_rows with
     | OK p => Some p
     | Raise _ => None
     end)
  = Some (mkGraph [ mkGraphNode "BERT" "Method"; mkGraphNode "SQuAD" "Dataset" ]
                  [ mkGraphEdge "BERT" "SQuAD" "EVALUATED_ON" ]).
Proof. reflexivity. Qed.

(** C5. The node dict and the edge dict of the graph view do not
    change when the entity or relationship just inserted is inserted
    again; the graph that [_prepare_structured_data] returns has no
    two nodes with the same id and no two edges with the same
    (source, target, type); inserting a name with one type and then
    with another leaves the dict as if only the second had been
    inserted, the node under that name carrying the second type; an
    insertion that returns has stored its entity or relationship: the
    dict maps the name, or the triple, to the node or edge made of
    the inserted strings, every other key keeps what it had, and a
    dict without a repeated key has exactly one entry under the
    inserted key; and inserting an entity or a relationship of
    strings twice into such a dict succeeds both times and leaves
    exactly one entry under its key. *)
Theorem graph_view_idempotent_unique :
  (forall gn e gn1, add_entity gn e = OK gn1 -> add_entity gn1 e = OK gn1)
  /\ (forall ge rel ge1,
         add_relationship ge rel = OK ge1 -> add_relationship ge1 rel = OK ge1)
  /\ (forall loads rows resp ctx,
         _prepare_structured_data loads rows = OK (resp, ctx) ->
         NoDup (map node_id (nodes (graph resp)))
         /\ NoDup (map edge_triple (edges (graph resp))))
  /\ (forall gn name t1 t2,
         (g <- add_entity gn (entity name t1) ;; add_entity g (entity name t2))
         = add_entity gn (entity name t2)
         /\ exists g, add_entity gn (entity name t2) = OK g
                      /\ dict_get String.eqb name g = Some (mkGraphNode name t2))
  /\ (forall ge rel ge1,
         add_relationship ge rel = OK ge1 ->
         exists s t y,
           getitem rel "source" = OK (JStr s)
           /\ getitem rel "target" = OK (JStr t)
           /\ getitem rel "type" = OK (JStr y)
           /\ dict_get edge_key_eqb (s, t, y) ge1 = Some (mkGraphEdge s t y)
           /\ (forall k, edge_key_eqb k (s, t, y) = false ->
                         dict_get edge_key_eqb k ge1 = dict_get edge_key_eqb k ge)
           /\ (NoDup (dict_keys ge) ->
               NoDup (dict_keys ge1)
               /\ DictFacts.entries_under edge_key_eqb (s, t, y) ge1
                  = [((s, t, y), mkGraphEdge s t y)]))
  /\ (forall gn e gn1,
         add_entity gn e = OK gn1 ->
         exists name ty,
           getitem e "name" = OK (JStr name)
           /\ getitem e "type" = OK (JStr ty)
           /\ dict_get String.eqb name gn1 = Some (mkGraphNode name ty)
           /\ (forall k, String.eqb k name = false ->
                         dict_get String.eqb k gn1 = dict_get String.eqb k gn)
           /\ (NoDup (dict_keys gn) ->
               NoDup (dict_keys gn1)
               /\ DictFacts.entries_under String.eqb name gn1
                  = [(name, mkGraphNode name ty)]))
  /\ (forall ge s t y,
         NoDup (dict_keys ge) ->
         exists ge1,
           add_relationship ge (relationship s t y) = OK ge1
           /\ add_relationship ge1 (relationship s t y) = OK ge1
           /\ DictFacts.entries_under edge_key_eqb (s, t, y) ge1
              = [((s, t, y), mkGraphEdge s t y)])
  /\ (forall gn name ty,
         NoDup (dict_keys gn) ->
         exists gn1,
           add_entity gn (entity name ty) = OK gn1
           /\ add_entity gn1 (entity name ty) = OK gn1
           /\ DictFacts.entries_under String.eqb name gn1
              = [(name, mkGraphNode name ty)]).
Proof.
  split; [exact add_entity_twice |].
  split; [exact add_relationship_twice |].
  split; [exact prepare_graph_ok |].
  split; [exact add_entity_last_wins |].
  split; [exact add_relationship_stores |].
  split; [exact add_entity_stores |].
  split; [exact add_relationship_twice_single |].
  exact add_entity_twice_single.
Qed.

Definition sample_edges : list (edge_key * GraphEdge) :=
  [ (("BERT", "GLUE", "EVALUATED_ON"), mkGraphEdge "BERT" "GLUE" "EVALUATED_ON") ].

Definition sample_edges_after : list (edge_key * GraphEdge) :=
  [ (("BERT", "GLUE", "EVALUATED_ON"), mkGraphEdge "BERT" "GLUE" "EVALUATED_ON");
    (("BERT", "SQuAD", "EVALUATED_ON"), mkGraphEdge "BERT" "SQuAD" "EVALUATED_ON") ].

Lemma sample_edges_nodup : NoDup (dict_keys sample_edges).
Proof. constructor; [intros [] | constructor]. Qed.

Lemma graph_view_idempotent_unique_witness :
  add_entity [("BERT", mkGraphNode "BERT" "Tool")] (entity "BERT" "Tool")
  = OK [("BERT", mkGraphNode "BERT" "Tool")]
  /\ (exists resp ctx,
         _prepare_structured_data sample_loads two_types_rows = OK (resp, ctx)
         /\ NoDup (map node_id (nodes (graph resp)))
         /\ NoDup (map edge_triple (edges (graph resp))))
  /\ (add_relationship sample_edges (relationship "BERT" "SQuAD" "EVALUATED_ON")
      = OK sample_edges_after
      /\ add_relationship sample_edges_after
           (relationship "BERT" "SQuAD" "EVALUATED_ON")
         = OK sample_edges_after
      /\ dict_get edge_key_eqb ("BERT", "SQuAD", "EVALUATED_ON") sample_edges_after
         = Some (mkGraphEdge "BERT" "SQuAD" "EVALUATED_ON")
      /\ NoDup (dict_keys sample_edges_after)
      /\ DictFacts.entries_under edge_key_eqb ("BERT", "SQuAD", "EVALUATED_ON")
           sample_edges_after
         = [(("BERT", "SQuAD", "EVALUATED_ON"),
             mkGraphEdge "BERT" "SQuAD" "EVALUATED_ON")]).
Proof.
  destruct graph_view_idempotent_unique
    as [Hent [Hrel [Hprep [_ [Hstore [_ [_ _]]]]]]].
  split; [| split].
  - apply (Hent [] (entity "BERT" "Tool")). reflexivity.
  - eexists. eexists. split; [reflexivity |].
    apply (Hprep sample_loads two_types_rows _ _ eq_refl).
  - assert (H1 : add_relationship sample_edges
                   (relationship "BERT" "SQuAD" "EVALUATED_ON")
                 = OK sample_edges_after) by reflexivity.
    destruct (Hstore _ _ _ H1) as [s [t [y [Hs [Ht [Hy [Hget [_ Hone]]]]]]]].
    injection Hs as <-. injection Ht as <-. injection Hy as <-.
    destruct (Hone sample_edges_nodup) as [Hnd Hsingle].
    split; [exact H1 |].
    split; [exact (Hrel _ _ _ H1) |].
    split; [exact Hget |].
    split; [exact Hnd | exact Hsingle].
Defined.

(** ** Fragments that parse but have another shape *)

Definition row_without_type : Store.row :=
  a_row "p1" "Attention" EmptyString "alpha" fragment_without_type.

Definition row_with_list : Store.row :=
  a_row "p1" "Attention" EmptyString "alpha" "[1]".

(** C6, at the inputs where it fails. A fragment that does not parse
    is replaced by the empty dict and the call returns the unit's
    source; a fragment that parses to an entity without a type, or to
    a list, makes the whole call raise, also when the other rows are
    sound. *)
Theorem prepare_raises_on_misshapen_fragment :
  _prepare_structured_data sample_loads
    [ a_row "p0" "Survey" EmptyString "beta" "not json"; row_without_type ]
  = Raise KeyError
  /\ _prepare_structured_data sample_loads [ row_with_list ] = Raise AttributeError
  /\ _prepare_structured_data sample_loads
       [ a_row "p0" "Survey" EmptyString "beta" "not json" ]
     = OK (mkStructuredResponse [ mkSource "p0" "Survey" EmptyString "beta" ]
                                (mkGraph [] []),
           block "Survey" "beta").
Proof. repeat split. Qed.

End AssemblerFacts.

(* ================================================================== *)
(** * Properties: the command-line context budget *)
(* ================================================================== *)

Module CliFacts.
Import Py Cli.

Definition sum_len (parts : list string) : Z :=
  fold_right (fun p acc => (len p + acc)%Z) 0%Z parts.

Lemma len_append a b : len (a ++ b)%string = (len a + len b)%Z.
Proof.
  unfold len. induction a as [| c a IH]; simpl String.length.
  - simpl. lia.
  - rewrite !Nat2Z.inj_succ. simpl in IH. lia.
Qed.

Lemma len_nonneg a : (0 <= len a)%Z.
Proof. unfold len. lia. Qed.

Lemma sum_len_app l1 l2 : sum_len (l1 ++ l2) = (sum_len l1 + sum_len l2)%Z.
Proof. induction l1 as [| p l1 IH]; simpl; [reflexivity | rewrite IH; lia]. Qed.

Lemma join_len parts :
  parts <> [] ->
  len (join Assembler.nl parts)
  = (sum_len parts + Z.of_nat (List.length parts) - 1)%Z.
Proof.
  induction parts as [| p parts IH]; intros Hne; [congruence |].
  destruct parts as [| q parts].
  - simpl. lia.
  - change (join Assembler.nl (p :: q :: parts))
      with (p ++ Assembler.nl ++ join Assembler.nl (q :: parts))%string.
    rewrite !len_append, IH by discriminate.
    change (len Assembler.nl) with 1%Z.
    change (sum_len (p :: q :: parts)) with (len p + sum_len (q :: parts))%Z.
    change (List.length (p :: q :: parts)) with (S (List.length (q :: parts))).
    rewrite Nat2Z.inj_succ. lia.
Qed.

Section Main.
Variable str_of : json -> string.

(** The loop runs over [pre] without leaving: every turn ends with
    [Next]. *)
Inductive steps : locals -> list Store.row -> locals -> Prop :=
| steps_nil st : steps st [] st
| steps_cons st r st1 pre st2 :
    body str_of st r = OK (Next st1) ->
    steps st1 pre st2 ->
    steps st (r :: pre) st2.

(** The running total is the length of the blocks kept, and it is
    within the budget. *)
Definition within_budget (st : locals) : Prop :=
  total_len st = sum_len (context_parts st) /\ (total_len st <= budget)%Z.

Lemma body_next st r st1 :
  body str_of st r = OK (Next st1) ->
  st1 = st
  \/ (truthy (chunk_of r) = true
      /\ is_in (chunk_of r) (seen st) = OK false
      /\ (total_len st + len (part str_of (title_of r) (chunk_of r)) <= budget)%Z
      /\ st1 = mkLocals (chunk_of r :: seen st)
                        (context_parts st ++ [part str_of (title_of r) (chunk_of r)])
                        (total_len st + len (part str_of (title_of r) (chunk_of r)))%Z).
Proof.
  unfold body. destruct (truthy (chunk_of r)) eqn:Ht; simpl.
  - destruct (is_in (chunk_of r) (seen st)) as [dup | e] eqn:Hin; simpl; [| discriminate].
    destruct dup.
    + intros H. injection H as <-. left. reflexivity.
    + destruct (Z.ltb_spec budget
                  (total_len st + len (part str_of (title_of r) (chunk_of r)))) as [Hlt | Hge].
      * discriminate.
      * intros H. injection H as <-. right. auto.
  - intros H. injection H as <-. left. reflexivity.
Qed.

Lemma body_stop st r st1 :
  body str_of st r = OK (Stop st1) ->
  st1 = st
  /\ truthy (chunk_of r) = true
  /\ is_in (chunk_of r) (seen st) = OK false
  /\ (budget < total_len st + len (part str_of (title_of r) (chunk_of r)))%Z.
Proof.
  unfold body. destruct (truthy (chunk_of r)) eqn:Ht; simpl; [| discriminate].
  destruct (is_in (chunk_of r) (seen st)) as [dup | e] eqn:Hin; simpl; [| discriminate].
  destruct dup; [discriminate |].
  destruct (Z.ltb_spec budget
              (total_len st + len (part str_of (title_of r) (chunk_of r)))) as [Hlt | Hge].
  - intros H. injection H as <-. auto.
  - discriminate.
Qed.

Lemma body_next_within st r st1 :
  within_budget st -> body str_of st r = OK (Next st1) -> within_budget st1.
Proof.
  intros [Hsum Hle] H. apply body_next in H as [-> | [_ [_ [Hfit ->]]]].
  - split; assumption.
  - split; simpl; [| assumption].
    rewrite sum_len_app, Hsum. simpl. lia.
Qed.

Lemma steps_within st pre st' :
  steps st pre st' -> within_budget st -> within_budget st'.
Proof.
  induction 1 as [| st r st1 pre st2 Hb Hs IH]; intros Hw; [assumption |].
  apply IH. eapply body_next_within; eassumption.
Qed.

Lemma assemble_cases rows : forall st st',
  assemble str_of st rows = OK st' ->
  exists pre,
    steps st pre st'
    /\ (rows = pre
        \/ exists r post, rows = pre ++ r :: post
                          /\ body str_of st' r = OK (Stop st')).
Proof.
  induction rows as [| r rows IH]; simpl; intros st st' H.
  - injection H as <-. exists []. split; [constructor | left; reflexivity].
  - apply AssemblerFacts.bind_ok in H as [f [Hf H]].
    destruct f as [st1 | st1].
    + apply IH in H as [pre [Hsteps Hcase]].
      exists (r :: pre). split; [econstructor; eassumption |].
      destruct Hcase as [-> | [r' [post [-> Hstop]]]].
      * left. reflexivity.
      * right. exists r', post. auto.
    + injection H as <-.
      pose proof (body_stop _ _ Hf) as [-> _].
      exists []. split; [constructor |].
      right. exists r, rows. auto.
Qed.

End Main.

(** ** Two blocks that fill the budget exactly *)

Fixpoint repeat_char (c : ascii) (n : nat) : string :=
  match n with
  | O => EmptyString
  | S n' => String c (repeat_char c n')
  end.

(** A block is 16 characters longer than its title and text; with a
    one-character title and 3983 characters of text it has 4000. *)
Definition big_rows : list Store.row :=
  [ AssemblerFacts.a_row "p1" "T" EmptyString (repeat_char "a" 3983) EmptyString;
    AssemblerFacts.a_row "p2" "U" EmptyString (repeat_char "b" 3983) EmptyString ].

Definition render_none (v : json) : string := "None".

Definition big_context : string :=
  join Assembler.nl
    [ part render_none (JStr "T") (JStr (repeat_char "a" 3983));
      part render_none (JStr "U") (JStr (repeat_char "b" 3983)) ].

Example small_budget_run :
  context render_none
    [ AssemblerFacts.a_row "p1" "T" EmptyString "alpha" EmptyString;
      AssemblerFacts.a_row "p2" "U" EmptyString EmptyString EmptyString;
      AssemblerFacts.a_row "p3" "V" EmptyString "alpha" EmptyString;
      AssemblerFacts.a_row "p4" "W" EmptyString "beta" EmptyString ]
  = OK (part render_none (JStr "T") (JStr "alpha") ++ Assembler.nl
        ++ part render_none (JStr "W") (JStr "beta"))%string.
Proof. reflexivity. Qed.

(** C9 as stated fails: two blocks of 4000 characters both fit the
    running total, and the context joined from them has 8001. *)
Lemma cli_context_over_budget :
  exists c, context render_none big_rows = OK c /\ (budget < len c)%Z.
Proof.
  exists big_context. split; vm_compute; reflexivity.
Qed.

(** The server keeps every first-occurrence block, whatever the
    length. *)
Lemma server_context_all_blocks loads rows resp ctx :
  Assembler._prepare_structured_data loads rows = OK (resp, ctx) ->
  ctx = AssemblerFacts.concat_blocks (Assembler.sources resp).
Proof.
  unfold Assembler._prepare_structured_data. intros H.
  apply AssemblerFacts.bind_ok in H as [st [E H]]. injection H as <- <-.
  apply AssemblerFacts.loop_sources in E as [texts [_ [added [Hadd [_ Hctx]]]]].
  simpl in *. rewrite Hadd, Hctx. reflexivity.
Qed.

Example server_context_over_budget :
  exists resp ctx,
    Assembler._prepare_structured_data (fun _ => JSONDecodeError) big_rows = OK (resp, ctx)
    /\ (budget < len ctx)%Z.
Proof.
  eexists. exists (Assembler.block "T" (repeat_char "a" 3983)
                   ++ Assembler.block "U" (repeat_char "b" 3983))%string.
  split; vm_compute; reflexivity.
Qed.

(** C9, amended. When the command-line loop returns, it ran over a
    prefix of the rows without leaving and either consumed them all
    or left at the first row after that prefix, a fresh non-empty
    chunk whose block would take the running total above 8000; the
    rows after it are not looked at. The running total is the summed
    length of the blocks kept and is at most 8000; the joined context
    adds one newline between blocks, so it is at most 8000 plus the
    number of blocks minus one. The server's assembler keeps the
    block of every first-occurrence chunk, with no budget. *)
Theorem cli_budget_stops_at_first_overflow
        (str_of : json -> string) (rows : list Store.row) (st' : locals)
        (Hret : assemble str_of init rows = OK st') :
  (exists pre,
      steps str_of init pre st'
      /\ (rows = pre
          \/ exists r post,
              rows = pre ++ r :: post
              /\ body str_of st' r = OK (Stop st')
              /\ truthy (chunk_of r) = true
              /\ is_in (chunk_of r) (seen st') = OK false
              /\ (budget < total_len st'
                           + len (part str_of (title_of r) (chunk_of r)))%Z))
  /\ sum_len (context_parts st') = total_len st'
  /\ (total_len st' <= budget)%Z
  /\ (len (join Assembler.nl (context_parts st'))
      <= budget + Z.max 0 (Z.of_nat (List.length (context_parts st')) - 1))%Z
  /\ (forall loads rows2 resp ctx,
         Assembler._prepare_structured_data loads rows2 = OK (resp, ctx) ->
         ctx = AssemblerFacts.concat_blocks (Assembler.sources resp)).
Proof.
  destruct (assemble_cases _ _ _ Hret) as [pre [Hsteps Hcase]].
  assert (Hw : within_budget st').
  { eapply steps_within; [eassumption |]. split; simpl; [reflexivity | unfold budget; lia]. }
  destruct Hw as [Hsum Hle].
  split.
  { exists pre. split; [assumption |].
    destruct Hcase as [-> | [r [post [-> Hstop]]]]; [left; reflexivity |].
    right. exists r, post.
    pose proof (body_stop _ _ _ Hstop) as [_ [Ht [Hin Hover]]]. auto. }
  split; [symmetry; assumption |].
  split; [assumption |].
  split; [| exact server_context_all_blocks].
  destruct (context_parts st') as [| p parts] eqn:Hparts.
  - change (len (join Assembler.nl [])) with 0%Z. unfold budget. simpl. lia.
  - rewrite join_len by discriminate. rewrite <- Hsum. lia.
Qed.

Lemma cli_budget_stops_at_first_overflow_witness :
  exists st',
    assemble render_none init big_rows = OK st'
    /\ sum_len (context_parts st') = total_len st'
    /\ (total_len st' <= budget)%Z.
Proof.
  exists (mkLocals [ JStr (repeat_char "b" 3983); JStr (repeat_char "a" 3983) ]
                   [ part render_none (JStr "T") (JStr (repeat_char "a" 3983));
                     part render_none (JStr "U") (JStr (repeat_char "b" 3983)) ]
                   8000%Z).
  assert (H : assemble render_none init big_rows
              = OK (mkLocals [ JStr (repeat_char "b" 3983); JStr (repeat_char "a" 3983) ]
                      [ part render_none (JStr "T") (JStr (repeat_char "a" 3983));
                        part render_none (JStr "U") (JStr (repeat_char "b" 3983)) ]
                      8000%Z))
    by (vm_compute; reflexivity).
  split; [exact H |].
  destruct (cli_budget_stops_at_first_overflow _ _ H) as [_ [Hs [Hl _]]].
  split; [exact Hs | exact Hl].
Defined.

End CliFacts.

(* ================================================================== *)
(** * Properties: the streaming endpoint *)
(* ================================================================== *)

Module StreamFacts.
Import Py Stream.

Definition text_frame (token : string) : frame := Data (text_payload token).

Definition is_data (f : frame) : bool :=
  match f with
  | Data _ => true
  | End_ => false
  end.

(** The frames the [try] block can yield. *)
Definition ordinary (f : frame) : Prop :=
  kind_of f = KGraph \/ kind_of f = KMetadata \/ kind_of f = KText.

Lemma kind_of_texts toks :
  map kind_of (map text_frame toks) = repeat KText (List.length toks).
Proof. induction toks as [| t toks IH]; simpl; [reflexivity | rewrite IH; reflexivity]. Qed.

Lemma texts_ordinary toks : Forall ordinary (map text_frame toks).
Proof.
  induction toks as [| t toks IH]; simpl; constructor; [| exact IH].
  right. right. reflexivity.
Qed.

Lemma chars_length s : List.length (chars s) = String.length s.
Proof. induction s as [| c s IH]; simpl; [reflexivity | rewrite IH; reflexivity]. Qed.

Lemma ordinary_not_error f :
  ordinary f -> is_error_frame f = false /\ kind_of f <> KError /\ f <> End_.
Proof.
  intros H. split; [| split].
  - destruct f as [p |]; [| reflexivity].
    destruct p as [| | | | | kvs]; try reflexivity.
    destruct kvs as [| [k v] kvs]; [reflexivity |].
    destruct v; try reflexivity.
    destruct kvs; [| reflexivity].
    simpl. destruct (String.eqb k "error") eqn:Hk; [| reflexivity].
    apply String.eqb_eq in Hk. subst. exfalso.
    destruct H as [H | [H | H]]; discriminate H.
  - destruct H as [H | [H | H]]; rewrite H; discriminate.
  - intros ->. destruct H as [H | [H | H]]; discriminate H.
Qed.

Lemma ordinary_filter fs :
  Forall ordinary fs -> filter is_error_frame fs = [].
Proof.
  induction 1 as [| f fs Hf Hfs IH]; [reflexivity |].
  simpl. apply ordinary_not_error in Hf as [-> _]. exact IH.
Qed.

Section Session.
Variable E : Type.
Variable R : retriever E.
Variable query : string.

(** What the [try] block has yielded when it ends, normally or not:
    nothing, or the graph frame, the metadata frame and text
    frames. *)
Lemma try_block_shape :
  fst (try_block R query) = []
  \/ exists sd toks,
      fst (try_block R query)
      = Data (graph_payload sd) :: Data (sources_payload sd) :: map text_frame toks.
Proof.
  unfold try_block. destruct (stages R query) as [[sd ctx] | e]; [| left; reflexivity].
  right. exists sd.
  destruct (Llm.query_llm (cfg R) (services R) ctx query true) as [c | e].
  - destruct (Llm.tokens c) as [toks e']. exists toks. reflexivity.
  - exists []. reflexivity.
Qed.

Lemma try_block_ordinary : Forall ordinary (fst (try_block R query)).
Proof.
  destruct try_block_shape as [-> | [sd [toks ->]]]; [constructor |].
  constructor; [left; reflexivity |].
  constructor; [right; left; reflexivity | apply texts_ordinary].
Qed.

Lemma response_unfold :
  response_generator R query
  = fst (try_block R query)
      ++ match snd (try_block R query) with
         | Some _ => [ Data error_payload ]
         | None => []
         end
      ++ [ End_ ].
Proof. unfold response_generator. destruct (try_block R query); reflexivity. Qed.

Lemma try_block_success sd ctx c toks e :
  stages R query = OK (sd, ctx) ->
  Llm.query_llm (cfg R) (services R) ctx query true = OK c ->
  Llm.tokens c = (toks, e) ->
  try_block R query
  = (Data (graph_payload sd) :: Data (sources_payload sd) :: map text_frame toks, e).
Proof.
  intros Hs Hq Ht. unfold try_block. rewrite Hs, Hq, Ht. reflexivity.
Qed.

Lemma response_ends :
  exists fs, response_generator R query = fs ++ [ End_ ] /\ ~ In End_ fs.
Proof.
  rewrite response_unfold.
  exists (fst (try_block R query)
            ++ match snd (try_block R query) with
               | Some _ => [ Data error_payload ]
               | None => []
               end).
  split; [rewrite app_assoc; reflexivity |].
  intros Hin. apply in_app_or in Hin as [Hin | Hin].
  - pose proof try_block_ordinary as Hord.
    rewrite Forall_forall in Hord. apply Hord in Hin.
    apply ordinary_not_error in Hin as [_ [_ Hne]]. congruence.
  - destruct (snd (try_block R query)); simpl in Hin; [| contradiction].
    destruct Hin as [Hin | []]. discriminate.
Qed.

Lemma response_success sd ctx c toks :
  stages R query = OK (sd, ctx) ->
  Llm.query_llm (cfg R) (services R) ctx query true = OK c ->
  Llm.tokens c = (toks, None) ->
  response_generator R query
  = Data (graph_payload sd) :: Data (sources_payload sd)
      :: map text_frame toks ++ [ End_ ].
Proof.
  intros Hs Hq Ht. rewrite response_unfold.
  rewrite (@try_block_success sd ctx c toks None Hs Hq Ht). reflexivity.
Qed.

End Session.

(** ** Sample sessions *)

Definition cfg_ollama : Llm.config :=
  Llm.mkConfig "ollama" EmptyString LlmFacts.sample_template "2024-01-01".

(** The local model answers with three fragments. *)
Definition three_fragments : Llm.backends :=
  Llm.mkBackends (fun _ => OK "The answer is 42.")
                 (fun _ => (["The "; "answer "; "is 42."], None))
                 (fun _ => Raise ProviderError)
                 (fun _ => Raise ProviderError).

(** The local model fails after its first fragment. *)
Definition breaks_midway : Llm.backends :=
  Llm.mkBackends (fun _ => Raise ProviderError)
                 (fun _ => (["The "], Some ProviderError))
                 (fun _ => Raise ProviderError)
                 (fun _ => Raise ProviderError).

Definition a_retriever (db : result Store.graphdb) (c : Llm.config) (b : Llm.backends)
  : retriever unit :=
  mkRetriever (fun _ => OK tt) (fun _ => OK ["p1_chunk_0"]) db
              AssemblerFacts.sample_loads c b.

Definition R_ok : retriever unit :=
  a_retriever (OK StoreFacts.fixture) cfg_ollama three_fragments.
Definition R_midway : retriever unit :=
  a_retriever (OK StoreFacts.fixture) cfg_ollama breaks_midway.
Definition R_down : retriever unit :=
  a_retriever (Raise ServiceUnavailable) cfg_ollama three_fragments.
Definition R_unknown : retriever unit :=
  a_retriever (OK StoreFacts.fixture) LlmFacts.cfg_unknown LlmFacts.no_services.

Definition fixture_response : Assembler.StructuredResponse :=
  Assembler.mkStructuredResponse
    [ Assembler.mkSource "p2" "Transformers" "http://x/p2.pdf" "second" ]
    (Assembler.mkGraph [] []).

Definition fixture_context : string := Assembler.block "Transformers" "second".

Lemma stages_fixture c b :
  stages (a_retriever (OK StoreFacts.fixture) c b) "q"
  = OK (fixture_response, fixture_context).
Proof. vm_compute. reflexivity. Qed.

Example three_fragments_in_order :
  response_generator R_ok "q"
  = [ Data (graph_payload fixture_response);
      Data (sources_payload fixture_response);
      text_frame "The "; text_frame "answer "; text_frame "is 42."; End_ ].
Proof. vm_compute. reflexivity. Qed.

Example failure_midway :
  response_generator R_midway "q"
  = [ Data (graph_payload fixture_response);
      Data (sources_payload fixture_response);
      text_frame "The "; Data error_payload; End_ ].
Proof. vm_compute. reflexivity. Qed.

Example store_down :
  response_generator R_down "q" = [ Data error_payload; End_ ].
Proof. vm_compute. reflexivity. Qed.

(** A fragment that parses but has an entity without a type reaches
    the client as the error frame. *)
Definition misshapen_store : Store.graphdb :=
  Store.mkDb
    [ Store.mkNode 1 Store.Paper [("id", JStr "p1"); ("title", JStr "Attention")];
      Store.mkNode 2 Store.Chunk
        [("id", JStr "p1_chunk_0"); ("text", JStr "alpha");
         ("graph_data", JStr AssemblerFacts.fragment_without_type)] ]
    [ Store.mkRel 10 Store.HAS_CHUNK 1 2 ].

Example misshapen_fragment_surfaces :
  response_generator (a_retriever (OK misshapen_store) cfg_ollama three_fragments) "q"
  = [ Data error_payload; End_ ].
Proof. vm_compute. reflexivity. Qed.

(** C1. In a session in which nothing raises, the response is the
    graph frame, the metadata frame, one text frame per fragment of
    the completion in the order it gives them, and the end frame;
    and in every session, failed or not, the response ends with the
    end frame, which occurs nowhere before. *)
Theorem stream_frame_order (E : Type) (R : retriever E) (query : string) :
  (forall sd ctx c toks,
      stages R query = OK (sd, ctx) ->
      Llm.query_llm (cfg R) (services R) ctx query true = OK c ->
      Llm.tokens c = (toks, None) ->
      response_generator R query
      = Data (graph_payload sd) :: Data (sources_payload sd)
          :: map text_frame toks ++ [ End_ ]
      /\ map kind_of (response_generator R query)
         = KGraph :: KMetadata :: repeat KText (List.length toks) ++ [ KEnd ])
  /\ (exists fs, response_generator R query = fs ++ [ End_ ] /\ ~ In End_ fs).
Proof.
  split; [| apply response_ends].
  intros sd ctx c toks Hs Hq Ht.
  pose proof (@response_success E R query sd ctx c toks Hs Hq Ht) as Hr.
  split; [exact Hr |].
  rewrite Hr. cbn [map]. rewrite map_app, kind_of_texts. reflexivity.
Qed.

Lemma stream_frame_order_witness :
  stages R_ok "q" = OK (fixture_response, fixture_context)
  /\ map kind_of (response_generator R_ok "q")
     = [ KGraph; KMetadata; KText; KText; KText; KEnd ].
Proof.
  split; [apply stages_fixture |].
  destruct (@stream_frame_order unit R_ok "q") as [Hok _].
  destruct (Hok fixture_response fixture_context
                (Llm.Fragments ["The "; "answer "; "is 42."] None)
                ["The "; "answer "; "is 42."]) as [_ Hk].
  - apply stages_fixture.
  - vm_compute. reflexivity.
  - reflexivity.
  - exact Hk.
Defined.

(** C2 as stated fails: when the store is unreachable the stages
    raise, the response is the error frame and the end frame, and no
    frame of it has a type member "error" with a message string. *)
Lemma error_frame_not_as_described :
  stages R_down "q" = Raise ServiceUnavailable
  /\ response_generator R_down "q" = [ Data error_payload; End_ ]
  /\ ~ (exists f, In f (response_generator R_down "q")
                  /\ described_error_frame f = true).
Proof.
  split; [vm_compute; reflexivity |].
  split; [vm_compute; reflexivity |].
  intros [f [Hin Hd]].
  assert (Hr : response_generator R_down "q" = [ Data error_payload; End_ ])
    by (vm_compute; reflexivity).
  rewrite Hr in Hin. simpl in Hin.
  destruct Hin as [<- | [<- | []]]; vm_compute in Hd; discriminate.
Qed.

(** C2, amended. When an exception leaves the [try] block, the
    response is what was yielded so far (nothing, or the graph and
    metadata frames and some text frames), then one error frame, then
    the end frame; the error frame is the object with the single
    member error, "Something went wrong"; it is the only error frame
    and no text frame follows it. When the exception is raised by the
    stages before the graph frame, the error frame and the end frame
    are the whole response. *)
Theorem error_frame_then_end (E : Type) (R : retriever E) (query : string) (e : exn)
        (Hraised : snd (try_block R query) = Some e) :
  response_generator R query
  = fst (try_block R query) ++ [ Data error_payload; End_ ]
  /\ error_payload = JObj [ ("error", JStr "Something went wrong") ]
  /\ Forall ordinary (fst (try_block R query))
  /\ List.length (filter is_error_frame (response_generator R query)) = 1
  /\ (forall e', stages R query = Raise e' ->
                 response_generator R query = [ Data error_payload; End_ ]).
Proof.
  assert (Hr : response_generator R query
               = fst (try_block R query) ++ [ Data error_payload; End_ ])
    by (rewrite response_unfold, Hraised; reflexivity).
  split; [exact Hr |].
  split; [reflexivity |].
  split; [apply try_block_ordinary |].
  split.
  - rewrite Hr, filter_app, length_app.
    rewrite (ordinary_filter (@try_block_ordinary E R query)). reflexivity.
  - intros e' Hs. rewrite Hr. unfold try_block. rewrite Hs. reflexivity.
Qed.

Lemma error_frame_then_end_witness :
  snd (try_block R_midway "q") = Some ProviderError
  /\ response_generator R_midway "q"
     = fst (try_block R_midway "q") ++ [ Data error_payload; End_ ]
  /\ List.length (filter is_error_frame (response_generator R_midway "q")) = 1.
Proof.
  assert (H : snd (try_block R_midway "q") = Some ProviderError)
    by (vm_compute; reflexivity).
  split; [exact H |].
  destruct (@error_frame_then_end unit R_midway "q" ProviderError H)
    as [Hr [_ [_ [Hone _]]]].
  split; [exact Hr | exact Hone].
Defined.

Lemma text_completion_frames (E : Type) (R : retriever E) query sd ctx msg :
  stages R query = OK (sd, ctx) ->
  Llm.query_llm (cfg R) (services R) ctx query true = OK (Llm.Text msg) ->
  response_generator R query
  = Data (graph_payload sd) :: Data (sources_payload sd)
      :: map text_frame (chars msg) ++ [ End_ ].
Proof.
  intros Hs Hq.
  apply (@response_success E R query sd ctx (Llm.Text msg) (chars msg) Hs Hq).
  reflexivity.
Qed.

Lemma all_ordinary_but_end sd toks :
  Forall (fun f => is_error_frame f = false /\ kind_of f <> KError)
         (Data (graph_payload sd) :: Data (sources_payload sd)
            :: map text_frame toks ++ [ End_ ]).
Proof.
  constructor; [split; [reflexivity | discriminate] |].
  constructor; [split; [reflexivity | discriminate] |].
  apply Forall_app. split.
  - pose proof (texts_ordinary toks) as H.
    eapply Forall_impl; [| exact H].
    intros f Hf. apply ordinary_not_error in Hf as [H1 [H2 _]]. auto.
  - constructor; [split; [reflexivity | discriminate] | constructor].
Qed.

(** C10. When the stages succeed and the provider is unknown, or is
    the hosted one without a key, [query_llm] returns its error
    string and the response is the graph frame, the metadata frame,
    one text frame for each character of that string, in order, and
    the end frame; no frame of it is an error frame. *)
Theorem error_string_streamed_by_character
        (E : Type) (R : retriever E) (query : string)
        (sd : Assembler.StructuredResponse) (ctx : string)
        (Hstages : stages R query = OK (sd, ctx))
        (Htemplate : LlmFacts.template_ok (Llm.RAG_PROMPT (cfg R)))
        (Hcfg : LlmFacts.unknown_provider (cfg R)
                \/ LlmFacts.hosted_without_key (cfg R)) :
  exists msg,
    Llm.query_llm (cfg R) (services R) ctx query true = OK (Llm.Text msg)
    /\ (msg = "Error: invalid LLM_PROVIDER."
        \/ msg = "Error: OPENROUTER_API_KEY not set.")
    /\ response_generator R query
       = Data (graph_payload sd) :: Data (sources_payload sd)
           :: map text_frame (chars msg) ++ [ End_ ]
    /\ List.length (map text_frame (chars msg)) = String.length msg
    /\ Forall (fun f => is_error_frame f = false /\ kind_of f <> KError)
              (response_generator R query).
Proof.
  assert (Hq : exists msg,
             Llm.query_llm (cfg R) (services R) ctx query true = OK (Llm.Text msg)
             /\ (msg = "Error: invalid LLM_PROVIDER."
                 \/ msg = "Error: OPENROUTER_API_KEY not set.")).
  { destruct Hcfg as [Hu | Hk].
    - eexists. split; [apply LlmFacts.query_llm_unknown; assumption | left; reflexivity].
    - eexists. split; [apply LlmFacts.query_llm_no_key; assumption | right; reflexivity]. }
  destruct Hq as [msg [Hq Hmsg]]. exists msg.
  pose proof (@text_completion_frames E R query sd ctx msg Hstages Hq) as Hr.
  split; [exact Hq |]. split; [exact Hmsg |]. split; [exact Hr |].
  split; [rewrite length_map; apply chars_length |].
  rewrite Hr. apply all_ordinary_but_end.
Qed.

Lemma error_string_streamed_by_character_witness :
  stages R_unknown "q" = OK (fixture_response, fixture_context)
  /\ LlmFacts.unknown_provider (cfg R_unknown)
  /\ exists msg,
      response_generator R_unknown "q"
      = Data (graph_payload fixture_response) :: Data (sources_payload fixture_response)
          :: map text_frame (chars msg) ++ [ End_ ]
      /\ List.length (map text_frame (chars msg)) = String.length msg.
Proof.
  split; [apply stages_fixture |].
  split; [split; reflexivity |].
  destruct (@error_string_streamed_by_character unit R_unknown "q"
              fixture_response fixture_context
              (stages_fixture _ _) LlmFacts.sample_template_ok
              (or_introl (conj eq_refl eq_refl)))
    as [msg [_ [_ [Hr [Hl _]]]]].
  exists msg. split; [exact Hr | exact Hl].
Defined.

End StreamFacts.

(* ================================================================== *)
(** * Further properties: graph expansion at any depth *)
(* ================================================================== *)

Module ExpansionFacts.
Import Py Store.

(** A path of [n] hops from [cur] to [x] over [MENTIONS] and
    [HAS_CHUNK] relationships, in either direction, that uses no
    relationship of [used] and none twice. *)
Inductive walk (g : graphdb) : list nat -> nat -> nat -> nat -> Prop :=
| walk_one used cur r nxt :
    In r (rels g) -> hop_type (rtype r) = true -> ~ In (rid r) used ->
    step r cur = Some nxt ->
    walk g used cur 1 nxt
| walk_more used cur r nxt n x :
    In r (rels g) -> hop_type (rtype r) = true -> ~ In (rid r) used ->
    step r cur = Some nxt ->
    walk g (rid r :: used) nxt n x ->
    walk g used cur (S n) x.

Lemma not_used_iff i used :
  negb (existsb (Nat.eqb i) used) = true <-> ~ In i used.
Proof.
  rewrite negb_true_iff. split.
  - intros H Hin. assert (existsb (Nat.eqb i) used = true).
    { apply existsb_exists. exists i. split; [assumption | apply Nat.eqb_refl]. }
    congruence.
  - intros H. destruct (existsb (Nat.eqb i) used) eqn:Hex; [| reflexivity].
    exfalso. apply H. apply existsb_exists in Hex as [y [Hy He]].
    apply Nat.eqb_eq in He. subst. assumption.
Qed.

Lemma trails_step g k used cur x :
  In x (trails g (S k) used cur) <->
  exists r nxt,
    In r (rels g) /\ hop_type (rtype r) = true /\ ~ In (rid r) used
    /\ step r cur = Some nxt
    /\ (x = nxt \/ In x (trails g k (rid r :: used) nxt)).
Proof.
  cbn [trails]. rewrite in_flat_map. split.
  - intros [r [Hr Hx]].
    destruct (hop_type (rtype r)) eqn:Hh; simpl in Hx; [| contradiction].
    destruct (negb (existsb (Nat.eqb (rid r)) used)) eqn:Hu; [| contradiction].
    destruct (step r cur) as [nxt |] eqn:Hs; [| contradiction].
    exists r, nxt. apply not_used_iff in Hu.
    repeat split; try assumption.
    destruct Hx as [Hx | Hx]; [left; symmetry; assumption | right; assumption].
  - intros [r [nxt [Hr [Hh [Hu [Hs Hx]]]]]].
    exists r. split; [assumption |].
    apply not_used_iff in Hu. rewrite Hh, Hu, Hs. simpl.
    destruct Hx as [-> | Hx]; [left; reflexivity | right; assumption].
Qed.

Lemma trails_walk g k : forall used cur x,
  In x (trails g k used cur) -> exists n, 1 <= n <= k /\ walk g used cur n x.
Proof.
  induction k as [| k IH]; intros used cur x H.
  - contradiction.
  - apply trails_step in H as [r [nxt [Hr [Hh [Hu [Hs [-> | Hx]]]]]]].
    + exists 1. split; [lia |]. eapply walk_one; eassumption.
    + apply IH in Hx as [n [Hn Hw]].
      exists (S n). split; [lia |]. eapply walk_more; eassumption.
Qed.

Lemma walk_trails g n used cur x :
  walk g used cur n x -> forall k, n <= k -> In x (trails g k used cur).
Proof.
  induction 1 as [used cur r nxt Hr Hh Hu Hs
                 | used cur r nxt n x Hr Hh Hu Hs Hw IH]; intros k Hk.
  - destruct k as [| k]; [lia |].
    apply trails_step. exists r, nxt. auto 6.
  - destruct k as [| k]; [lia |].
    apply trails_step. exists r, nxt.
    repeat split; try assumption. right. apply IH. lia.
Qed.

Lemma trails_mono g k used cur x :
  In x (trails g k used cur) -> In x (trails g (S k) used cur).
Proof.
  intros H. apply trails_walk in H as [n [[_ Hn] Hw]].
  eapply walk_trails; [eassumption | lia].
Qed.

Lemma reached_spec g depth c n :
  In n (reached_chunks g depth c) <->
  exists i, In i (trails g depth [] (nid c))
            /\ find_node g i = Some n /\ nlabel n = Chunk.
Proof.
  unfold reached_chunks. rewrite in_flat_map. split.
  - intros [i [Hi Hn]]. exists i. split; [assumption |].
    destruct (find_node g i) as [m |]; [| contradiction].
    destruct (nlabel m) eqn:Hl; simpl in Hn; try contradiction.
    destruct Hn as [<- | []]. auto.
  - intros [i [Hi [Hf Hl]]]. exists i. split; [assumption |].
    rewrite Hf, Hl. left. reflexivity.
Qed.

Lemma find_node_id g i n : find_node g i = Some n -> nid n = i /\ In n (nodes g).
Proof.
  unfold find_node. intros H. apply find_some in H as [Hin He].
  apply Nat.eqb_eq in He. auto.
Qed.

Lemma reached_in_allc g depth c n :
  In n (reached_chunks g depth c) -> In n (allc g depth c).
Proof.
  intros H. unfold allc.
  destruct (reached_chunks g depth c) as [| m cs] eqn:Hcs; [contradiction |].
  rewrite <- Hcs in *.
  apply StoreFacts.distinct_nodes_complete; [| assumption | intros []].
  intros a b Ha Hb Hab.
  apply reached_spec in Ha as [i [_ [Hfa _]]].
  apply reached_spec in Hb as [j [_ [Hfb _]]].
  pose proof (find_node_id _ _ Hfa) as [Hia _].
  pose proof (find_node_id _ _ Hfb) as [Hjb _].
  assert (i = j) by congruence. subst j. congruence.
Qed.

Lemma allc_cases g depth c n :
  In n (allc g depth c) ->
  (reached_chunks g depth c = [] /\ n = c) \/ In n (reached_chunks g depth c).
Proof.
  unfold allc. destruct (reached_chunks g depth c) as [| m cs] eqn:Hcs.
  - intros [<- | []]. left. auto.
  - intros H. right. eapply StoreFacts.distinct_nodes_sound. eassumption.
Qed.

Lemma owners_spec g chunk p :
  In p (owners g chunk) <->
  exists r, In r (rels g) /\ rtype r = HAS_CHUNK /\ rdst r = nid chunk
            /\ find_node g (rsrc r) = Some p /\ nlabel p = Paper.
Proof.
  unfold owners. rewrite in_flat_map. split.
  - intros [r [Hr Hp]]. exists r. split; [assumption |].
    destruct (rtype r); try contradiction.
    destruct (Nat.eqb (rdst r) (nid chunk)) eqn:Hd; [| contradiction].
    apply Nat.eqb_eq in Hd.
    destruct (find_node g (rsrc r)) as [q |]; [| contradiction].
    destruct (nlabel q) eqn:Hl; simpl in Hp; try contradiction.
    destruct Hp as [<- | []]. auto.
  - intros [r [Hr [Ht [Hd [Hf Hl]]]]]. exists r. split; [assumption |].
    rewrite Ht, Hd, Nat.eqb_refl, Hf, Hl. left. reflexivity.
Qed.

Lemma in_expansion g ids depth r :
  In r (graph_expansion g ids depth) <->
  exists c chunk p,
    In c (seeds g ids) /\ In chunk (allc g depth c)
    /\ In p (owners g chunk) /\ r = mk_row p chunk.
Proof.
  unfold graph_expansion. rewrite nodup_In, in_flat_map. split.
  - intros [c [Hc Hr]]. apply in_flat_map in Hr as [chunk [Hch Hr]].
    apply in_map_iff in Hr as [p [Hr Hp]]. exists c, chunk, p. auto.
  - intros [c [chunk [p [Hc [Hch [Hp ->]]]]]].
    exists c. split; [assumption |]. apply in_flat_map.
    exists chunk. split; [assumption |]. apply in_map_iff. exists p. auto.
Qed.

(** X2. Where a returned row comes from, at any depth: it pairs a chunk
    with a paper that has a [HAS_CHUNK] relationship to it, and the
    chunk is at the end of a walk of one to [depth] hops from a seed;
    the seed itself is returned only when no such walk from it ends in
    a chunk, or when one leads back to it. *)
Theorem expansion_rows_come_from_walks
        (g : graphdb) (ids : list string) (depth : nat) (r : row)
        (Hr : In r (graph_expansion g ids depth)) :
  exists c chunk p rel,
    In c (seeds g ids)
    /\ ((reached_chunks g depth c = [] /\ chunk = c)
        \/ (exists n, 1 <= n <= depth /\ walk g [] (nid c) n (nid chunk)))
    /\ nlabel c = Chunk /\ nlabel chunk = Chunk /\ nlabel p = Paper
    /\ In rel (rels g) /\ rtype rel = HAS_CHUNK
    /\ rsrc rel = nid p /\ rdst rel = nid chunk
    /\ r = mk_row p chunk.
Proof.
  apply in_expansion in Hr as [c [chunk [p [Hc [Hch [Hp ->]]]]]].
  apply owners_spec in Hp as [rel [Hrel [Ht [Hd [Hf Hl]]]]].
  pose proof (find_node_id _ _ Hf) as [Hid _].
  assert (Hcl : nlabel c = Chunk).
  { unfold seeds in Hc. apply StoreFacts.distinct_nodes_sound in Hc.
    apply in_flat_map in Hc as [cid [_ Hc]]. apply filter_In in Hc as [_ Hm].
    unfold is_chunk_with_id in Hm. apply andb_true_iff in Hm as [Hm _].
    destruct (nlabel c); simpl in Hm; congruence. }
  exists c, chunk, p, rel.
  apply allc_cases in Hch as [[Hnone ->] | Hreach].
  - repeat split; auto.
  - apply reached_spec in Hreach as [i [Hi [Hfi Hli]]].
    pose proof (find_node_id _ _ Hfi) as [Hidi _]. subst i.
    apply trails_walk in Hi.
    repeat split; auto.
Qed.

Lemma expansion_rows_come_from_walks_witness :
  In (mk_row StoreFacts.paper2 StoreFacts.chunk2)
     (graph_expansion StoreFacts.fixture ["p1_chunk_0"] 2)
  /\ exists c chunk p,
      In c (seeds StoreFacts.fixture ["p1_chunk_0"])
      /\ nlabel chunk = Chunk /\ nlabel p = Paper
      /\ mk_row StoreFacts.paper2 StoreFacts.chunk2 = mk_row p chunk.
Proof.
  assert (H : In (mk_row StoreFacts.paper2 StoreFacts.chunk2)
                 (graph_expansion StoreFacts.fixture ["p1_chunk_0"] 2))
    by (vm_compute; left; reflexivity).
  split; [exact H |].
  destruct (expansion_rows_come_from_walks _ _ _ _ H)
    as [c [chunk [p [rel [Hc [_ [_ [Hl [Hp [_ [_ [_ [_ Hr]]]]]]]]]]]]].
  exists c, chunk, p. auto.
Defined.

Lemma filter_none {A : Type} (f : A -> bool) (l : list A) :
  (forall x, In x l -> f x = false) -> filter f l = [].
Proof.
  induction l as [| x l IH]; simpl; intros H; [reflexivity |].
  rewrite (H x) by (left; reflexivity). apply IH. intros y Hy. apply H. right. assumption.
Qed.

(** X3. A seed id that no chunk of the store carries changes nothing,
    wherever it stands in the list and whatever the depth. *)
Theorem unresolved_seed_ignored
        (g : graphdb) (ids1 ids2 : list string) (bad : string) (depth : nat)
        (Hbad : forall n, In n (nodes g) -> is_chunk_with_id bad n = false) :
  graph_expansion g (ids1 ++ bad :: ids2) depth
  = graph_expansion g (ids1 ++ ids2) depth.
Proof.
  unfold graph_expansion, seeds.
  rewrite !flat_map_app. cbn [flat_map].
  rewrite (filter_none _ _ Hbad). reflexivity.
Qed.

Lemma unresolved_seed_ignored_witness :
  (forall n, In n (nodes StoreFacts.fixture) -> is_chunk_with_id "missing" n = false)
  /\ graph_expansion StoreFacts.fixture (["p1_chunk_0"] ++ "missing" :: ["p2_chunk_0"]) 2
     = graph_expansion StoreFacts.fixture (["p1_chunk_0"] ++ ["p2_chunk_0"]) 2.
Proof.
  assert (H : forall n, In n (nodes StoreFacts.fixture) ->
                        is_chunk_with_id "missing" n = false).
  { intros n Hn. simpl in Hn.
    repeat (destruct Hn as [<- | Hn]; [reflexivity |]). contradiction. }
  split; [exact H |].
  apply (unresolved_seed_ignored StoreFacts.fixture ["p1_chunk_0"] ["p2_chunk_0"]
                                 "missing" 2 H).
Defined.

(** The store without the relationships of a type the expansion
    does not hop over. *)
Definition only_hop_rels (g : graphdb) : graphdb :=
  mkDb (nodes g) (filter (fun r => hop_type (rtype r)) (rels g)).

Lemma flat_map_filter {A B : Type} (p : A -> bool) (f : A -> list B) (l : list A) :
  (forall x, p x = false -> f x = []) ->
  flat_map f (filter p l) = flat_map f l.
Proof.
  intros H. induction l as [| x l IH]; simpl; [reflexivity |].
  destruct (p x) eqn:Hp; simpl.
  - rewrite IH. reflexivity.
  - rewrite (H x Hp). simpl. exact IH.
Qed.

Lemma flat_map_ext_in {A B : Type} (f f' : A -> list B) (l : list A) :
  (forall x, In x l -> f x = f' x) -> flat_map f l = flat_map f' l.
Proof.
  induction l as [| x l IH]; simpl; intros H; [reflexivity |].
  rewrite (H x (or_introl eq_refl)), IH; [reflexivity |].
  intros y Hy. apply H. right. exact Hy.
Qed.

Lemma trails_only_hop_rels g k : forall used cur,
  trails (only_hop_rels g) k used cur = trails g k used cur.
Proof.
  induction k as [| k IH]; intros used cur; [reflexivity |].
  cbn [trails only_hop_rels rels].
  rewrite flat_map_filter.
  - apply flat_map_ext. intros r.
    destruct (hop_type (rtype r) && negb (existsb (Nat.eqb (rid r)) used));
      [| reflexivity].
    destruct (step r cur); [| reflexivity].
    f_equal. apply IH.
  - intros r Hr. rewrite Hr. reflexivity.
Qed.

Lemma owners_only_hop_rels g chunk :
  owners (only_hop_rels g) chunk = owners g chunk.
Proof.
  unfold owners, only_hop_rels. cbn [rels].
  rewrite flat_map_filter.
  - reflexivity.
  - intros r Hr. destruct (rtype r); simpl in Hr; try discriminate; reflexivity.
Qed.

Lemma expansion_only_hop_rels g ids depth :
  graph_expansion (only_hop_rels g) ids depth = graph_expansion g ids depth.
Proof.
  unfold graph_expansion. f_equal.
  change (seeds (only_hop_rels g) ids) with (seeds g ids).
  apply flat_map_ext. intros c.
  assert (Hall : allc (only_hop_rels g) depth c = allc g depth c).
  { unfold allc, reached_chunks. rewrite trails_only_hop_rels. reflexivity. }
  rewrite Hall. apply flat_map_ext. intros chunk.
  rewrite owners_only_hop_rels. reflexivity.
Qed.

(** The node with this id is an entity. *)
Definition is_entity (g : graphdb) (i : nat) : bool :=
  match find_node g i with
  | Some n => label_eqb (nlabel n) Entity
  | None => false
  end.

(** A relationship between two entities, of whatever type. *)
Definition entity_rel (g : graphdb) (r : rel) : bool :=
  is_entity g (rsrc r) && is_entity g (rdst r).

(** The store without its entity-to-entity relationships. *)
Definition without_entity_rels (g : graphdb) : graphdb :=
  mkDb (nodes g) (filter (fun r => negb (entity_rel g r)) (rels g)).

(** The chunks among the nodes with these ids. *)
Definition chunks_among (g : graphdb) (l : list nat) : list node :=
  flat_map
    (fun i => match find_node g i with
              | Some n => if label_eqb (nlabel n) Chunk then [n] else []
              | None => []
              end)
    l.

Lemma chunks_among_app g a b :
  chunks_among g (a ++ b) = chunks_among g a ++ chunks_among g b.
Proof. apply flat_map_app. Qed.

Lemma chunks_among_entity g i : is_entity g i = true -> chunks_among g [i] = [].
Proof.
  unfold is_entity, chunks_among. cbn [flat_map].
  destruct (find_node g i) as [n |]; [| reflexivity].
  destruct (nlabel n); simpl; intros H; try discriminate; reflexivity.
Qed.

Lemma step_entity g r cur nxt :
  entity_rel g r = true -> step r cur = Some nxt ->
  is_entity g cur = true /\ is_entity g nxt = true.
Proof.
  unfold entity_rel, step. intros H Hs. apply andb_true_iff in H as [H1 H2].
  destruct (Nat.eqb_spec (rsrc r) cur) as [<- | _].
  - injection Hs as <-. auto.
  - destruct (Nat.eqb_spec (rdst r) cur) as [<- | _]; [| discriminate].
    injection Hs as <-. auto.
Qed.

Lemma chunks_flat_map_filter g (p : rel -> bool) (f f' : rel -> list nat) l :
  (forall x, p x = false -> chunks_among g (f x) = []) ->
  (forall x, p x = true -> chunks_among g (f' x) = chunks_among g (f x)) ->
  chunks_among g (flat_map f' (filter p l)) = chunks_among g (flat_map f l).
Proof.
  intros Hf Ht. induction l as [| x l IH]; [reflexivity |].
  cbn [filter flat_map]. destruct (p x) eqn:Hp.
  - cbn [flat_map]. rewrite !chunks_among_app, IH, (Ht x Hp). reflexivity.
  - rewrite chunks_among_app, (Hf x Hp), IH. reflexivity.
Qed.

(** The last hop of a path that ends in a chunk is not between two
    entities. *)
Lemma last_hop_without_entity_rels g used cur :
  chunks_among g (trails (without_entity_rels g) 1 used cur)
  = chunks_among g (trails g 1 used cur).
Proof.
  cbn [trails without_entity_rels rels].
  apply chunks_flat_map_filter.
  - intros r Hr. apply negb_false_iff in Hr.
    destruct (hop_type (rtype r) && negb (existsb (Nat.eqb (rid r)) used));
      [| reflexivity].
    destruct (step r cur) as [nxt |] eqn:Hs; [| reflexivity].
    apply chunks_among_entity. eapply step_entity; eassumption.
  - reflexivity.
Qed.

(** Nor is the first hop out of a node that is not an entity. *)
Lemma two_hops_without_entity_rels g used cur :
  is_entity g cur = false ->
  chunks_among g (trails (without_entity_rels g) 2 used cur)
  = chunks_among g (trails g 2 used cur).
Proof.
  intros Hcur.
  change (trails (without_entity_rels g) 2 used cur)
    with (flat_map
            (fun r =>
               if hop_type (rtype r) && negb (existsb (Nat.eqb (rid r)) used)
               then match step r cur with
                    | Some nxt =>
                        nxt :: trails (without_entity_rels g) 1 (rid r :: used) nxt
                    | None => []
                    end
               else [])
            (filter (fun r => negb (entity_rel g r)) (rels g))).
  change (trails g 2 used cur)
    with (flat_map
            (fun r =>
               if hop_type (rtype r) && negb (existsb (Nat.eqb (rid r)) used)
               then match step r cur with
                    | Some nxt => nxt :: trails g 1 (rid r :: used) nxt
                    | None => []
                    end
               else [])
            (rels g)).
  apply chunks_flat_map_filter.
  - intros r Hr. apply negb_false_iff in Hr.
    destruct (hop_type (rtype r) && negb (existsb (Nat.eqb (rid r)) used));
      [| reflexivity].
    destruct (step r cur) as [nxt |] eqn:Hs; [| reflexivity].
    destruct (@step_entity g r cur nxt Hr Hs) as [Hc _]. congruence.
  - intros r _.
    destruct (hop_type (rtype r) && negb (existsb (Nat.eqb (rid r)) used));
      [| reflexivity].
    destruct (step r cur) as [nxt |]; [| reflexivity].
    change (chunks_among g
              ([nxt] ++ trails (without_entity_rels g) 1 (rid r :: used) nxt)
            = chunks_among g ([nxt] ++ trails g 1 (rid r :: used) nxt)).
    rewrite !chunks_among_app, last_hop_without_entity_rels. reflexivity.
Qed.

Lemma reached_without_entity_rels g depth c :
  depth <= 2 -> is_entity g (nid c) = false ->
  reached_chunks (without_entity_rels g) depth c = reached_chunks g depth c.
Proof.
  intros Hd Hc.
  change (chunks_among g (trails (without_entity_rels g) depth [] (nid c))
          = chunks_among g (trails g depth [] (nid c))).
  destruct depth as [| [| [| d]]]; [reflexivity | | | lia].
  - apply last_hop_without_entity_rels.
  - apply two_hops_without_entity_rels. exact Hc.
Qed.

Lemma owners_without_entity_rels g chunk :
  is_entity g (nid chunk) = false ->
  owners (without_entity_rels g) chunk = owners g chunk.
Proof.
  intros Hc. unfold owners, without_entity_rels. cbn [rels nodes].
  change (find_node (mkDb (nodes g)
                          (filter (fun r => negb (entity_rel g r)) (rels g))))
    with (find_node g).
  apply flat_map_filter. intros r Hr. apply negb_false_iff in Hr.
  destruct (rtype r); try reflexivity.
  destruct (Nat.eqb_spec (rdst r) (nid chunk)) as [He | _]; [| reflexivity].
  unfold entity_rel in Hr. apply andb_true_iff in Hr as [_ Hr].
  rewrite He in Hr. congruence.
Qed.

Lemma find_unique (l : list node) n :
  NoDup (map nid l) -> In n l -> find (fun m => Nat.eqb (nid m) (nid n)) l = Some n.
Proof.
  induction l as [| m l IH]; simpl; intros Hnd Hin; [contradiction |].
  inversion Hnd as [| ? ? Hnot Hnd']; subst.
  destruct Hin as [-> | Hin].
  - rewrite Nat.eqb_refl. reflexivity.
  - destruct (Nat.eqb_spec (nid m) (nid n)) as [He | _].
    + exfalso. apply Hnot. rewrite He. apply in_map. exact Hin.
    + apply IH; assumption.
Qed.

Lemma chunk_not_entity g n :
  find_node g (nid n) = Some n -> nlabel n = Chunk -> is_entity g (nid n) = false.
Proof. unfold is_entity. intros -> ->. reflexivity. Qed.

Lemma seed_is_chunk g ids c :
  In c (seeds g ids) -> In c (nodes g) /\ nlabel c = Chunk.
Proof.
  unfold seeds. intros Hc. apply StoreFacts.distinct_nodes_sound in Hc.
  apply in_flat_map in Hc as [cid [_ Hc]]. apply filter_In in Hc as [Hin Hm].
  split; [assumption |].
  unfold is_chunk_with_id in Hm. apply andb_true_iff in Hm as [Hm _].
  destruct (nlabel c); simpl in Hm; congruence.
Qed.

Lemma expansion_without_entity_rels g ids depth :
  NoDup (map nid (nodes g)) -> depth <= 2 ->
  graph_expansion (without_entity_rels g) ids depth = graph_expansion g ids depth.
Proof.
  intros Hids Hd. unfold graph_expansion. f_equal.
  change (seeds (without_entity_rels g) ids) with (seeds g ids).
  apply flat_map_ext_in. intros c Hc.
  apply seed_is_chunk in Hc as [Hin Hl].
  assert (Hfc : find_node g (nid c) = Some c) by (apply find_unique; assumption).
  pose proof (@chunk_not_entity g c Hfc Hl) as Hne.
  assert (Hall : allc (without_entity_rels g) depth c = allc g depth c).
  { unfold allc. rewrite (@reached_without_entity_rels g depth c Hd Hne). reflexivity. }
  rewrite Hall. apply flat_map_ext_in. intros chunk Hch.
  rewrite owners_without_entity_rels; [reflexivity |].
  apply allc_cases in Hch as [[_ ->] | Hreach]; [exact Hne |].
  apply reached_spec in Hreach as [i [_ [Hfi Hli]]].
  pose proof (find_node_id _ _ Hfi) as [Hidi _]. subst i.
  apply chunk_not_entity; assumption.
Qed.

(** A store in which the entity of one chunk is tied to the entity of
    another by a relationship of type [MENTIONS], as the uploader
    creates for an extracted relationship whose type sanitises to
    that name (graph_pipe.py, lines 75 and 118). *)
Definition entity2 : node := mkNode 6 Entity [("name", JStr "BERT")].

Definition bridged : graphdb :=
  mkDb [ StoreFacts.paper1; StoreFacts.paper2; StoreFacts.chunk1;
         StoreFacts.chunk2; StoreFacts.entity1; entity2 ]
       [ mkRel 10 HAS_CHUNK 1 3; mkRel 11 HAS_CHUNK 2 4;
         mkRel 12 MENTIONS 3 5; mkRel 13 MENTIONS 4 6;
         mkRel 14 (rel_type_of "MENTIONS") 5 6 ].

(** X4. Which relationships the expansion crosses. A relationship of a
    type other than [MENTIONS] and [HAS_CHUNK] is never crossed and
    never read, at any depth: removing them all leaves every
    expansion as it was. A relationship between two entities plays no
    part up to the default depth of 2, whatever its type: in a store
    whose node ids are distinct, removing them all leaves every
    expansion of depth at most 2 as it was. From depth 3 on this
    fails: a relationship of type [MENTIONS] between two entities is
    crossed, and in the store [bridged] it is what leads from the one
    chunk to the other. *)
Theorem relationships_crossed_by_expansion :
  (forall g ids depth,
      graph_expansion (only_hop_rels g) ids depth = graph_expansion g ids depth)
  /\ (forall g ids depth,
         NoDup (map nid (nodes g)) -> depth <= 2 ->
         graph_expansion (without_entity_rels g) ids depth
         = graph_expansion g ids depth)
  /\ (rels (without_entity_rels bridged)
      = [ mkRel 10 HAS_CHUNK 1 3; mkRel 11 HAS_CHUNK 2 4;
          mkRel 12 MENTIONS 3 5; mkRel 13 MENTIONS 4 6 ]
      /\ graph_expansion bridged ["p1_chunk_0"] 3
         = [ mk_row StoreFacts.paper2 StoreFacts.chunk2 ]
      /\ graph_expansion (without_entity_rels bridged) ["p1_chunk_0"] 3
         = [ mk_row StoreFacts.paper1 StoreFacts.chunk1 ]).
Proof.
  split; [exact expansion_only_hop_rels |].
  split; [exact expansion_without_entity_rels |].
  split; [reflexivity |]. split; vm_compute; reflexivity.
Qed.

Lemma bridged_ids : NoDup (map nid (nodes bridged)).
Proof.
  repeat (constructor; [simpl; intuition discriminate |]). constructor.
Qed.

Lemma relationships_crossed_by_expansion_witness :
  NoDup (map nid (nodes bridged))
  /\ graph_expansion (without_entity_rels bridged) ["p1_chunk_0"] 2
     = graph_expansion bridged ["p1_chunk_0"] 2
  /\ graph_expansion (without_entity_rels bridged) ["p1_chunk_0"] 3
     <> graph_expansion bridged ["p1_chunk_0"] 3.
Proof.
  destruct relationships_crossed_by_expansion as [_ [H2 [_ [H3 H3']]]].
  split; [exact bridged_ids |].
  split; [apply (H2 bridged ["p1_chunk_0"] 2 bridged_ids); lia |].
  rewrite H3, H3'. discriminate.
Defined.

(** X5. A chunk reached from a seed within [depth] hops is returned with
    each of its papers, at that depth and at the next. *)
Theorem reached_chunk_returned
        (g : graphdb) (ids : list string) (depth : nat) (c chunk p : node)
        (Hseed : In c (seeds g ids))
        (Hreach : In chunk (reached_chunks g depth c))
        (Hown : In p (owners g chunk)) :
  In (mk_row p chunk) (graph_expansion g ids depth)
  /\ In (mk_row p chunk) (graph_expansion g ids (S depth)).
Proof.
  split; apply in_expansion; exists c, chunk, p;
    (split; [assumption |]); (split; [| auto]); apply reached_in_allc.
  - assumption.
  - apply reached_spec in Hreach as [i [Hi Hrest]].
    apply reached_spec. exists i. split; [apply trails_mono; assumption | assumption].
Qed.

Lemma reached_chunk_returned_witness :
  In StoreFacts.chunk1 (seeds StoreFacts.fixture ["p1_chunk_0"])
  /\ In StoreFacts.chunk2 (reached_chunks StoreFacts.fixture 2 StoreFacts.chunk1)
  /\ In (mk_row StoreFacts.paper2 StoreFacts.chunk2)
        (graph_expansion StoreFacts.fixture ["p1_chunk_0"] 3).
Proof.
  assert (H1 : In StoreFacts.chunk1 (seeds StoreFacts.fixture ["p1_chunk_0"]))
    by (vm_compute; left; reflexivity).
  assert (H2 : In StoreFacts.chunk2
                  (reached_chunks StoreFacts.fixture 2 StoreFacts.chunk1))
    by (vm_compute; left; reflexivity).
  assert (H3 : In StoreFacts.paper2 (owners StoreFacts.fixture StoreFacts.chunk2))
    by (vm_compute; left; reflexivity).
  split; [exact H1 |]. split; [exact H2 |].
  apply (reached_chunk_returned StoreFacts.fixture ["p1_chunk_0"] 2 _ _ _ H1 H2 H3).
Defined.

End ExpansionFacts.

(* ================================================================== *)
(** * Further properties: what the graph view holds *)
(* ================================================================== *)

Module GraphViewFacts.
Import Py Assembler.

Lemma dict_set_keys_iff {K V : Type} (eqb : K -> K -> bool)
      (eqb_spec : forall a b, eqb a b = true <-> a = b) k (v : V) d x :
  In x (dict_keys (dict_set eqb k v d)) <-> x = k \/ In x (dict_keys d).
Proof.
  split; [apply DictFacts.dict_set_keys_in |].
  unfold dict_keys. induction d as [| [k' v'] d IH]; simpl.
  - intros [-> | []]. left. reflexivity.
  - destruct (eqb k k') eqn:Hk; simpl.
    + intros [-> | H]; [left; symmetry; apply eqb_spec; assumption | assumption].
    + intros [-> | [H | H]]; [right; apply IH; left; reflexivity
                             | left; assumption
                             | right; apply IH; right; assumption].
Qed.

(** A loop that inserts, for each item, a value under the key the item
    names: the keys afterwards are the keys before and the keys named. *)
Lemma for_each_keys {K V : Type} (eqb : K -> K -> bool)
      (eqb_spec : forall a b, eqb a b = true <-> a = b)
      (body : list (K * V) -> json -> result (list (K * V)))
      (key_of : json -> option K)
      (Hbody : forall d e d', body d e = OK d' ->
                              exists k v, key_of e = Some k /\ d' = dict_set eqb k v d)
      (es : list json) :
  forall d d', for_each body d es = OK d' ->
    forall x, In x (dict_keys d') <->
              In x (dict_keys d) \/ exists e, In e es /\ key_of e = Some x.
Proof.
  induction es as [| e es IH]; simpl; intros d d' H x.
  - injection H as <-. split; [auto | intros [H | [e [[] _]]]; assumption].
  - apply AssemblerFacts.bind_ok in H as [d1 [H1 H]].
    apply Hbody in H1 as [k [v [Hk ->]]].
    rewrite (IH _ _ H x), (dict_set_keys_iff eqb eqb_spec). split.
    + intros [[-> | Hx] | [e' [He' Hx]]]; eauto.
    + intros [Hx | [e' [[<- | He'] Hx]]]; eauto.
      left. left. congruence.
Qed.

Definition entity_name (e : json) : option string :=
  match getitem e "name" with
  | OK (JStr s) => Some s
  | _ => None
  end.

Definition relationship_key (rel : json) : option edge_key :=
  match getitem rel "source", getitem rel "target", getitem rel "type" with
  | OK (JStr s), OK (JStr t), OK (JStr y) => Some (s, t, y)
  | _, _, _ => None
  end.

Lemma add_entity_sets gn e gn' :
  add_entity gn e = OK gn' ->
  exists k v, entity_name e = Some k /\ gn' = dict_set String.eqb k v gn.
Proof.
  unfold add_entity, entity_name. intros H.
  destruct (getitem e "name") as [a |]; simpl in H; [| discriminate].
  destruct (getitem e "type") as [b |]; simpl in H; [| discriminate].
  destruct a; simpl in H; try discriminate.
  destruct b; simpl in H; try discriminate.
  injection H as <-. eauto.
Qed.

Lemma add_relationship_sets ge rel ge' :
  add_relationship ge rel = OK ge' ->
  exists k v, relationship_key rel = Some k /\ ge' = dict_set edge_key_eqb k v ge.
Proof.
  unfold add_relationship, relationship_key. intros H.
  destruct (getitem rel "source") as [a |]; simpl in H; [| discriminate].
  destruct (getitem rel "target") as [b |]; simpl in H; [| discriminate].
  destruct (getitem rel "type") as [c |]; simpl in H; [| discriminate].
  destruct a; simpl in H; try discriminate.
  destruct b; simpl in H; try discriminate.
  destruct c; simpl in H; try discriminate.
  injection H as <-. eauto.
Qed.

(** Line 127: [graph_data or {}]. *)
Definition fragment_of (graph_data : option json) : json :=
  match graph_data with
  | Some v => if truthy v then v else JObj []
  | None => JObj []
  end.

(** The items the loops of lines 128 and 130 run over. *)
Definition items_of (graph_data : option json) (member : string) : list json :=
  match get_default (fragment_of graph_data) member (JList []) with
  | OK v => match iter v with
            | OK l => l
            | Raise _ => []
            end
  | Raise _ => []
  end.

Lemma add_graph_keys st gd st' :
  add_graph st gd = OK st' ->
  (forall x, In x (dict_keys (graph_nodes st')) <->
             In x (dict_keys (graph_nodes st))
             \/ exists e, In e (items_of gd "entities") /\ entity_name e = Some x)
  /\ (forall x, In x (dict_keys (graph_edges st')) <->
                In x (dict_keys (graph_edges st))
                \/ exists e, In e (items_of gd "relationships")
                             /\ relationship_key e = Some x).
Proof.
  unfold add_graph, items_of, fragment_of. intros H.
  apply AssemblerFacts.bind_ok in H as [ents [He H]].
  apply AssemblerFacts.bind_ok in H as [es [Hes H]].
  apply AssemblerFacts.bind_ok in H as [gn [Hgn H]].
  apply AssemblerFacts.bind_ok in H as [rels [Hr H]].
  apply AssemblerFacts.bind_ok in H as [rs [Hrs H]].
  apply AssemblerFacts.bind_ok in H as [ge [Hge H]].
  injection H as <-. cbn [graph_nodes graph_edges].
  rewrite He, Hes, Hr, Hrs. split.
  - apply (@for_each_keys _ _ String.eqb String.eqb_eq add_entity entity_name
                          add_entity_sets es _ _ Hgn).
  - apply (@for_each_keys _ _ edge_key_eqb AssemblerFacts.edge_key_eqb_spec
                          add_relationship relationship_key
                          add_relationship_sets rs _ _ Hge).
Qed.

Section Loads.
Variable json_loads : string -> loaded.

(** The fragment of a row as line 127 sees it, for a row whose
    [graph_data] loads without an exception other than the one line
    112 catches. *)
Definition fragment (r : Store.row) : json :=
  match parsed_graph_data json_loads r with
  | OK graph_data => fragment_of graph_data
  | Raise _ => JObj []
  end.

Definition items (r : Store.row) (member : string) : list json :=
  match get_default (fragment r) member (JList []) with
  | OK v => match iter v with
            | OK l => l
            | Raise _ => []
            end
  | Raise _ => []
  end.

Lemma items_parsed r gd member :
  parsed_graph_data json_loads r = OK gd -> items r member = items_of gd member.
Proof. intros H. unfold items, fragment, items_of. rewrite H. reflexivity. Qed.

Lemma add_source_keeps_graph st r st' :
  add_source st r = OK st' ->
  graph_nodes st' = graph_nodes st /\ graph_edges st' = graph_edges st.
Proof.
  intros H. apply AssemblerFacts.add_source_ok in H as [text [_ Hcase]].
  destruct Hcase as [[_ ->] | [_ [pid [title [url ->]]]]]; simpl; auto.
Qed.

Lemma loop_keys rows : forall st st',
  for_each (loop_body json_loads) st rows = OK st' ->
  (forall x, In x (dict_keys (graph_nodes st')) <->
             In x (dict_keys (graph_nodes st))
             \/ exists r e, In r rows /\ In e (items r "entities")
                            /\ entity_name e = Some x)
  /\ (forall x, In x (dict_keys (graph_edges st')) <->
                In x (dict_keys (graph_edges st))
                \/ exists r e, In r rows /\ In e (items r "relationships")
                               /\ relationship_key e = Some x).
Proof.
  induction rows as [| r rows IH]; simpl; intros st st' H.
  - injection H as <-.
    split; intros x; (split; [auto | intros [Hx | [r [e [[] _]]]]; assumption]).
  - apply AssemblerFacts.bind_ok in H as [st1 [H1 H]].
    unfold loop_body in H1.
    apply AssemblerFacts.bind_ok in H1 as [gd [Hgd H1]].
    apply AssemblerFacts.bind_ok in H1 as [st0 [H0 H1]].
    apply add_source_keeps_graph in H0 as [Hn0 He0].
    apply add_graph_keys in H1 as [Hn1 He1].
    rewrite <- (items_parsed r "entities" Hgd) in Hn1.
    rewrite <- (items_parsed r "relationships" Hgd) in He1.
    apply IH in H as [Hn He].
    rewrite Hn0 in Hn1. rewrite He0 in He1.
    split; intros x.
    + rewrite Hn, Hn1. split.
      * intros [[Hx | [e [Hin Hk]]] | [r' [e [Hr' [Hin Hk]]]]]; eauto 8.
      * intros [Hx | [r' [e [[<- | Hr'] [Hin Hk]]]]]; eauto 8.
    + rewrite He, He1. split.
      * intros [[Hx | [e [Hin Hk]]] | [r' [e [Hr' [Hin Hk]]]]]; eauto 8.
      * intros [Hx | [r' [e [[<- | Hr'] [Hin Hk]]]]]; eauto 8.
Qed.

End Loads.

(** X6. When [_prepare_structured_data] returns, the ids of the graph's
    nodes are exactly the names of the entities in the fragments of the
    rows, and the triples of its edges exactly those of their
    relationships; every row counts, also one whose chunk text was
    already seen and that adds no source. *)
Theorem graph_view_holds_every_row
        (loads : string -> loaded) (rows : list Store.row)
        (resp : StructuredResponse) (ctx : string)
        (Hret : _prepare_structured_data loads rows = OK (resp, ctx)) :
  (forall name,
      In name (map node_id (nodes (graph resp))) <->
      exists r e, In r rows /\ In e (items loads r "entities")
                  /\ entity_name e = Some name)
  /\ (forall key,
         In key (map AssemblerFacts.edge_triple (edges (graph resp))) <->
         exists r e, In r rows /\ In e (items loads r "relationships")
                     /\ relationship_key e = Some key).
Proof.
  unfold _prepare_structured_data in Hret.
  apply AssemblerFacts.bind_ok in Hret as [st [Hloop Hret]].
  injection Hret as <- <-. cbn [graph nodes edges].
  assert (Hok : AssemblerFacts.graph_ok st).
  { eapply (AssemblerFacts.for_each_inv (loop_body loads) AssemblerFacts.graph_ok);
      [| | eassumption].
    - intros; eapply AssemblerFacts.loop_body_graph_ok; eassumption.
    - repeat split; constructor. }
  destruct Hok as [[_ Hnk] [_ Hek]].
  rewrite (DictFacts.keyed_values node_id Hnk).
  rewrite (DictFacts.keyed_values AssemblerFacts.edge_triple Hek).
  apply loop_keys in Hloop as [Hn He].
  split; intros x.
  - rewrite Hn. simpl. split; [intros [[] | H]; assumption | auto].
  - rewrite He. simpl. split; [intros [[] | H]; assumption | auto].
Qed.

Lemma graph_view_holds_every_row_witness :
  _prepare_structured_data AssemblerFacts.sample_loads AssemblerFacts.sample_rows
  = OK (AssemblerFacts.sample_response, AssemblerFacts.sample_context)
  /\ In "BERT" (map node_id (nodes (graph AssemblerFacts.sample_response))).
Proof.
  split; [exact AssemblerFacts.prepare_sample_rows |].
  destruct (@graph_view_holds_every_row _ _ _ _ AssemblerFacts.prepare_sample_rows)
    as [Hn _].
  apply Hn.
  exists (AssemblerFacts.a_row "p3" "Survey" EmptyString "alpha"
                               AssemblerFacts.fragment_bert),
         (AssemblerFacts.entity "BERT" "Tool").
  split; [right; right; left; reflexivity |].
  split; [vm_compute; left; reflexivity | reflexivity].
Defined.

End GraphViewFacts.

(* ================================================================== *)
(** * Further properties: when the stages cannot fail *)
(* ================================================================== *)

Module PipelineFacts.
Import Py Assembler.

Definition is_entity (e : json) : Prop :=
  exists name ty,
    getitem e "name" = OK (JStr name) /\ getitem e "type" = OK (JStr ty).

Definition is_relationship (rel : json) : Prop :=
  exists s t y,
    getitem rel "source" = OK (JStr s) /\ getitem rel "target" = OK (JStr t)
    /\ getitem rel "type" = OK (JStr y).

(** The member is absent, or a list whose items all satisfy [P]. *)
Definition listed (P : json -> Prop) (v : json) (member : string) : Prop :=
  match v with
  | JObj kvs =>
      match assoc member kvs with
      | None => True
      | Some (JList l) => Forall P l
      | Some _ => False
      end
  | _ => False
  end.

(** A fragment of the expected shape: a dict whose entities, if any,
    have a string name and type and whose relationships, if any, have
    a string source, target and type. The empty dict is one. *)
Definition well_shaped (v : json) : Prop :=
  listed is_entity v "entities" /\ listed is_relationship v "relationships".

Definition has_str (r : Store.row) (k : string) : Prop :=
  exists s, assoc k r = Some (JStr s).

(** On the text of the row's [graph_data], if it is a string,
    [json.loads] returns a value or raises [JSONDecodeError], the one
    exception line 112 catches; a [RecursionError] on a deeply nested
    text, or a [ValueError] on an over-long integer, is not caught. *)
Definition loads_caught (loads : string -> loaded) (r : Store.row) : Prop :=
  forall s e, assoc "graph_data" r = Some (JStr s) -> loads s <> OtherException e.

Definition good_row (loads : string -> loaded) (r : Store.row) : Prop :=
  has_str r "paper_id" /\ has_str r "paper_title" /\ has_str r "pdf_url"
  /\ has_str r "chunk_text"
  /\ loads_caught loads r
  /\ well_shaped (GraphViewFacts.fragment loads r).

Lemma parsed_graph_data_total loads r :
  loads_caught loads r -> exists gd, parsed_graph_data loads r = OK gd.
Proof.
  unfold loads_caught, parsed_graph_data. intros H.
  destruct (assoc "graph_data" r) as [v |]; [| eauto].
  destruct v; eauto.
  specialize (H s). destruct (loads s) as [v | | e]; eauto.
  exfalso. apply (H e); reflexivity.
Qed.

Lemma for_each_total {A S : Type} (body : S -> A -> result S) (l : list A) :
  Forall (fun x => forall st, exists st', body st x = OK st') l ->
  forall st, exists st', for_each body st l = OK st'.
Proof.
  induction 1 as [| x l Hx Hl IH]; intros st; simpl.
  - eauto.
  - destruct (Hx st) as [st1 H1]. rewrite H1. simpl. apply IH.
Qed.

Lemma add_source_total st r :
  has_str r "paper_id" -> has_str r "paper_title" -> has_str r "pdf_url" ->
  has_str r "chunk_text" ->
  exists st', add_source st r = OK st'.
Proof.
  intros [a Ha] [b Hb] [c Hc] [d Hd].
  unfold add_source, row_get, getitem. rewrite Ha, Hb, Hc, Hd. simpl.
  destruct (existsb (String.eqb d) (seen_chunks st)); simpl; eauto.
Qed.

Lemma add_entity_total e :
  is_entity e -> forall gn, exists gn', add_entity gn e = OK gn'.
Proof.
  intros [name [ty [Hn Ht]]] gn. unfold add_entity. rewrite Hn, Ht. simpl. eauto.
Qed.

Lemma add_relationship_total rel :
  is_relationship rel -> forall ge, exists ge', add_relationship ge rel = OK ge'.
Proof.
  intros [s [t [y [Hs [Ht Hy]]]]] ge. unfold add_relationship.
  rewrite Hs, Ht, Hy. simpl. eauto.
Qed.

Lemma listed_items P v member :
  listed P v member ->
  exists l, (x <- get_default v member (JList []) ;; iter x) = OK l /\ Forall P l.
Proof.
  unfold listed, get_default. destruct v; try contradiction.
  destruct (assoc member kvs) as [x |]; simpl.
  - destruct x; try contradiction. intros H. exists l. split; [reflexivity | exact H].
  - intros _. exists []. split; [reflexivity | constructor].
Qed.

Lemma add_graph_total st gd :
  well_shaped (GraphViewFacts.fragment_of gd) ->
  exists st', add_graph st gd = OK st'.
Proof.
  intros [He Hr]. unfold add_graph.
  change (match gd with
          | Some v => if truthy v then v else JObj []
          | None => JObj []
          end) with (GraphViewFacts.fragment_of gd).
  apply listed_items in He as [es [Hes Fes]].
  apply listed_items in Hr as [rs [Hrs Frs]].
  destruct (get_default (GraphViewFacts.fragment_of gd) "entities" (JList []))
    as [ents |]; cbn [bind] in Hes |- *; [| discriminate].
  rewrite Hes. cbn [bind].
  destruct (@for_each_total _ _ add_entity es) with (st := graph_nodes st)
    as [gn Hgn].
  { eapply Forall_impl; [| exact Fes]. intros e. apply add_entity_total. }
  rewrite Hgn. cbn [bind].
  destruct (get_default (GraphViewFacts.fragment_of gd) "relationships" (JList []))
    as [rels |]; cbn [bind] in Hrs |- *; [| discriminate].
  rewrite Hrs. cbn [bind].
  destruct (@for_each_total _ _ add_relationship rs) with (st := graph_edges st)
    as [ge Hge].
  { eapply Forall_impl; [| exact Frs]. intros e. apply add_relationship_total. }
  rewrite Hge. cbn [bind]. eauto.
Qed.

Lemma add_source_keeps_row_shape loads r st :
  good_row loads r -> exists st', loop_body loads st r = OK st'.
Proof.
  intros [H1 [H2 [H3 [H4 [H5 H6]]]]]. unfold loop_body.
  destruct (parsed_graph_data_total H5) as [gd Hgd].
  unfold GraphViewFacts.fragment in H6. rewrite Hgd in H6 |- *. cbn [bind].
  destruct (add_source_total st H1 H2 H3 H4) as [st1 Hs]. rewrite Hs. cbn [bind].
  apply add_graph_total. assumption.
Qed.

Lemma prepare_total loads rows :
  Forall (good_row loads) rows ->
  exists resp ctx, _prepare_structured_data loads rows = OK (resp, ctx).
Proof.
  intros Hrows. unfold _prepare_structured_data.
  destruct (@for_each_total _ _ (loop_body loads) rows) with (st := init)
    as [st Hst].
  { eapply Forall_impl; [| exact Hrows].
    intros r Hr st. apply add_source_keeps_row_shape. assumption. }
  rewrite Hst. simpl. eauto.
Qed.

Lemma firsts_length l : forall seen,
  List.length (AssemblerFacts.firsts seen l) <= List.length l.
Proof.
  induction l as [| t l IH]; intros seen; simpl; [lia |].
  destruct (existsb (String.eqb t) seen); simpl.
  - specialize (IH seen). lia.
  - specialize (IH (t :: seen)). lia.
Qed.

(** X8. The assembler returns on every sequence of rows whose four text
    fields are strings, on whose fragment text [json.loads] returns
    or raises [JSONDecodeError], and whose fragment, once parsed, is
    of the expected shape; a fragment on which [json.loads] raises
    [JSONDecodeError], that is empty or that is missing counts as
    such. A row on which [json.loads] raises another exception is
    not covered: line 112 does not catch it. *)
Theorem assembler_returns_on_good_rows
        (loads : string -> loaded) (rows : list Store.row)
        (Hrows : Forall (good_row loads) rows) :
  exists resp ctx,
    _prepare_structured_data loads rows = OK (resp, ctx)
    /\ List.length (sources resp) <= List.length rows.
Proof.
  destruct (prepare_total Hrows) as [resp [ctx Hret]].
  exists resp, ctx. split; [assumption |].
  unfold _prepare_structured_data in Hret.
  apply AssemblerFacts.bind_ok in Hret as [st [Hloop Hret]].
  injection Hret as <- _. cbn [sources].
  apply AssemblerFacts.loop_sources in Hloop
    as [texts [Htexts [added [Hadd [Hfirsts _]]]]].
  simpl in Hadd. rewrite Hadd.
  assert (Hlen : List.length rows = List.length texts).
  { apply (f_equal (@List.length _)) in Htexts.
    rewrite !length_map in Htexts. exact Htexts. }
  rewrite Hlen, <- (length_map AssemblerFacts.text_of added), Hfirsts.
  apply firsts_length.
Qed.

(** An exception of [json.loads] other than [JSONDecodeError] leaves
    the call. *)
Example loader_exception_not_caught :
  _prepare_structured_data (fun _ => OtherException RecursionError)
    [ AssemblerFacts.a_row "p1" "Attention" EmptyString "alpha" "[[[[" ]
  = Raise RecursionError.
Proof. reflexivity. Qed.

Lemma sample_rows_good :
  Forall (good_row AssemblerFacts.sample_loads) AssemblerFacts.sample_rows.
Proof.
  assert (Hbert : is_entity (AssemblerFacts.entity "BERT" "Tool"))
    by (exists "BERT", "Tool"; split; reflexivity).
  assert (Hcaught : forall s e, AssemblerFacts.sample_loads s <> OtherException e).
  { intros s e. unfold AssemblerFacts.sample_loads.
    repeat match goal with
           | |- context [if ?b then _ else _] => destruct b
           end; discriminate. }
  repeat constructor; try (eexists; reflexivity);
    try (intros s e _; apply Hcaught); vm_compute; auto.
Qed.

Lemma assembler_returns_on_good_rows_witness :
  Forall (good_row AssemblerFacts.sample_loads) AssemblerFacts.sample_rows
  /\ exists resp ctx,
      _prepare_structured_data AssemblerFacts.sample_loads AssemblerFacts.sample_rows
      = OK (resp, ctx)
      /\ List.length (sources resp) <= 3.
Proof.
  split; [exact sample_rows_good |].
  apply (assembler_returns_on_good_rows sample_rows_good).
Defined.

(** The fragment of a chunk node as the assembler will see it. *)
Definition chunk_fragment (loads : string -> loaded) (n : Store.node) : json :=
  GraphViewFacts.fragment loads
    [ ("graph_data", Store.coalesce_empty (Store.prop n "graph_data")) ].

(** [json.loads] on the chunk's fragment text returns or raises
    [JSONDecodeError]. *)
Definition chunk_loads_caught (loads : string -> loaded) (n : Store.node) : Prop :=
  loads_caught loads
    [ ("graph_data", Store.coalesce_empty (Store.prop n "graph_data")) ].

Definition str_prop (n : Store.node) (k : string) : Prop :=
  exists s, Store.prop n k = JStr s.

(** A store whose papers have a string id and title and a string or no
    pdf_url, and whose chunks have a string text and a fragment on
    which [json.loads] returns or raises [JSONDecodeError] and that is
    of the expected shape (or none, or one that does not parse). *)
Definition good_store (loads : string -> loaded) (g : Store.graphdb) : Prop :=
  forall n, In n (Store.nodes g) ->
    (Store.nlabel n = Store.Paper ->
     str_prop n "id" /\ str_prop n "title"
     /\ (Store.prop n "pdf_url" = JNull \/ str_prop n "pdf_url"))
    /\ (Store.nlabel n = Store.Chunk ->
        str_prop n "text" /\ chunk_loads_caught loads n
        /\ well_shaped (chunk_fragment loads n)).

Lemma expansion_rows_nodes g ids depth r :
  In r (Store.graph_expansion g ids depth) ->
  exists p chunk,
    In p (Store.nodes g) /\ Store.nlabel p = Store.Paper
    /\ In chunk (Store.nodes g) /\ Store.nlabel chunk = Store.Chunk
    /\ r = Store.mk_row p chunk.
Proof.
  intros H. apply ExpansionFacts.in_expansion in H
    as [c [chunk [p [Hc [Hch [Hp ->]]]]]].
  apply ExpansionFacts.owners_spec in Hp as [rel [_ [_ [_ [Hf Hl]]]]].
  apply ExpansionFacts.find_node_id in Hf as [_ Hpin].
  assert (Hcn : In c (Store.nodes g) /\ Store.nlabel c = Store.Chunk).
  { unfold Store.seeds in Hc. apply StoreFacts.distinct_nodes_sound in Hc.
    apply in_flat_map in Hc as [cid [_ Hc]]. apply filter_In in Hc as [Hin Hm].
    split; [assumption |].
    unfold Store.is_chunk_with_id in Hm. apply andb_true_iff in Hm as [Hm _].
    destruct (Store.nlabel c); simpl in Hm; congruence. }
  exists p, chunk. split; [assumption |]. split; [assumption |].
  apply ExpansionFacts.allc_cases in Hch as [[_ ->] | Hreach].
  - destruct Hcn. auto.
  - apply ExpansionFacts.reached_spec in Hreach as [i [_ [Hfi Hli]]].
    apply ExpansionFacts.find_node_id in Hfi as [_ Hin]. auto.
Qed.

Lemma mk_row_good loads p chunk :
  (str_prop p "id" /\ str_prop p "title"
   /\ (Store.prop p "pdf_url" = JNull \/ str_prop p "pdf_url")) ->
  (str_prop chunk "text" /\ chunk_loads_caught loads chunk
   /\ well_shaped (chunk_fragment loads chunk)) ->
  good_row loads (Store.mk_row p chunk).
Proof.
  intros [[a Ha] [[b Hb] Hurl]] [[d Hd] [Hloads Hfrag]].
  unfold good_row, has_str, Store.mk_row. cbn [assoc String.eqb Ascii.eqb Bool.eqb].
  rewrite Ha, Hb, Hd.
  split; [eauto |]. split; [eauto |].
  split; [destruct Hurl as [-> | [u ->]]; simpl; eauto |].
  split; [eauto |]. split; [exact Hloads | exact Hfrag].
Qed.

(** X9. On a good store, with the embedding and the vector search
    answering, the stages before generation cannot fail, whatever the
    seeds: the response starts with the graph frame and the metadata
    frame. A good store has no chunk on whose fragment text
    [json.loads] raises an exception other than [JSONDecodeError]. *)
Theorem stages_succeed_on_good_store
        (E : Type) (R : Stream.retriever E) (query : string)
        (emb : E) (ids : list string) (g : Store.graphdb)
        (Hemb : Stream.get_query_embedding R query = OK emb)
        (Hsearch : Stream.vector_search R emb = OK ids)
        (Hsession : Stream.session R = OK g)
        (Hgood : good_store (Stream.json_loads R) g) :
  exists sd ctx rest,
    Stream.stages R query = OK (sd, ctx)
    /\ Stream.response_generator R query
       = Stream.Data (Stream.graph_payload sd)
           :: Stream.Data (Stream.sources_payload sd) :: rest.
Proof.
  assert (Hrows : Forall (good_row (Stream.json_loads R))
                         (Store.graph_expansion g ids 2)).
  { apply Forall_forall. intros r Hr.
    apply expansion_rows_nodes in Hr as [p [chunk [Hp [Hpl [Hc [Hcl ->]]]]]].
    apply mk_row_good.
    - apply (Hgood p Hp). assumption.
    - apply (Hgood chunk Hc). assumption. }
  destruct (prepare_total Hrows) as [sd [ctx Hprep]].
  assert (Hst : Stream.stages R query = OK (sd, ctx)).
  { unfold Stream.stages, Stream.graph_expansion.
    rewrite Hemb. cbn [bind]. rewrite Hsearch. cbn [bind].
    rewrite Hsession. cbn [bind]. exact Hprep. }
  unfold Stream.response_generator, Stream.try_block. rewrite Hst.
  destruct (Llm.query_llm (Stream.cfg R) (Stream.services R) ctx query true)
    as [c | e].
  - destruct (Llm.tokens c) as [toks e'].
    eexists sd, ctx, _. split; [reflexivity |]. cbn [app]. reflexivity.
  - eexists sd, ctx, _. split; [reflexivity |]. cbn [app]. reflexivity.
Qed.

Lemma fixture_good : good_store AssemblerFacts.sample_loads StoreFacts.fixture.
Proof.
  intros n Hn. simpl in Hn.
  destruct Hn as [<- | [<- | [<- | [<- | [<- | []]]]]]; split; intros Hl;
    try discriminate Hl;
    repeat match goal with
           | |- _ /\ _ => split
           | |- str_prop _ _ => eexists; reflexivity
           | |- _ \/ _ => first [left; reflexivity | right; eexists; reflexivity]
           | |- chunk_loads_caught _ _ =>
               let s := fresh "s" in let e := fresh "e" in
               let H := fresh "H" in
               intros s e H; vm_compute in H;
               first [discriminate H | injection H as <-; vm_compute; discriminate]
           | |- well_shaped _ => vm_compute; split; exact I
           end.
Qed.

Lemma stages_succeed_on_good_store_witness :
  good_store (Stream.json_loads StreamFacts.R_midway) StoreFacts.fixture
  /\ exists sd ctx rest,
      Stream.stages StreamFacts.R_midway "q" = OK (sd, ctx)
      /\ Stream.response_generator StreamFacts.R_midway "q"
         = Stream.Data (Stream.graph_payload sd)
             :: Stream.Data (Stream.sources_payload sd) :: rest.
Proof.
  split; [exact fixture_good |].
  apply (@stages_succeed_on_good_store unit StreamFacts.R_midway "q" tt
           ["p1_chunk_0"] StoreFacts.fixture eq_refl eq_refl eq_refl fixture_good).
Defined.

End PipelineFacts.

(* ================================================================== *)
(** * Further properties: the prompt template *)
(* ================================================================== *)

Module TemplateFacts.
Import Py Llm.





(** A field without a name, or with a number as its name, asks for a
    positional argument; [format] is called with keyword arguments
    only. *)
Example positional_field_raises b :
  query_llm (mkConfig "ollama" EmptyString [Lit "Q: "; Field EmptyString] "now")
            b "ctx" "q" true
  = Raise IndexError
  /\ query_llm (mkConfig "ollama" EmptyString [Lit "Q: "; Field "0"] "now")
               b "ctx" "q" true
     = Raise IndexError.
Proof. split; reflexivity. Qed.




End TemplateFacts.

(* ================================================================== *)
(** * Further properties: the command-line context *)
(* ================================================================== *)

Module CliDedupFacts.
Import Py Cli.

Section Main.
Variable str_of : json -> string.

(** What the loop keeps: one block per chunk kept, each chunk truthy,
    no two chunks equal. *)
Definition kept (st : locals) : Prop :=
  Forall2 (fun ch p => exists title, p = part str_of title ch)
          (rev (seen st)) (context_parts st)
  /\ Forall (fun ch => truthy ch = true) (seen st)
  /\ ForallOrdPairs (fun a b => py_eqb a b = false) (seen st).

Lemma is_in_false ch s :
  is_in ch s = OK false -> Forall (fun x => py_eqb ch x = false) s.
Proof.
  unfold is_in. intros H.
  assert (He : existsb (py_eqb ch) s = false)
    by (destruct ch; try discriminate; injection H as H; exact H).
  apply Forall_forall. intros x Hx.
  destruct (py_eqb ch x) eqn:Hp; [| reflexivity].
  assert (existsb (py_eqb ch) s = true)
    by (apply existsb_exists; exists x; auto).
  congruence.
Qed.

Lemma body_next_kept st r st1 :
  kept st -> body str_of st r = OK (Next st1) -> kept st1.
Proof.
  intros [Hparts [Htruthy Hdistinct]] H.
  apply CliFacts.body_next in H as [-> | [Ht [Hin [_ ->]]]].
  - repeat split; assumption.
  - cbn [seen context_parts]. split; [| split].
    + cbn [rev]. apply Forall2_app; [assumption |].
      constructor; [eauto | constructor].
    + constructor; assumption.
    + constructor; [apply is_in_false; assumption | assumption].
Qed.

Lemma steps_kept st pre st' :
  CliFacts.steps str_of st pre st' -> kept st -> kept st'.
Proof.
  induction 1 as [| st r st1 pre st2 Hb Hs IH]; intros Hk; [assumption |].
  apply IH. eapply body_next_kept; eassumption.
Qed.

End Main.

(** The chunks that are strings. *)
Definition texts (chunks : list json) : list string :=
  flat_map (fun ch => match ch with
                      | JStr s => [s]
                      | _ => []
                      end) chunks.

Lemma texts_in s chunks : In s (texts chunks) -> In (JStr s) chunks.
Proof.
  unfold texts. intros H. apply in_flat_map in H as [ch [Hch Hs]].
  destruct ch; try contradiction.
  destruct Hs as [<- | []]. exact Hch.
Qed.

Lemma distinct_texts chunks :
  ForallOrdPairs (fun a b => py_eqb a b = false) chunks -> NoDup (texts chunks).
Proof.
  induction 1 as [| a l Ha Hl IH]; [constructor |].
  destruct a; try exact IH.
  change (NoDup (s :: texts l)). constructor; [| exact IH].
  intros Hin. apply texts_in in Hin.
  rewrite Forall_forall in Ha. specialize (Ha _ Hin).
  simpl in Ha. rewrite String.eqb_refl in Ha. discriminate.
Qed.

(** X11. The command-line context holds one block per chunk kept, in the
    order the chunks were met; every chunk kept is true, no two of
    them are equal as a set compares them, and no string is kept
    twice. Two blocks can still show the same text: a chunk that is a
    number and a chunk that is the string of its digits are two
    elements of the set. *)
Theorem cli_blocks_distinct_chunks
        (str_of : json -> string) (rows : list Store.row) (st' : locals)
        (Hret : assemble str_of init rows = OK st') :
  Forall2 (fun ch p => exists title, p = part str_of title ch)
          (rev (seen st')) (context_parts st')
  /\ Forall (fun ch => truthy ch = true) (seen st')
  /\ ForallOrdPairs (fun a b => py_eqb a b = false) (seen st')
  /\ NoDup (texts (seen st')).
Proof.
  destruct (CliFacts.assemble_cases _ _ _ Hret) as [pre [Hsteps _]].
  assert (Hk : kept str_of st').
  { apply (steps_kept Hsteps). repeat split; constructor. }
  destruct Hk as [H1 [H2 H3]].
  repeat split; try assumption. apply distinct_texts. exact H3.
Qed.

(** A number and the string of its digits give two blocks with the
    same text. *)
Definition render_digits (v : json) : string :=
  match v with
  | JNum 1 => "1"
  | _ => EmptyString
  end.

Example cli_number_and_string_blocks :
  option_map context_parts
    (match assemble render_digits init
             [ [ ("paper_title", JStr "T"); ("chunk_text", JNum 1) ];
               [ ("paper_title", JStr "T"); ("chunk_text", JStr "1") ] ] with
     | OK st => Some st
     | Raise _ => None
     end)
  = Some [ part render_digits (JStr "T") (JStr "1");
           part render_digits (JStr "T") (JStr "1") ].
Proof. vm_compute. reflexivity. Qed.

Definition repeated_rows : list Store.row :=
  [ AssemblerFacts.a_row "p1" "T" EmptyString "alpha" EmptyString;
    AssemblerFacts.a_row "p2" "U" EmptyString EmptyString EmptyString;
    AssemblerFacts.a_row "p3" "V" EmptyString "alpha" EmptyString;
    AssemblerFacts.a_row "p4" "W" EmptyString "beta" EmptyString ].

Lemma cli_blocks_distinct_chunks_witness :
  exists st',
    assemble CliFacts.render_none init repeated_rows = OK st'
    /\ seen st' = [ JStr "beta"; JStr "alpha" ]
    /\ ForallOrdPairs (fun a b => py_eqb a b = false) (seen st')
    /\ NoDup (texts (seen st')).
Proof.
  eexists. split; [vm_compute; reflexivity |]. split; [reflexivity |].
  refine (proj2 (proj2 (@cli_blocks_distinct_chunks CliFacts.render_none
                          repeated_rows _ _))).
  vm_compute. reflexivity.
Defined.

End CliDedupFacts.

(* ================================================================== *)
(** * Further properties: sanitised types are fixed points *)
(* ================================================================== *)

Module SanitizeMore.
Import Sanitize.

Definition word (s : pystr) : Prop := Forall (fun c => word_char c = true) s.

Lemma token_char_ascii c :
  token_char c = true -> (c <? 128)%N = true /\ is_lower c = false /\ word_char c = true.
Proof.
  intros H.
  assert (Hw : word_char c = true).
  { unfold token_char, word_char in *.
    destruct (is_upper c), (is_lower c), (is_digit c), (is_underscore c);
      simpl in *; congruence. }
  unfold token_char, is_upper, is_lower, is_digit, is_underscore in *.
  assert (Hc : (65 <= c <= 90 \/ 48 <= c <= 57 \/ c = 95)%N).
  { apply orb_true_iff in H as [H | H]; [apply orb_true_iff in H as [H | H] |].
    - apply andb_true_iff in H as [H1 H2].
      apply N.leb_le in H1. apply N.leb_le in H2. lia.
    - apply andb_true_iff in H as [H1 H2].
      apply N.leb_le in H1. apply N.leb_le in H2. lia.
    - apply N.eqb_eq in H. lia. }
  split; [apply N.ltb_lt; lia |]. split; [| exact Hw].
  apply andb_false_iff.
  destruct (N.leb_spec 97 c); [right; apply N.leb_gt; lia | left; reflexivity].
Qed.

Lemma upper_char_token U c : token_char c = true -> upper_char U c = [c].
Proof.
  intros Hc. apply token_char_ascii in Hc as [Hlt [Hl _]].
  unfold upper_char. rewrite Hlt, Hl. reflexivity.
Qed.

Lemma upper_token U s : SanitizeFacts.token s -> upper U s = s.
Proof.
  unfold upper. induction 1 as [| c s Hc Hs IH]; simpl; [reflexivity |].
  rewrite (@upper_char_token U c Hc), IH. reflexivity.
Qed.

Lemma re_sub_word s : word s -> forall in_run, re_sub in_run s = s.
Proof.
  induction 1 as [| c s Hc Hs IH]; intros in_run; simpl; [reflexivity |].
  rewrite Hc, IH. reflexivity.
Qed.

Lemma token_word s : SanitizeFacts.token s -> word s.
Proof.
  intros H. eapply Forall_impl; [| exact H].
  intros c Hc. apply token_char_ascii in Hc. tauto.
Qed.

Lemma re_sub_is_word s : forall in_run, word (re_sub in_run s).
Proof.
  induction s as [| c s IH]; intros in_run; simpl; [constructor |].
  destruct (word_char c) eqn:Hw.
  - constructor; [assumption | apply IH].
  - destruct in_run; [apply IH | constructor; [reflexivity | apply IH]].
Qed.

Lemma re_sub_nonempty s : s <> [] -> re_sub false s <> [].
Proof.
  destruct s as [| c s]; [congruence |]. intros _. simpl.
  destruct (word_char c); discriminate.
Qed.

(** The upper-case mapping never erases a character. *)
Definition upper_table_total (unicode_upper : N -> list N) : Prop :=
  forall c, (128 <= c)%N -> unicode_upper c <> [].

Lemma upper_nonempty U s : upper_table_total U -> s <> [] -> upper U s <> [].
Proof.
  intros HU. destruct s as [| c s]; [congruence |]. intros _.
  unfold upper. simpl. intros H. apply app_eq_nil in H as [H _].
  unfold upper_char in H. destruct (N.ltb_spec c 128) as [Hlt | Hge].
  - destruct (is_lower c); discriminate.
  - apply (HU c Hge). assumption.
Qed.

Lemma or_default_nonempty t : or_default t <> [].
Proof. destruct t as [[| c s] |]; simpl; discriminate. Qed.

Lemma sanitize_token_fixed U s :
  SanitizeFacts.token s -> s <> [] -> _sanitize_rel_type U (Some s) = s.
Proof.
  intros Ht Hne. unfold _sanitize_rel_type.
  assert (Hd : or_default (Some s) = s) by (destruct s; [congruence | reflexivity]).
  rewrite Hd, (@upper_token U s Ht). apply re_sub_word. apply token_word. assumption.
Qed.

Lemma sanitize_nonempty U t :
  upper_table_total U -> _sanitize_rel_type U t <> [].
Proof.
  intros HU. unfold _sanitize_rel_type.
  apply re_sub_nonempty. apply upper_nonempty; [assumption | apply or_default_nonempty].
Qed.

(** X12. Sanitising is idempotent: the result is never empty, and
    sanitising it again gives it back; any non-empty token of upper-case
    letters, digits and underscores is left as it is. *)
Theorem sanitize_rel_type_idempotent
        (U : N -> list N)
        (Hup : SanitizeFacts.upper_table_ok U) (Htot : upper_table_total U) :
  (forall t : option pystr,
      _sanitize_rel_type U t <> []
      /\ _sanitize_rel_type U (Some (_sanitize_rel_type U t)) = _sanitize_rel_type U t)
  /\ (forall s, SanitizeFacts.token s -> s <> [] -> _sanitize_rel_type U (Some s) = s).
Proof.
  split.
  - intros t. split; [apply sanitize_nonempty; assumption |].
    apply sanitize_token_fixed; [| apply sanitize_nonempty; assumption].
    unfold _sanitize_rel_type.
    apply SanitizeFacts.re_sub_token. apply SanitizeFacts.upper_no_lower. assumption.
  - intros s. apply sanitize_token_fixed.
Qed.

Lemma identity_table_total : upper_table_total (fun c => [c]).
Proof. intros c _. discriminate. Qed.

Lemma sanitize_rel_type_idempotent_witness :
  SanitizeFacts.upper_table_ok (fun c => [c])
  /\ upper_table_total (fun c => [c])
  /\ _sanitize_rel_type (fun c => [c])
       (Some (_sanitize_rel_type (fun c => [c]) (Some (py "uses method"))))
     = py "USES_METHOD".
Proof.
  split; [exact SanitizeFacts.identity_table_ok |].
  split; [exact identity_table_total |].
  destruct (sanitize_rel_type_idempotent SanitizeFacts.identity_table_ok
                                         identity_table_total) as [H _].
  destruct (H (Some (py "uses method"))) as [_ Heq].
  rewrite Heq. reflexivity.
Defined.

End SanitizeMore.

(* ================================================================== *)
(** * Further properties: the uploader *)
(* ================================================================== *)

Module UploaderFacts.
Import Py Uploader.

Lemma firstn_plus {A : Type} (a b : nat) (l : list A) :
  firstn (a + b) l = firstn a l ++ firstn b (skipn a l).
Proof.
  revert l. induction a as [| a IH]; intros l; simpl; [reflexivity |].
  destruct l as [| x l]; simpl.
  - rewrite firstn_nil. reflexivity.
  - rewrite IH. reflexivity.
Qed.

Lemma concat_slices {A : Type} (bs : nat) (l : list A) (m : nat) :
  List.concat (map (fun i => slice l i (i + bs)) (map (fun k => k * bs) (seq 0 m)))
  = firstn (m * bs) l.
Proof.
  induction m as [| m IH]; [reflexivity |].
  rewrite seq_S, !map_app, concat_app, IH. simpl.
  rewrite app_nil_r. unfold slice.
  replace (m * bs + bs - m * bs) with bs by lia.
  replace (bs + m * bs) with (m * bs + bs) by lia.
  symmetry. apply firstn_plus.
Qed.

Lemma ceil_covers n bs : 0 < bs -> n <= (n + bs - 1) / bs * bs.
Proof.
  intros Hbs.
  pose proof (Nat.div_mod_eq (n + bs - 1) bs) as Hdm.
  pose proof (Nat.mod_upper_bound (n + bs - 1) bs ltac:(lia)) as Hm.
  nia.
Qed.

Lemma ceil_tight n bs k : 0 < bs -> k < (n + bs - 1) / bs -> k * bs < n.
Proof.
  intros Hbs Hk.
  pose proof (Nat.div_mod_eq (n + bs - 1) bs) as Hdm.
  nia.
Qed.

(** X14. For a positive batch size the batches, put end to end, are the
    records; there are ceil(n / size) of them, none is empty and none
    is longer than the size. *)
Theorem batches_partition (A : Type) (records : list A) (batch_size : Z)
        (Hpos : (0 < batch_size)%Z) :
  exists bs,
    batches records batch_size = Some bs
    /\ List.concat bs = records
    /\ Z.of_nat (List.length bs)
       = ((Z.of_nat (List.length records) + batch_size - 1) / batch_size)%Z
    /\ Forall (fun b => 0 < List.length b /\ (Z.of_nat (List.length b) <= batch_size)%Z) bs.
Proof.
  unfold batches.
  destruct (Z.eqb_spec batch_size 0) as [-> | _]; [lia |].
  destruct (Z.ltb_spec batch_size 0) as [Hlt | _]; [lia |].
  set (bs := Z.to_nat batch_size).
  assert (Hbs : 0 < bs) by (unfold bs; lia).
  eexists. split; [reflexivity |]. unfold range_step. split; [| split].
  - rewrite concat_slices. apply firstn_all2. apply ceil_covers. assumption.
  - rewrite !length_map, length_seq.
    replace batch_size with (Z.of_nat bs) by (unfold bs; lia).
    rewrite Nat2Z.inj_div. f_equal. lia.
  - apply Forall_forall. intros b Hb.
    apply in_map_iff in Hb as [i [<- Hi]].
    apply in_map_iff in Hi as [k [<- Hk]].
    apply in_seq in Hk as [_ Hk]. simpl in Hk.
    pose proof (@ceil_tight (List.length records) bs k Hbs Hk) as Hlt.
    unfold slice. rewrite length_firstn, length_skipn.
    replace (k * bs + bs - k * bs) with bs by lia.
    split; [| unfold bs in *]; lia.
Qed.

Lemma batches_partition_witness :
  batches [1; 2; 3; 4; 5; 6; 7] 3 = Some [[1; 2; 3]; [4; 5; 6]; [7]]
  /\ exists bs, batches [1; 2; 3; 4; 5; 6; 7] 3 = Some bs
                /\ List.concat bs = [1; 2; 3; 4; 5; 6; 7].
Proof.
  split; [reflexivity |].
  destruct (@batches_partition nat [1; 2; 3; 4; 5; 6; 7] 3%Z ltac:(lia))
    as [bs [Hb [Hc _]]].
  exists bs. split; assumption.
Defined.

(** ** The relationship types [_upload_batch] writes *)

Lemma py_unpy l :
  Forall (fun c => (c < 256)%N) l -> Sanitize.py (unpy l) = l.
Proof.
  unfold Sanitize.py, unpy. rewrite list_ascii_of_string_of_list_ascii, map_map.
  induction 1 as [| c l Hc Hl IH]; simpl; [reflexivity |].
  rewrite N_ascii_embedding by assumption. rewrite IH. reflexivity.
Qed.

Lemma unpy_nonempty l : l <> [] -> unpy l <> EmptyString.
Proof. destruct l; [congruence | discriminate]. Qed.

Lemma word_below_256 l : SanitizeMore.word l -> Forall (fun c => (c < 256)%N) l.
Proof.
  intros H. eapply Forall_impl; [| exact H]. intros c Hc.
  unfold Sanitize.word_char, Sanitize.is_upper, Sanitize.is_lower,
    Sanitize.is_digit, Sanitize.is_underscore in Hc.
  repeat (apply orb_true_iff in Hc as [Hc | Hc]);
    try (apply andb_true_iff in Hc as [_ Hc]; apply N.leb_le in Hc; lia).
  apply N.eqb_eq in Hc. lia.
Qed.

(** A string that is a non-empty token. *)
Definition token_string (ty : string) : Prop :=
  ty <> EmptyString /\ SanitizeFacts.token (Sanitize.py ty).

Lemma assoc_dict_set {V : Type} k (v : V) d :
  assoc k (dict_set String.eqb k v d) = Some v.
Proof.
  induction d as [| [k' v'] d IH]; simpl.
  - rewrite String.eqb_refl. reflexivity.
  - destruct (String.eqb k k') eqn:Hk; simpl; rewrite Hk; [reflexivity | exact IH].
Qed.

Lemma map_opt_forall {A B : Type} (f : A -> option B) (P : A -> Prop) (Q : B -> Prop) :
  (forall x y, P x -> f x = Some y -> Q y) ->
  forall l l', Forall P l -> map_opt f l = Some l' -> Forall Q l'.
Proof.
  intros Hf. induction l as [| x l IH]; simpl; intros l' HP H.
  - injection H as <-. constructor.
  - inversion HP as [| ? ? Hx Hl]; subst.
    destruct (f x) as [y |] eqn:Hy; simpl in H; [| discriminate].
    destruct (map_opt f l) as [ys |] eqn:Hys; simpl in H; [| discriminate].
    injection H as <-. constructor; [eapply Hf; eassumption | apply IH; auto].
Qed.

Lemma Forall_concat {A : Type} (Q : A -> Prop) (ll : list (list A)) :
  Forall (Forall Q) ll -> Forall Q (List.concat ll).
Proof.
  induction 1 as [| l ll Hl Hll IH]; simpl; [constructor |].
  apply Forall_app. auto.
Qed.

Lemma Forall_true {A : Type} (l : list A) : Forall (fun _ => True) l.
Proof. induction l; constructor; auto. Qed.

Section Batch.
Variable U : N -> list N.
Variable loads : string -> option json.
Variable dumps : json -> string.
Hypothesis Hup : SanitizeFacts.upper_table_ok U.
Hypothesis Htot : SanitizeMore.upper_table_total U.

Lemma sanitized_is_token_string t :
  token_string (unpy (Sanitize._sanitize_rel_type U t)).
Proof.
  assert (Htok : SanitizeFacts.token (Sanitize._sanitize_rel_type U t)).
  { unfold Sanitize._sanitize_rel_type.
    apply SanitizeFacts.re_sub_token. apply SanitizeFacts.upper_no_lower. exact Hup. }
  split.
  - apply unpy_nonempty. apply SanitizeMore.sanitize_nonempty. exact Htot.
  - rewrite py_unpy; [exact Htok |].
    apply word_below_256. apply SanitizeMore.token_word. exact Htok.
Qed.

Lemma sanitize_value_token t ty :
  sanitize_value U t = Some ty -> token_string ty.
Proof.
  unfold sanitize_value. destruct (truthy t).
  - destruct t; try discriminate. intros H. injection H as <-.
    apply sanitized_is_token_string.
  - intros H. injection H as <-. apply sanitized_is_token_string.
Qed.

(** A relationship whose type has been sanitised. *)
Definition sanitized_rel (rel : json) : Prop :=
  exists kvs ty, rel = JObj kvs /\ assoc "type" kvs = Some (JStr ty) /\ token_string ty.

Lemma sanitize_rel_ok rel rel' :
  sanitize_rel U rel = Some rel' -> sanitized_rel rel'.
Proof.
  unfold sanitize_rel. destruct rel; try discriminate.
  destruct (sanitize_value U _) as [ty |] eqn:Hty; simpl; [| discriminate].
  intros H. injection H as <-.
  eexists _, ty. split; [reflexivity |].
  split; [apply assoc_dict_set | eapply sanitize_value_token; eassumption].
Qed.

(** The fragment after lines 72-75: a dict whose relationships, as the
    later loop will iterate them, are all sanitised. *)
Definition sanitized_fragment (gd : json) : Prop :=
  exists kvs,
    gd = JObj kvs
    /\ forall l,
        iter (match assoc "relationships" kvs with
              | Some v => v
              | None => JList []
              end) = OK l ->
        Forall sanitized_rel l.

Lemma sanitize_fragment_ok g1 gd :
  sanitize_fragment U g1 = Some gd -> sanitized_fragment gd.
Proof.
  unfold sanitize_fragment.
  destruct g1 as [| | | | | kvs];
    try (intros H; injection H as <-; eexists; split; [reflexivity |];
         simpl; intros its Hits; injection Hits as <-; constructor).
  destruct (assoc "relationships" kvs) as [v |] eqn:Hv.
  - destruct v as [| | | s | rels | kvs'].
    + discriminate.
    + discriminate.
    + discriminate.
    + destruct (String.eqb_spec s EmptyString) as [-> | _]; [| discriminate].
      intros H. injection H as <-. exists kvs. split; [reflexivity |].
      rewrite Hv. simpl. intros l Hl. injection Hl as <-. constructor.
    + destruct (map_opt (sanitize_rel U) rels) as [rels' |] eqn:Hr; simpl;
        [| discriminate].
      intros H. injection H as <-. eexists. split; [reflexivity |].
      rewrite assoc_dict_set. simpl. intros l Hl. injection Hl as <-.
      eapply (@map_opt_forall _ _ (sanitize_rel U) (fun _ => True) sanitized_rel);
        [| apply Forall_true | exact Hr].
      intros x y _. apply sanitize_rel_ok.
    + destruct kvs'; [| discriminate].
      intros H. injection H as <-. exists kvs. split; [reflexivity |].
      rewrite Hv. simpl. intros l Hl. injection Hl as <-. constructor.
  - intros H. injection H as <-. exists kvs. split; [reflexivity |].
    rewrite Hv. simpl. intros l Hl. injection Hl as <-. constructor.
Qed.

Definition preprocessed (r : Store.row) : Prop :=
  exists gd, assoc "graph_data" r = Some gd /\ sanitized_fragment gd.

Lemma preprocess_ok r r' :
  preprocess U loads dumps r = Some r' -> preprocessed r'.
Proof.
  unfold preprocess, obind.
  destruct (assoc "metadata" r) as [md0 |]; [| discriminate].
  destruct (load_or_empty loads md0) as [md |]; [| discriminate].
  destruct (assoc "graph_data" r) as [g0 |]; [| discriminate].
  destruct (load_or_empty loads g0) as [g1 |]; [| discriminate].
  destruct (sanitize_fragment U g1) as [gd |] eqn:Hgd; [| discriminate].
  intros H. injection H as <-. exists gd.
  split; [apply assoc_dict_set | eapply sanitize_fragment_ok; eassumption].
Qed.

(** What a statement must satisfy. *)
Definition safe_statement (m : merge) : Prop :=
  (exists ty, m_type m = JStr ty /\ token_string ty)
  /\ truthy (sname m) = true /\ truthy (tname m) = true.

Lemma rel_statement_ok rel ss :
  sanitized_rel rel -> rel_statement rel = Some ss -> Forall safe_statement ss.
Proof.
  intros [kvs [ty [-> [Hty Htok]]]]. unfold rel_statement. rewrite Hty.
  destruct (truthy match assoc "source" kvs with Some v => v | None => JNull end) eqn:Hs;
    simpl; [| intros H; injection H as <-; constructor].
  destruct (truthy match assoc "target" kvs with Some v => v | None => JNull end) eqn:Ht;
    simpl; [| intros H; injection H as <-; constructor].
  destruct (negb (String.eqb ty EmptyString)); simpl;
    intros H; injection H as <-; constructor; [| constructor].
  split; [exists ty; auto | auto].
Qed.

Lemma rel_statements_ok r ss :
  preprocessed r -> rel_statements r = Some ss -> Forall safe_statement ss.
Proof.
  intros [gd [Hgd [kvs [-> Hrels]]]]. unfold rel_statements, obind. rewrite Hgd.
  destruct (iter _) as [l |] eqn:Hl; [| discriminate].
  specialize (Hrels l eq_refl).
  destruct (map_opt rel_statement l) as [sss |] eqn:Hs; [| discriminate].
  intros H. injection H as <-. apply Forall_concat.
  eapply (@map_opt_forall _ _ rel_statement sanitized_rel (Forall safe_statement));
    [| exact Hrels | exact Hs].
  intros x y. apply rel_statement_ok.
Qed.

Lemma upload_batch_ok records stmts :
  _upload_batch U loads dumps records = Some stmts -> Forall safe_statement stmts.
Proof.
  unfold _upload_batch, obind.
  destruct (map_opt (preprocess U loads dumps) records) as [recs |] eqn:Hrecs;
    [| discriminate].
  destruct (map_opt rel_statements recs) as [sss |] eqn:Hs; [| discriminate].
  intros H. injection H as <-. apply Forall_concat.
  assert (Hpre : Forall preprocessed recs).
  { eapply (@map_opt_forall _ _ (preprocess U loads dumps) (fun _ => True) preprocessed);
      [| apply Forall_true | exact Hrecs].
    intros x y _. apply preprocess_ok. }
  eapply (@map_opt_forall _ _ rel_statements preprocessed (Forall safe_statement));
    [| exact Hpre | exact Hs].
  intros x y. apply rel_statements_ok.
Qed.

End Batch.

(** X13. Every relationship statement [_upload_batch] hands to the store
    splices in a type that is a non-empty token of upper-case letters,
    digits and underscores, whatever the stored fragment held, and has
    a truthy source and target. *)
Theorem upload_batch_types_are_tokens
        (U : N -> list N) (loads : string -> option json) (dumps : json -> string)
        (Hup : SanitizeFacts.upper_table_ok U)
        (Htot : SanitizeMore.upper_table_total U)
        (records : list Store.row) (stmts : list merge)
        (Hret : _upload_batch U loads dumps records = Some stmts) :
  Forall (fun m =>
            (exists ty, m_type m = JStr ty /\ ty <> EmptyString
                        /\ SanitizeFacts.token (Sanitize.py ty))
            /\ truthy (sname m) = true /\ truthy (tname m) = true)
         stmts.
Proof.
  pose proof (@upload_batch_ok U loads dumps Hup Htot records stmts Hret) as H.
  eapply Forall_impl; [| exact H].
  intros m [[ty [Hty [Hne Htok]]] [Hs Ht]]. eauto 8.
Qed.

(** [json.loads] on the sample texts, [None] where it raises. *)
Definition sample_loads (s : string) : option json :=
  match AssemblerFacts.sample_loads s with
  | Parsed v => Some v
  | _ => None
  end.

Definition sample_record : Store.row :=
  [ ("paper_id", JStr "p1"); ("chunk_id", JStr "p1_chunk_0");
    ("chunk_text", JStr "alpha"); ("metadata", JStr "{}");
    ("graph_data",
     JObj [ ("entities", JList []);
            ("relationships",
             JList [ JObj [ ("source", JStr "BERT"); ("target", JStr "SQuAD");
                            ("type", JStr "evaluated on`") ];
                     JObj [ ("source", JStr "BERT"); ("target", JStr EmptyString) ] ]) ]) ].

Lemma upload_batch_types_are_tokens_witness :
  _upload_batch (fun c => [c]) sample_loads (fun _ => EmptyString)
                [ sample_record ]
  = Some [ mkMerge (JStr "EVALUATED_ON_") (JStr "BERT") (JStr "SQuAD") ]
  /\ Forall (fun m => truthy (sname m) = true)
            [ mkMerge (JStr "EVALUATED_ON_") (JStr "BERT") (JStr "SQuAD") ].
Proof.
  assert (H : _upload_batch (fun c => [c]) sample_loads
                            (fun _ => EmptyString) [ sample_record ]
              = Some [ mkMerge (JStr "EVALUATED_ON_") (JStr "BERT") (JStr "SQuAD") ])
    by (vm_compute; reflexivity).
  split; [exact H |].
  pose proof (@upload_batch_types_are_tokens _ _ _ SanitizeFacts.identity_table_ok
                SanitizeMore.identity_table_total _ _ H) as Hall.
  eapply Forall_impl; [| exact Hall]. intros m [_ [Hs _]]. exact Hs.
Defined.

End UploaderFacts.

(* ================================================================== *)
(** * Further properties: graph extraction *)
(* ================================================================== *)

From Stdlib Require Import Permutation.

Module SparkFacts.
Import Py Spark.

Fixpoint has (c : ascii) (s : string) : bool :=
  match s with
  | EmptyString => false
  | String d r => Ascii.eqb d c || has c r
  end.

Lemma has_append c a b : has c (a ++ b)%string = has c a || has c b.
Proof.
  induction a as [| d a IH]; simpl; [reflexivity |].
  rewrite IH, orb_assoc. reflexivity.
Qed.

Lemma from_first_open_some s t :
  from_first_open s = Some t ->
  exists pre r,
    s = (pre ++ String open_brace r)%string /\ t = String open_brace r
    /\ has open_brace pre = false.
Proof.
  induction s as [| c s IH]; simpl; [discriminate |].
  destruct (Ascii.eqb_spec c open_brace) as [-> | Hne].
  - intros H. injection H as <-. exists EmptyString, s. auto.
  - intros H. destruct (IH H) as [pre [r [-> [-> Hpre]]]].
    exists (String c pre), r. simpl.
    apply Ascii.eqb_neq in Hne. rewrite Hne, Hpre. auto.
Qed.

Lemma upto_last_close_none s :
  upto_last_close s = None <-> has close_brace s = false.
Proof.
  induction s as [| c s IH]; simpl; [tauto |].
  destruct (upto_last_close s) as [p |].
  - split; [discriminate |]. intros H.
    apply orb_false_iff in H as [_ H]. apply IH in H. discriminate.
  - assert (Hs : has close_brace s = false) by (apply IH; reflexivity).
    rewrite Hs, orb_false_r.
    destruct (Ascii.eqb c close_brace); split; congruence.
Qed.

Lemma upto_last_close_some s p :
  upto_last_close s = Some p ->
  exists q post,
    s = (p ++ post)%string
    /\ p = (q ++ String close_brace EmptyString)%string
    /\ has close_brace post = false.
Proof.
  revert p. induction s as [| c s IH]; simpl; intros p; [discriminate |].
  destruct (upto_last_close s) as [p' |] eqn:Hp.
  - intros H. injection H as <-.
    destruct (IH p' eq_refl) as [q [post [-> [-> Hpost]]]].
    exists (String c q), post. auto.
  - apply upto_last_close_none in Hp.
    destruct (Ascii.eqb_spec c close_brace) as [-> | Hne]; [| discriminate].
    intros H. injection H as <-.
    exists EmptyString, s. auto.
Qed.

Lemma from_first_open_app pre x :
  exists w, from_first_open (pre ++ String open_brace x)%string
            = Some (String open_brace (w ++ x)%string).
Proof.
  induction pre as [| c pre IH]; simpl.
  - exists EmptyString. reflexivity.
  - destruct (Ascii.eqb_spec c open_brace) as [-> | Hne].
    + exists (pre ++ String open_brace EmptyString)%string.
      rewrite AssemblerFacts.append_assoc. reflexivity.
    + exact IH.
Qed.

(** X15. The block [_extract_json_block] returns runs from the first
    opening brace of the text to its last closing brace: the text
    before it has no opening brace, the text after it no closing one.
    A block is found exactly when some closing brace follows some
    opening brace. *)
Theorem extract_json_block_spans (s : string) :
  (forall b, _extract_json_block s = Some b ->
     exists pre mid post,
       s = (pre ++ b ++ post)%string
       /\ b = (String open_brace mid ++ String close_brace EmptyString)%string
       /\ has open_brace pre = false /\ has close_brace post = false)
  /\ (_extract_json_block s <> None <->
      exists pre mid post,
        s = (pre ++ String open_brace mid ++ String close_brace post)%string).
Proof.
  split; [| split].
  - intros b H. unfold _extract_json_block in H.
    destruct (from_first_open s) as [t |] eqn:Ht; [| discriminate].
    apply from_first_open_some in Ht as [pre [r [-> [-> Hpre]]]].
    destruct (upto_last_close r) as [p |] eqn:Hp; [| discriminate].
    injection H as <-.
    apply upto_last_close_some in Hp as [q [post [-> [-> Hpost]]]].
    exists pre, q, post. auto.
  - intros H. destruct (_extract_json_block s) as [b |] eqn:Hb; [| congruence].
    unfold _extract_json_block in Hb.
    destruct (from_first_open s) as [t |] eqn:Ht; [| discriminate].
    apply from_first_open_some in Ht as [pre [r [-> [-> Hpre]]]].
    destruct (upto_last_close r) as [p |] eqn:Hp; [| discriminate].
    apply upto_last_close_some in Hp as [q [post [-> [-> Hpost]]]].
    exists pre, q, post.
    rewrite AssemblerFacts.append_assoc. reflexivity.
  - intros [pre [mid [post ->]]]. unfold _extract_json_block.
    change (pre ++ String open_brace mid ++ String close_brace post)%string
      with (pre ++ String open_brace (mid ++ String close_brace post))%string.
    destruct (from_first_open_app pre (mid ++ String close_brace post)%string)
      as [w ->].
    destruct (upto_last_close (w ++ mid ++ String close_brace post)%string)
      as [p |] eqn:Hp; [discriminate |].
    apply upto_last_close_none in Hp.
    rewrite !has_append in Hp. cbn [has] in Hp.
    rewrite Ascii.eqb_refl in Hp. cbn [orb] in Hp.
    rewrite !orb_true_r in Hp. discriminate.
Qed.

Example extract_json_block_sample :
  _extract_json_block "Sure! {a: {b}} done } ok" = Some "{a: {b}} done }"
  /\ _extract_json_block "} no block {" = None.
Proof. split; reflexivity. Qed.

Lemma block_nonempty s b : _extract_json_block s = Some b -> b <> EmptyString.
Proof.
  unfold _extract_json_block.
  destruct (from_first_open s) as [[| c r] |]; try discriminate.
  destruct (upto_last_close r); [| discriminate].
  intros H. injection H as <-. discriminate.
Qed.

Lemma block_of_empty : _extract_json_block EmptyString = None.
Proof. reflexivity. Qed.

Lemma block_spans s b :
  _extract_json_block s = Some b ->
  exists pre mid post,
    s = (pre ++ b ++ post)%string
    /\ b = (String open_brace mid ++ String close_brace EmptyString)%string
    /\ has open_brace pre = false /\ has close_brace post = false.
Proof.
  intros H. unfold _extract_json_block in H.
  destruct (from_first_open s) as [t |] eqn:Ht; [| discriminate].
  apply from_first_open_some in Ht as [pre [r [-> [-> Hpre]]]].
  destruct (upto_last_close r) as [p |] eqn:Hp; [| discriminate].
  injection H as <-.
  apply upto_last_close_some in Hp as [q [post [-> [-> Hpost]]]].
  exists pre, q, post. auto.
Qed.

Lemma block_of_raises raw e :
  block_of raw = Raise e <->
  e = TypeError /\ truthy raw = true /\ forall s, raw <> JStr s.
Proof.
  unfold block_of. split.
  - destruct (truthy raw) eqn:Ht; [| discriminate].
    destruct raw; try discriminate;
      intros H; injection H as <-; repeat split; intros s'; discriminate.
  - intros [-> [-> Hs]]. destruct raw; try reflexivity.
    exfalso. apply (Hs s). reflexivity.
Qed.

(** X16. [extract_graph_data] raises exactly when the model call
    returned a value that is true and is not a string, and then it
    raises [TypeError]: the search for the block is outside the [try].
    On a string it returns, whatever [json.loads] does; and a result
    other than the empty graph is what [json.loads] returned on the
    part of the model's text that runs from its first opening brace
    to its last closing brace. *)
Theorem extract_graph_data_falls_back
        (loads : string -> loaded) (graph_prompt : string -> string)
        (call_ollama call_openrouter : string -> json)
        (provider text : string) :
  let raw := model_output call_ollama call_openrouter provider
                          (graph_prompt (substring 0 3000 text)) in
  let result := extract_graph_data loads graph_prompt call_ollama call_openrouter
                                   provider text in
  (forall e, result = Raise e <->
             e = TypeError /\ truthy raw = true /\ forall s, raw <> JStr s)
  /\ (forall s, raw = JStr s -> exists v, result = OK v)
  /\ (forall v, result = OK v -> v <> empty_graph ->
        exists s pre mid post b,
          raw = JStr s
          /\ s = (pre ++ b ++ post)%string
          /\ b = (String open_brace mid ++ String close_brace EmptyString)%string
          /\ has open_brace pre = false /\ has close_brace post = false
          /\ loads b = Parsed v).
Proof.
  cbv zeta. unfold extract_graph_data.
  set (raw := model_output call_ollama call_openrouter provider
                           (graph_prompt (substring 0 3000 text))).
  split; [| split].
  - intros e. rewrite <- block_of_raises.
    destruct (block_of raw) as [[b |] | e0]; cbn [bind].
    + split; [| discriminate].
      destruct (String.eqb b EmptyString); [discriminate |].
      destruct (loads b); discriminate.
    + split; discriminate.
    + split; intros H; injection H as ->; reflexivity.
  - intros s Hs. rewrite Hs. unfold block_of.
    destruct (truthy (JStr s)); cbn [bind]; [| eauto].
    destruct (_extract_json_block s) as [b |]; [| eauto].
    destruct (String.eqb b EmptyString); [eauto |].
    destruct (loads b); eauto.
  - intros v Hv Hne. unfold block_of in Hv.
    destruct (truthy raw); cbn [bind] in Hv;
      [| injection Hv as <-; contradiction].
    destruct raw as [| | | s | |] eqn:Hraw; try discriminate.
    cbn [bind] in Hv.
    destruct (_extract_json_block s) as [b |] eqn:Hb;
      [| injection Hv as <-; contradiction].
    destruct (String.eqb b EmptyString); [injection Hv as <-; contradiction |].
    destruct (loads b) as [v' | | e0] eqn:Hl;
      injection Hv as <-; try contradiction.
    destruct (block_spans _ Hb) as [pre [mid [post [H1 [H2 [H3 H4]]]]]].
    exists s, pre, mid, post, b. auto 8.
Qed.

Example extract_graph_data_type_error :
  extract_graph_data AssemblerFacts.sample_loads (fun t => t)
                     (fun _ => JNum 5) (fun _ => JStr EmptyString)
                     "ollama" "some text"
  = Raise TypeError.
Proof. reflexivity. Qed.






(** ** Parallel embedding *)

Lemma set_nth_length {A : Type} (x : A) l : forall i,
  List.length (set_nth i x l) = List.length l.
Proof.
  induction l as [| y l IH]; intros [| i]; simpl; try reflexivity.
  rewrite IH. reflexivity.
Qed.


Section Embed.
Variable E : Type.
Variable embed_query : string -> result (list E).

Definition filled (chunks : list string) (j : nat) : option (list E) :=
  Some (slot_value embed_query (nth j chunks EmptyString)).

Definition fill (chunks : list string) (results : list (option (list E))) (idx : nat) :=
  set_nth idx (filled chunks idx) results.

Lemma fold_fill_length chunks order : forall results,
  List.length (fold_left (fill chunks) order results) = List.length results.
Proof.
  induction order as [| i order IH]; intros results; simpl; [reflexivity |].
  rewrite IH. apply set_nth_length.
Qed.


End Embed.




End SparkFacts.

(* ================================================================== *)
(** * Further properties: the name of a downloaded file *)
(* ================================================================== *)

Module ArxivFacts.
Import Arxiv.

(** X19. The identifier used in the file name has no slash, has the length
    of the arXiv identifier, and is the identifier itself when that has
    no slash. *)
Theorem safe_arxiv_id_has_no_slash (arxiv_id : string) :
  SparkFacts.has "/"%char (safe_arxiv_id arxiv_id) = false
  /\ String.length (safe_arxiv_id arxiv_id) = String.length arxiv_id
  /\ (SparkFacts.has "/"%char arxiv_id = false -> safe_arxiv_id arxiv_id = arxiv_id).
Proof.
  induction arxiv_id as [| c s [IH1 [IH2 IH3]]]; simpl; [auto |].
  split; [| split].
  - rewrite IH1. destruct (Ascii.eqb_spec c "/"%char) as [-> | Hne]; [reflexivity |].
    apply Ascii.eqb_neq in Hne. rewrite Hne. reflexivity.
  - rewrite IH2. reflexivity.
  - intros H. apply orb_false_iff in H as [Hc Hs].
    rewrite Hc, (IH3 Hs). reflexivity.
Qed.

Example safe_arxiv_id_old_style :
  safe_arxiv_id "hep-th/9901001v2" = "hep-th_9901001v2".
Proof. reflexivity. Qed.

End ArxivFacts.

(* ================================================================== *)
(** * Further properties: order and types of the graph's nodes *)
(* ================================================================== *)

Module NodeOrderFacts.
Import Py Assembler.

Definition entity_type (e : json) : option string :=
  match getitem e "type" with
  | OK (JStr s) => Some s
  | _ => None
  end.

(** The names of a sequence of entities, in order. *)
Definition names (es : list json) : list string :=
  flat_map (fun e => match GraphViewFacts.entity_name e with
                     | Some n => [n]
                     | None => []
                     end) es.

(** The type the last entity named [k] carries. *)
Fixpoint last_type (k : string) (es : list json) : option string :=
  match es with
  | [] => None
  | e :: es' =>
      match last_type k es' with
      | Some ty => Some ty
      | None =>
          match GraphViewFacts.entity_name e, entity_type e with
          | Some n, Some ty => if String.eqb n k then Some ty else None
          | _, _ => None
          end
      end
  end.

Lemma last_type_app k a b :
  last_type k (a ++ b)
  = match last_type k b with
    | Some ty => Some ty
    | None => last_type k a
    end.
Proof.
  induction a as [| e a IH]; simpl.
  - destruct (last_type k b); reflexivity.
  - rewrite IH. destruct (last_type k b); reflexivity.
Qed.

Lemma names_app a b : names (a ++ b) = names a ++ names b.
Proof. unfold names. apply flat_map_app. Qed.

Lemma firsts_seen_ext l : forall s1 s2,
  (forall x, In x s1 <-> In x s2) ->
  AssemblerFacts.firsts s1 l = AssemblerFacts.firsts s2 l.
Proof.
  induction l as [| t l IH]; intros s1 s2 H; simpl; [reflexivity |].
  assert (He : existsb (String.eqb t) s1 = existsb (String.eqb t) s2).
  { destruct (existsb (String.eqb t) s1) eqn:H1, (existsb (String.eqb t) s2) eqn:H2;
      try reflexivity.
    - apply AssemblerFacts.existsb_eqb_In in H1. apply H in H1.
      apply AssemblerFacts.existsb_eqb_In in H1. congruence.
    - apply AssemblerFacts.existsb_eqb_In in H2. apply H in H2.
      apply AssemblerFacts.existsb_eqb_In in H2. congruence. }
  rewrite He. destruct (existsb (String.eqb t) s2).
  - apply IH. assumption.
  - f_equal. apply IH. intros x. simpl. rewrite H. tauto.
Qed.

Lemma firsts_app l1 l2 : forall seen,
  AssemblerFacts.firsts seen (l1 ++ l2)
  = AssemblerFacts.firsts seen l1
      ++ AssemblerFacts.firsts (seen ++ AssemblerFacts.firsts seen l1) l2.
Proof.
  induction l1 as [| t l1 IH]; intros seen; simpl.
  - rewrite app_nil_r. reflexivity.
  - destruct (existsb (String.eqb t) seen) eqn:Ht.
    + apply IH.
    + simpl. f_equal. rewrite IH. f_equal.
      apply firsts_seen_ext. intros x. rewrite !in_app_iff. simpl. tauto.
Qed.

Lemma dict_set_keys_order {V : Type} k (v : V) d :
  dict_keys (dict_set String.eqb k v d)
  = dict_keys d ++ AssemblerFacts.firsts (dict_keys d) [k].
Proof.
  unfold dict_keys. induction d as [| [k' v'] d IH]; simpl; [reflexivity |].
  destruct (String.eqb k k') eqn:Hk; simpl.
  - rewrite app_nil_r. reflexivity.
  - rewrite IH. simpl. destruct (existsb (String.eqb k) (map fst d)); reflexivity.
Qed.

Lemma dict_get_set_other {V : Type} k k' (v : V) d :
  dict_get String.eqb k (dict_set String.eqb k' v d)
  = if String.eqb k k' then Some v else dict_get String.eqb k d.
Proof.
  induction d as [| [k0 v0] d IH]; simpl.
  - reflexivity.
  - destruct (String.eqb k' k0) eqn:H0; simpl.
    + apply String.eqb_eq in H0. subst k0.
      destruct (String.eqb k k'); reflexivity.
    + rewrite IH. destruct (String.eqb k k0) eqn:Hk0; [| reflexivity].
      apply String.eqb_eq in Hk0. subst k0.
      rewrite String.eqb_sym, H0. reflexivity.
Qed.

Lemma add_entity_exact gn e gn' :
  add_entity gn e = OK gn' ->
  exists n ty,
    GraphViewFacts.entity_name e = Some n /\ entity_type e = Some ty
    /\ gn' = dict_set String.eqb n (mkGraphNode n ty) gn.
Proof.
  unfold add_entity, GraphViewFacts.entity_name, entity_type. intros H.
  destruct (getitem e "name") as [a |]; simpl in H; [| discriminate].
  destruct (getitem e "type") as [b |]; simpl in H; [| discriminate].
  destruct a; simpl in H; try discriminate.
  destruct b; simpl in H; try discriminate.
  injection H as <-. eauto.
Qed.

Lemma entities_loop es : forall gn gn',
  for_each add_entity gn es = OK gn' ->
  dict_keys gn' = dict_keys gn ++ AssemblerFacts.firsts (dict_keys gn) (names es)
  /\ forall k, dict_get String.eqb k gn'
               = match last_type k es with
                 | Some ty => Some (mkGraphNode k ty)
                 | None => dict_get String.eqb k gn
                 end.
Proof.
  induction es as [| e es IH]; intros gn gn' H; cbn [for_each] in H.
  - injection H as <-. simpl. rewrite app_nil_r. auto.
  - apply AssemblerFacts.bind_ok in H as [g1 [H1 H]].
    apply add_entity_exact in H1 as [n [ty [Hn [Hty ->]]]].
    apply IH in H as [Hkeys Hget].
    assert (Hnames : names (e :: es) = [n] ++ names es)
      by (unfold names; cbn [flat_map]; rewrite Hn; reflexivity).
    split.
    + rewrite Hkeys, dict_set_keys_order, <- app_assoc, Hnames, firsts_app.
      reflexivity.
    + intros k. rewrite Hget. cbn [last_type]. rewrite Hn, Hty.
      destruct (last_type k es); [reflexivity |].
      rewrite dict_get_set_other, (String.eqb_sym n k).
      destruct (String.eqb_spec k n) as [-> | _]; reflexivity.
Qed.

Lemma add_graph_nodes st gd st' :
  add_graph st gd = OK st' ->
  for_each add_entity (graph_nodes st) (GraphViewFacts.items_of gd "entities")
  = OK (graph_nodes st').
Proof.
  unfold add_graph, GraphViewFacts.items_of, GraphViewFacts.fragment_of. intros H.
  apply AssemblerFacts.bind_ok in H as [ents [He H]].
  apply AssemblerFacts.bind_ok in H as [es [Hes H]].
  apply AssemblerFacts.bind_ok in H as [gn [Hgn H]].
  apply AssemblerFacts.bind_ok in H as [rels [Hr H]].
  apply AssemblerFacts.bind_ok in H as [rs [Hrs H]].
  apply AssemblerFacts.bind_ok in H as [ge [Hge H]].
  injection H as <-. cbn [graph_nodes]. rewrite He, Hes. exact Hgn.
Qed.

Lemma for_each_app {A S : Type} (body : S -> A -> result S) l1 l2 : forall st st1 st2,
  for_each body st l1 = OK st1 -> for_each body st1 l2 = OK st2 ->
  for_each body st (l1 ++ l2) = OK st2.
Proof.
  induction l1 as [| x l1 IH]; simpl; intros st st1 st2 H1 H2.
  - injection H1 as <-. assumption.
  - apply AssemblerFacts.bind_ok in H1 as [s [Hs H1]]. rewrite Hs. simpl.
    eapply IH; eassumption.
Qed.

Section Loads.
Variable json_loads : string -> loaded.

(** Every entity of every row, in the order the loops meet them. *)
Definition all_entities (rows : list Store.row) : list json :=
  flat_map (fun r => GraphViewFacts.items json_loads r "entities") rows.

Lemma loop_nodes rows : forall st st',
  for_each (loop_body json_loads) st rows = OK st' ->
  for_each add_entity (graph_nodes st) (all_entities rows) = OK (graph_nodes st').
Proof.
  induction rows as [| r rows IH]; simpl; intros st st' H.
  - injection H as <-. reflexivity.
  - apply AssemblerFacts.bind_ok in H as [st1 [H1 H]].
    unfold loop_body in H1.
    apply AssemblerFacts.bind_ok in H1 as [gd [Hgd H1]].
    apply AssemblerFacts.bind_ok in H1 as [st0 [H0 H1]].
    apply GraphViewFacts.add_source_keeps_graph in H0 as [Hn0 _].
    apply add_graph_nodes in H1. rewrite Hn0 in H1.
    rewrite <- (GraphViewFacts.items_parsed json_loads r "entities" Hgd) in H1.
    eapply for_each_app; [exact H1 | apply IH; exact H].
Qed.

End Loads.

Lemma values_in_iff (d : list (string * GraphNode)) v :
  NoDup (dict_keys d) ->
  Forall (fun kv => node_id (snd kv) = fst kv) d ->
  (In v (dict_values d) <-> dict_get String.eqb (node_id v) d = Some v).
Proof.
  unfold dict_keys, dict_values.
  induction d as [| [k v0] d IH]; simpl; intros Hnd Hk.
  - split; [contradiction | discriminate].
  - inversion Hnd as [| ? ? Hnotin Hnd']; subst.
    inversion Hk as [| ? ? Hk0 Hk']; subst. simpl in Hk0.
    specialize (IH Hnd' Hk').
    destruct (String.eqb_spec (node_id v) k) as [<- | Hne].
    + split.
      * intros [-> | Hin]; [reflexivity |].
        exfalso. apply Hnotin. apply IH in Hin.
        clear - Hin. induction d as [| [k1 v1] d IHd]; simpl in *; [discriminate |].
        destruct (String.eqb_spec (node_id v) k1); [left; auto | right; auto].
      * intros H. injection H as ->. left. reflexivity.
    + rewrite <- IH. split; [| auto].
      intros [-> | Hin]; [congruence | assumption].
Qed.

(** X7. The nodes of the returned graph, fully: they stand in the order in
    which their names first occur among the entities of the rows, and
    each carries the type of the last entity of that name. *)
Theorem graph_nodes_first_position_last_type
        (loads : string -> loaded) (rows : list Store.row)
        (resp : StructuredResponse) (ctx : string)
        (Hret : _prepare_structured_data loads rows = OK (resp, ctx)) :
  map node_id (nodes (graph resp))
  = AssemblerFacts.firsts [] (names (all_entities loads rows))
  /\ forall n ty,
      In (mkGraphNode n ty) (nodes (graph resp))
      <-> last_type n (all_entities loads rows) = Some ty.
Proof.
  unfold _prepare_structured_data in Hret.
  apply AssemblerFacts.bind_ok in Hret as [st [Hloop Hret]].
  injection Hret as <- <-. cbn [graph nodes].
  assert (Hok : AssemblerFacts.graph_ok st).
  { eapply (AssemblerFacts.for_each_inv (loop_body loads) AssemblerFacts.graph_ok);
      [| | eassumption].
    - intros; eapply AssemblerFacts.loop_body_graph_ok; eassumption.
    - repeat split; constructor. }
  destruct Hok as [[Hnd Hnk] _].
  apply loop_nodes in Hloop. apply entities_loop in Hloop as [Hkeys Hget].
  split.
  - rewrite (DictFacts.keyed_values node_id Hnk), Hkeys. reflexivity.
  - intros n ty. rewrite (values_in_iff _ Hnd Hnk). cbn [node_id].
    rewrite Hget. simpl.
    destruct (last_type n (all_entities loads rows)) as [ty' |].
    + split; intros H; injection H as ->; reflexivity.
    + split; discriminate.
Qed.

Lemma graph_nodes_first_position_last_type_witness :
  exists resp ctx,
    _prepare_structured_data AssemblerFacts.sample_loads AssemblerFacts.two_types_rows
    = OK (resp, ctx)
    /\ map node_id (nodes (graph resp)) = [ "BERT"; "SQuAD" ]
    /\ In (mkGraphNode "BERT" "Method") (nodes (graph resp)).
Proof.
  destruct (_prepare_structured_data AssemblerFacts.sample_loads
              AssemblerFacts.two_types_rows) as [[resp ctx] | e] eqn:H.
  - exists resp, ctx. split; [reflexivity |].
    destruct (@graph_nodes_first_position_last_type _ _ _ _ H) as [Horder Htype].
    split.
    + rewrite Horder. vm_compute. reflexivity.
    + apply Htype. vm_compute. reflexivity.
  - exfalso. vm_compute in H. discriminate H.
Defined.

End NodeOrderFacts.

(* ================================================================== *)
(** * The further properties on sample inputs *)
(* ================================================================== *)

Module Samples.
Import Py.

Lemma extract_json_block_spans_witness :
  exists pre mid post,
    "Sure! {a: {b}} done } ok"
    = (pre ++ "{a: {b}} done }" ++ post)%string
    /\ "{a: {b}} done }"
       = (String Spark.open_brace mid ++ String Spark.close_brace EmptyString)%string.
Proof.
  destruct (SparkFacts.extract_json_block_spans "Sure! {a: {b}} done } ok") as [H _].
  destruct (H "{a: {b}} done }" eq_refl) as [pre [mid [post [H1 [H2 _]]]]].
  exists pre, mid, post. split; assumption.
Defined.

Definition sample_model (prompt : string) : json :=
  JStr ("Here it is: " ++ AssemblerFacts.fragment_bert ++ " thanks").

Definition sample_graph : json :=
  JObj [ ("entities", JList [ AssemblerFacts.entity "BERT" "Tool" ]) ].

Lemma extract_graph_data_falls_back_witness :
  Spark.extract_graph_data AssemblerFacts.sample_loads (fun t => t)
                           sample_model sample_model "ollama" "some text"
  = OK sample_graph
  /\ exists b, AssemblerFacts.sample_loads b = Parsed sample_graph.
Proof.
  assert (Hrun : Spark.extract_graph_data AssemblerFacts.sample_loads (fun t => t)
                   sample_model sample_model "ollama" "some text"
                 = OK sample_graph) by (vm_compute; reflexivity).
  split; [exact Hrun |].
  destruct (SparkFacts.extract_graph_data_falls_back
              AssemblerFacts.sample_loads (fun t => t) sample_model sample_model
              "ollama" "some text") as [_ [_ H]].
  destruct (H sample_graph Hrun) as [s [pre [mid [post [b [Hs [_ [_ [_ [_ Hl]]]]]]]]]].
  - discriminate.
  - exists b. exact Hl.
Defined.

Lemma safe_arxiv_id_has_no_slash_witness :
  Arxiv.safe_arxiv_id "2401.01234v1" = "2401.01234v1"
  /\ SparkFacts.has "/"%char (Arxiv.safe_arxiv_id "hep-th/9901001v2") = false.
Proof.
  destruct (ArxivFacts.safe_arxiv_id_has_no_slash "2401.01234v1") as [_ [_ H]].
  destruct (ArxivFacts.safe_arxiv_id_has_no_slash "hep-th/9901001v2") as [H' _].
  split; [apply H; reflexivity | exact H'].
Defined.

End Samples.
